(** * ldesign-ppt: a shallow embedding of the parsing core and the
      animation controllers, with the properties of its specification.

    The TypeScript sources are embedded as Rocq functions, one module per
    source class, keeping the names of the source.

    Conventions of the embedding.
    - JavaScript strings are [string]; the tree that fast-xml-parser builds
      is the inductive [xml]; a value that may be [undefined] or [null] is an
      [any] ([option xml], [None] for both: the embedded code only tests such
      values for truthiness or with [??]).
    - The numbers the embedded code computes are integers or [NaN]. A number
      that is known not to be [NaN] is a [Z]; the result of [parseInt] is an
      [option Z] whose [None] is [NaN]; a number that is stored and may be
      [NaN] (a duration, a start time) is a [JS.number]. A number of the
      code is a double: it holds every integer up to [2^53] in magnitude,
      and it adds and subtracts such integers exactly while the result stays
      in that range ([JS.safeInteger]). What is stated about the value of a
      number is stated within that range.
    - Mutable members ([this.steps], [this.timeline], the caches of the
      parser) are threaded explicitly; code that can throw returns a
      [result]. *)

From Stdlib Require Import ZArith List String Ascii Bool Lia.
From Stdlib Require Import Sorted Permutation DecimalString.
From Stdlib Require Import QArith.
From Stdlib Require HexadecimalString.
Close Scope Q_scope.
Import ListNotations.

Set Warnings "-register-all".


Open Scope string_scope.
Open Scope list_scope.
Open Scope Z_scope.

(** ** JavaScript strings *)

Module JS.

(** [s.startsWith(p)] *)
Definition startsWith (s p : string) : bool := String.prefix p s.

(** [s.endsWith(p)] *)
Fixpoint endsWith (s p : string) : bool :=
  (s =? p)%string || match s with
              | EmptyString => false
              | String _ s' => endsWith s' p
              end.

(** [s.includes(p)] *)
Fixpoint includes (s p : string) : bool :=
  String.prefix p s || match s with
                       | EmptyString => false
                       | String _ s' => includes s' p
                       end.

(** [s.split(c)] for a one-character separator. *)
Fixpoint split (c : ascii) (s : string) : list string :=
  match s with
  | EmptyString => [EmptyString]
  | String a s' =>
      if Ascii.eqb a c then EmptyString :: split c s'
      else match split c s' with
           | h :: t => String a h :: t
           | [] => [String a EmptyString]
           end
  end.

(** [parts.join(sep)] *)
Definition join (sep : string) (parts : list string) : string :=
  String.concat sep parts.

(** [s.lastIndexOf(c)]: the index of the last [c], [-1] when there is none.
    [i] is the index of the first character of [s], [acc] the answer so far. *)
Fixpoint lastIndexOf_from (c : ascii) (s : string) (i acc : Z) : Z :=
  match s with
  | EmptyString => acc
  | String a s' => lastIndexOf_from c s' (i + 1) (if Ascii.eqb a c then i else acc)
  end.

Definition lastIndexOf (s : string) (c : ascii) : Z := lastIndexOf_from c s 0 (-1).

(** [s.substring(from, to)]: both bounds are clamped to [0 .. length] and
    swapped when out of order. *)
Definition substring (s : string) (from to : Z) : string :=
  let len := Z.of_nat (String.length s) in
  let clamp x := Z.min (Z.max x 0) len in
  let a := Z.min (clamp from) (clamp to) in
  let b := Z.max (clamp from) (clamp to) in
  String.substring (Z.to_nat a) (Z.to_nat (b - a)) s.

(** [s.replace(pat, rep)] with a string pattern: the first occurrence only. *)
Fixpoint replace (s pat rep : string) : string :=
  if String.prefix pat s
  then (rep ++ String.substring (String.length pat) (String.length s - String.length pat)%nat s)%string
  else match s with
       | EmptyString => EmptyString
       | String a s' => String a (replace s' pat rep)
       end.

(** [s] has no character [c]. *)
Fixpoint lacks (c : ascii) (s : string) : bool :=
  match s with
  | EmptyString => true
  | String a s' => negb (Ascii.eqb a c) && lacks c s'
  end.

(** *** [parseInt] *)

Definition isWhiteSpace (c : ascii) : bool :=
  let n := Z.of_nat (nat_of_ascii c) in
  ((9 <=? n) && (n <=? 13)) || (n =? 32).

Fixpoint trimStart (s : string) : string :=
  match s with
  | EmptyString => EmptyString
  | String c s' => if isWhiteSpace c then trimStart s' else s
  end.

(** The value of a character as a digit, in any radix up to 36. *)
Definition digitValue (c : ascii) : option Z :=
  let n := Z.of_nat (nat_of_ascii c) in
  if (48 <=? n) && (n <=? 57) then Some (n - 48)
  else if (97 <=? n) && (n <=? 122) then Some (n - 87)
  else if (65 <=? n) && (n <=? 90) then Some (n - 55)
  else None.

(** The longest prefix of [s] made of digits of the radix. *)
Fixpoint digitsPrefix (radix : Z) (s : string) : list Z :=
  match s with
  | EmptyString => []
  | String c s' =>
      match digitValue c with
      | Some d => if d <? radix then d :: digitsPrefix radix s' else []
      | None => []
      end
  end.

Definition digitsValue (radix : Z) (ds : list Z) : Z :=
  fold_left (fun acc d => acc * radix + d) ds 0.

(** [None] is [NaN]: no digit to read. *)
Definition parseDigits (radix : Z) (s : string) : option Z :=
  match digitsPrefix radix s with
  | [] => None
  | ds => Some (digitsValue radix ds)
  end.

Definition stripSign (s : string) : Z * string :=
  match s with
  | String "-" s' => (-1, s')
  | String "+" s' => (1, s')
  | _ => (1, s)
  end.

(** An integer a double holds, and next to which it holds every integer. *)
Definition safeInteger (n : Z) : Prop := - 2 ^ 53 <= n <= 2 ^ 53.

(** The double nearest to an integer, the one with the even significand of
    53 bits when two are as near: the number that [parseInt] returns for the
    integer it has read. Below [2^53] in magnitude it is the integer itself.
    (From [2^1024] on the code has [Infinity], and for a writing of more
    than 20 significant digits the standard lets [parseInt] round the
    digits first: there the embedding does not follow the code.) *)
Definition toDouble (n : Z) : Z :=
  let a := Z.abs n in
  if a <? 2 ^ 53 then n
  else
    let e := Z.log2 a - 52 in
    let q := Z.shiftr a e in
    let r := a - Z.shiftl q e in
    let half := Z.shiftl 1 (e - 1) in
    let q' := if (half <? r) || ((r =? half) && Z.odd q) then q + 1 else q in
    Z.sgn n * Z.shiftl q' e.

(** [parseInt(s, 10)] *)
Definition parseInt10 (s : string) : option Z :=
  let (sign, r) := stripSign (trimStart s) in
  option_map (fun v => toDouble (sign * v)) (parseDigits 10 r).

(** [parseInt(s)]: the radix is 16 after a [0x] or [0X] prefix, 10 otherwise. *)
Definition parseInt (s : string) : option Z :=
  let (sign, r) := stripSign (trimStart s) in
  match r with
  | String "0" (String "x" r') | String "0" (String "X" r') =>
      option_map (fun v => toDouble (sign * v)) (parseDigits 16 r')
  | _ => option_map (fun v => toDouble (sign * v)) (parseDigits 10 r)
  end.

(** *** Decimal text

    What it is for a string to be the decimal writing of an integer: an
    optional minus sign and one digit or more. *)

Definition isDigit (c : ascii) : bool :=
  let n := Z.of_nat (nat_of_ascii c) in
  (48 <=? n) && (n <=? 57).

Fixpoint allDigits (s : string) : bool :=
  match s with
  | EmptyString => true
  | String c s' => isDigit c && allDigits s'
  end.

(** The number a string of digits writes, after the digits read so far. *)
Fixpoint decimalValue (acc : Z) (s : string) : Z :=
  match s with
  | EmptyString => acc
  | String c s' => decimalValue (acc * 10 + (Z.of_nat (nat_of_ascii c) - 48)) s'
  end.

Definition IntegerText (s : string) (n : Z) : Prop :=
  match s with
  | String "-" r => r <> EmptyString /\ allDigits r = true /\ n = - decimalValue 0 r
  | _ => s <> EmptyString /\ allDigits s = true /\ n = decimalValue 0 s
  end.

(** [String(n)] for an integer. *)
Definition numberToString (n : Z) : string :=
  NilEmpty.string_of_int (Z.to_int n).

(** *** Letters and hexadecimal digits *)

(** [c.toLowerCase()] for a character of ASCII. *)
Definition lowerChar (c : ascii) : ascii :=
  let n := nat_of_ascii c in
  if ((65 <=? n) && (n <=? 90))%nat then ascii_of_nat (n + 32) else c.

(** [s.toLowerCase()]. Only the letters of ASCII are changed: the function
    is the source's on the strings of ASCII, which is what the properties
    below assume of its argument. *)
Fixpoint toLowerCase (s : string) : string :=
  match s with
  | EmptyString => EmptyString
  | String c s' => String (lowerChar c) (toLowerCase s')
  end.

Fixpoint isAscii (s : string) : bool :=
  match s with
  | EmptyString => true
  | String c s' => (nat_of_ascii c <? 128)%nat && isAscii s'
  end.

(** [parseInt(s, 16)]: a [0x] may follow the sign. *)
Definition parseInt16 (s : string) : option Z :=
  let (sign, r) := stripSign (trimStart s) in
  match r with
  | String "0" (String "x" r') | String "0" (String "X" r') =>
      option_map (Z.mul sign) (parseDigits 16 r')
  | _ => option_map (Z.mul sign) (parseDigits 16 r)
  end.

(** [n.toString(16)] for an integer. *)
Definition toString16 (n : Z) : string :=
  HexadecimalString.NilZero.string_of_int (Z.to_hex_int n).

(** A character that [[a-f\d]] matches under the flag [i]. *)
Definition isHexDigit (c : ascii) : bool :=
  let n := Z.of_nat (nat_of_ascii c) in
  ((48 <=? n) && (n <=? 57)) || ((97 <=? n) && (n <=? 102)) || ((65 <=? n) && (n <=? 70)).

(** *** An object literal used as a table *)

(** The names of the members of [Object.prototype], which an object literal
    inherits. *)
Definition objectPrototype : list string :=
  ["constructor"; "__defineGetter__"; "__defineSetter__"; "hasOwnProperty";
   "__lookupGetter__"; "__lookupSetter__"; "isPrototypeOf"; "propertyIsEnumerable";
   "toString"; "valueOf"; "__proto__"; "toLocaleString"].

(** What [table[key]] is when the values of the literal are strings: the
    string under the key, a member inherited from [Object.prototype] (a
    function or an object, given by its name), or [undefined]. *)
Inductive member : Type :=
| Own (value : string)
| Inherited (name : string)
| Undefined.

Fixpoint own (key : string) (table : list (string * string)) : option string :=
  match table with
  | [] => None
  | (k, v) :: rest => if (k =? key)%string then Some v else own key rest
  end.

Definition lookup (table : list (string * string)) (key : string) : member :=
  match own key table with
  | Some v => Own v
  | None => if existsb (String.eqb key) objectPrototype then Inherited key else Undefined
  end.

(** [table[key] || fallback]: an inherited member is truthy. *)
Definition lookupOr (table : list (string * string)) (key fallback : string) : member :=
  match lookup table key with
  | Own v => if (v =? "")%string then Own fallback else Own v
  | Inherited name => Inherited name
  | Undefined => Own fallback
  end.

(** *** Numbers that may be [NaN] *)

(** A number that is an integer or [NaN]. *)
Inductive number : Type :=
| NaN
| Int (n : Z).

(** [a + b] *)
Definition add (a b : number) : number :=
  match a, b with
  | Int x, Int y => Int (x + y)
  | _, _ => NaN
  end.

(** [a - b] *)
Definition sub (a b : number) : number :=
  match a, b with
  | Int x, Int y => Int (x - y)
  | _, _ => NaN
  end.

(** [Math.max(a, b)]: [NaN] as soon as one of the two is. *)
Definition max (a b : number) : number :=
  match a, b with
  | Int x, Int y => Int (Z.max x y)
  | _, _ => NaN
  end.

(** [a <= b]: false as soon as one of the two is [NaN]. *)
Definition leb (a b : number) : bool :=
  match a, b with
  | Int x, Int y => x <=? y
  | _, _ => false
  end.

(** The number [parseInt] returns. *)
Definition ofParsed (v : option Z) : number :=
  match v with
  | Some n => Int n
  | None => NaN
  end.

End JS.

(** ** The tree built by fast-xml-parser *)

(** Attributes are fields whose key starts with [@_]; a repeated element is
    an array; an element with text only is a string (a number or a boolean
    when the text reads as one); an empty element is the empty string. *)
Inductive xml : Type :=
| XStr (s : string)
| XNum (n : Z)
| XBool (b : bool)
| XObj (fields : list (string * xml))
| XArr (items : list xml).

(** A value that may be [undefined] or [null]. *)
Definition any : Type := option xml.

Definition undefined : any := None.

(** JavaScript truthiness. *)
Definition truthy_xml (v : xml) : bool :=
  match v with
  | XStr s => negb (s =? "")%string
  | XNum n => negb (n =? 0)
  | XBool b => b
  | XObj _ | XArr _ => true
  end.

Definition truthy (v : any) : bool :=
  match v with
  | None => false
  | Some x => truthy_xml x
  end.

(** The first field named [k]. *)
Fixpoint assoc (k : string) (fields : list (string * xml)) : any :=
  match fields with
  | [] => None
  | (k', v) :: rest => if (k' =? k)%string then Some v else assoc k rest
  end.

(** [e[k]] on a value that is neither [undefined] nor [null]. The keys the
    program reads are names of XML elements and attributes, which no string,
    number, boolean or array has as a property. *)
Definition prop (e : xml) (k : string) : any :=
  match e with
  | XObj fields => assoc k fields
  | _ => None
  end.

(** [a ?? b] *)
Definition nullish (a b : any) : any :=
  match a with
  | Some _ => a
  | None => b
  end.

(** [a || b] *)
Definition or_else (a : any) (b : xml) : xml :=
  match a with
  | Some x => if truthy_xml x then x else b
  | None => b
  end.

(** [String(v)], as a template literal and [parseInt] convert a value. *)
Fixpoint toString (v : xml) : string :=
  match v with
  | XStr s => s
  | XNum n => JS.numberToString n
  | XBool true => "true"
  | XBool false => "false"
  | XObj _ => "[object Object]"
  | XArr items => JS.join "," (map toString items)
  end.

(** ** xml-parser.ts *)

Module XMLParser.

(** [ensureArray(value)] *)
Definition ensureArray (value : any) : list xml :=
  match value with
  | None => []
  | Some v =>
      if negb (truthy_xml v) then []
      else match v with
           | XArr items => items
           | _ => [v]
           end
  end.

(** [name.includes(':') ? name.split(':')[1] : name] *)
Definition localNameOf (name : string) : string :=
  if JS.includes name ":" then nth 1 (JS.split ":" name) "" else name.

(** [getAttr(element, name, defaultValue)] *)
Definition getAttr (element : any) (name : string) (defaultValue : any) : any :=
  match element with
  | None => defaultValue
  | Some e =>
      if negb (truthy_xml e) then defaultValue
      else
        let value := nullish (prop e ("@_" ++ name)) (prop e name) in
        match value with
        | None =>
            let shortName := localNameOf name in
            nullish (nullish (prop e ("@_" ++ shortName)) (prop e shortName)) defaultValue
        | Some _ => value
        end
  end.

Definition namespaces : list string :=
  ["a:"; "p:"; "r:"; "c:"; "dgm:"; "mc:"; "w:"; "wp:"; ""].

(** The names [getChild] leaves as one-element arrays. *)
Definition arrayElements : list string :=
  ["p"; "r"; "t"; "br"; "fld"; "gs"; "lin"; "tc"; "sp"; "pic";
   "graphicFrame"; "grpSp"; "cxnSp"].

(** The loop over the prefixes: the first prefixed name that is defined. *)
Fixpoint firstPrefixed (e : xml) (localName : string) (nss : list string) : any :=
  match nss with
  | [] => None
  | ns :: rest =>
      match prop e (ns ++ localName) with
      | Some r => Some r
      | None => firstPrefixed e localName rest
      end
  end.

(** [getChild(element, name)] *)
Definition getChild (element : any) (name : string) : any :=
  match element with
  | None => None
  | Some e =>
      if negb (truthy_xml e) then None
      else
        let result :=
          match prop e name with
          | Some r => Some r
          | None => firstPrefixed e (localNameOf name) namespaces
          end in
        match result with
        | Some (XArr [single]) =>
            if existsb (String.eqb (localNameOf name)) arrayElements
            then result
            else Some single
        | _ => result
        end
  end.

Inductive ColorType : Type := rgb | scheme | preset | hsl | system.

(** The [value] of a parsed color: a string, or the template
    [hsl(${hue / 60000}, ${sat / 1000}%, ${lum / 1000}%)] kept with the three
    integers read by [parseInt] (its text needs floating-point printing). *)
Inductive ColorValue : Type :=
| Text (s : string)
| HslText (hue sat lum : option Z).

(** The object [parseColor] returns; each modifier is [None] when
    [undefined], [Some None] when [NaN]. *)
Record ParsedColor : Type := mkColor {
  type : ColorType;
  value : ColorValue;
  alpha : option (option Z);
  lumMod : option (option Z);
  lumOff : option (option Z);
  satMod : option (option Z);
  shade : option (option Z);
  tint : option (option Z)
}.

(** [parseColorModifier(colorElement, modifierName)] *)
Definition parseColorModifier (colorElement : any) (modifierName : string)
  : option (option Z) :=
  let modifier := getChild colorElement modifierName in
  if negb (truthy modifier) then None
  else
    let val := getAttr modifier "val" undefined in
    match val with
    | None => None
    | Some v =>
        if negb (truthy_xml v) then None
        else Some (JS.parseInt10 (toString v))
    end.

(** The object literal [{ type, value, ...parseModifiers(clrElement) }]. *)
Definition withModifiers (t : ColorType) (v : ColorValue) (clrElement : any)
  : ParsedColor :=
  {| type := t;
     value := v;
     alpha := parseColorModifier clrElement "alpha";
     lumMod := parseColorModifier clrElement "lumMod";
     lumOff := parseColorModifier clrElement "lumOff";
     satMod := parseColorModifier clrElement "satMod";
     shade := parseColorModifier clrElement "shade";
     tint := parseColorModifier clrElement "tint" |}.

(** [getAttr(e, name) || fallback], converted to a string. *)
Definition attrOr (e : any) (name fallback : string) : string :=
  toString (or_else (getAttr e name undefined) (XStr fallback)).

(** The color child [parseColor] reads: of [srgbClr], [schemeClr],
    [prstClr], [hslClr] and [sysClr], the first that is present. *)
Definition colorChild (colorElement : any) : any :=
  let present name := truthy (getChild colorElement name) in
  if negb (truthy colorElement) then None
  else if present "srgbClr" then getChild colorElement "srgbClr"
  else if present "schemeClr" then getChild colorElement "schemeClr"
  else if present "prstClr" then getChild colorElement "prstClr"
  else if present "hslClr" then getChild colorElement "hslClr"
  else if present "sysClr" then getChild colorElement "sysClr"
  else None.

Definition colorNames : list string :=
  ["srgbClr"; "schemeClr"; "prstClr"; "hslClr"; "sysClr"].

Definition modifierNames : list string :=
  ["alpha"; "lumMod"; "lumOff"; "satMod"; "shade"; "tint"].

(** [color[name]] for the name of a modifier. *)
Definition modifierOf (c : ParsedColor) (name : string) : option (option Z) :=
  if (name =? "alpha")%string then c.(alpha)
  else if (name =? "lumMod")%string then c.(lumMod)
  else if (name =? "lumOff")%string then c.(lumOff)
  else if (name =? "satMod")%string then c.(satMod)
  else if (name =? "shade")%string then c.(shade)
  else if (name =? "tint")%string then c.(tint)
  else None.

(** [parseColor(colorElement)]; [None] is [null]. *)
Definition parseColor (colorElement : any) : option ParsedColor :=
  if negb (truthy colorElement) then None
  else
    let srgbClr := getChild colorElement "srgbClr" in
    if truthy srgbClr then
      Some (withModifiers rgb (Text ("#" ++ attrOr srgbClr "val" "000000")) srgbClr)
    else
    let schemeClr := getChild colorElement "schemeClr" in
    if truthy schemeClr then
      Some (withModifiers scheme (Text (attrOr schemeClr "val" "tx1")) schemeClr)
    else
    let prstClr := getChild colorElement "prstClr" in
    if truthy prstClr then
      Some (withModifiers preset (Text (attrOr prstClr "val" "black")) prstClr)
    else
    let hslClr := getChild colorElement "hslClr" in
    if truthy hslClr then
      let hue := attrOr hslClr "hue" "0" in
      let sat := attrOr hslClr "sat" "0" in
      let lum := attrOr hslClr "lum" "0" in
      Some (withModifiers hsl
              (HslText (JS.parseInt hue) (JS.parseInt sat) (JS.parseInt lum)) hslClr)
    else
    let sysClr := getChild colorElement "sysClr" in
    if truthy sysClr then
      let lastClr := getAttr sysClr "lastClr" undefined in
      if truthy lastClr then
        Some (withModifiers rgb
                (Text ("#" ++ match lastClr with Some v => toString v | None => "" end))
                sysClr)
      else
        Some (withModifiers system (Text (attrOr sysClr "val" "windowText")) sysClr)
    else None.

(** [getText(element)] for a value that is neither [undefined] nor [null]. *)
Fixpoint textOf (e : xml) : string :=
  match e with
  | XStr s => s
  | XArr items => JS.join "" (map textOf items)
  | XObj fields =>
      match assoc "#text" fields with
      | Some text => toString text
      | None => ""
      end
  | XNum _ | XBool _ => ""
  end.

(** [getText(element)] *)
Definition getText (element : any) : string :=
  match element with
  | None => ""
  | Some e => textOf e
  end.

(** [parseBoolean(value, defaultValue)] *)
Definition parseBoolean (value : any) (defaultValue : bool) : bool :=
  match value with
  | None => defaultValue
  | Some (XBool b) => b
  | Some (XStr s) => (s =? "true")%string || (s =? "1")%string || (s =? "on")%string
  | Some _ => false
  end.

(** The values of an array and of the arrays in it, in order. *)
Fixpoint valuesOf (e : xml) : list xml :=
  match e with
  | XArr items => flat_map valuesOf items
  | _ => [e]
  end.

(** [Array.isArray(e)] *)
Definition isArray (e : xml) : bool :=
  match e with
  | XArr _ => true
  | _ => false
  end.

End XMLParser.

(** ** [Map]: entries in insertion order *)

Module JsMap.

Section WithKey.

Context {K V : Type} (same : K -> K -> bool).

(** [m.get(k)] *)
Fixpoint get (m : list (K * V)) (k : K) : option V :=
  match m with
  | [] => None
  | (k', v) :: rest => if same k' k then Some v else get rest k
  end.

(** [m.has(k)] *)
Fixpoint has (m : list (K * V)) (k : K) : bool :=
  match m with
  | [] => false
  | (k', _) :: rest => same k' k || has rest k
  end.

(** [m.set(k, v)]: a key already there keeps its place and takes the new
    value, a new key goes to the end. *)
Fixpoint set (m : list (K * V)) (k : K) (v : V) : list (K * V) :=
  match m with
  | [] => [(k, v)]
  | (k', v') :: rest =>
      if same k' k then (k', v) :: rest else (k', v') :: set rest k v
  end.

End WithKey.

(** How a [Map] compares keys (SameValueZero): strings, numbers and booleans
    by value; an object or an array only equals itself, and the values the
    embedded code uses as keys are read from different elements of the tree,
    so two of them are never the same object. *)
Definition sameValueZero (a b : xml) : bool :=
  match a, b with
  | XStr s, XStr t => (s =? t)%string
  | XNum n, XNum m => (n =? m)%Z
  | XBool x, XBool y => Bool.eqb x y
  | _, _ => false
  end.

End JsMap.

(** ** relationship-parser.ts *)

Module RelationshipParser.

(** [{ target, type }] *)
Record Relationship : Type := mkRel {
  target : xml;
  type : xml
}.

(** [Map<string, { target: string; type: string }>] *)
Definition Relationships : Type := list (xml * Relationship).

Definition get (m : Relationships) (k : xml) : option Relationship :=
  JsMap.get JsMap.sameValueZero m k.

Definition set (m : Relationships) (k : xml) (v : Relationship) : Relationships :=
  JsMap.set JsMap.sameValueZero m k v.

(** The body of the loop over [relList]. *)
Definition addRelationship (relationships : Relationships) (rel : xml) : Relationships :=
  let id := XMLParser.getAttr (Some rel) "Id" undefined in
  let type := or_else (XMLParser.getAttr (Some rel) "Type" undefined) (XStr "") in
  let target := or_else (XMLParser.getAttr (Some rel) "Target" undefined) (XStr "") in
  match id with
  | Some i => if truthy_xml i then set relationships i (mkRel target type) else relationships
  | None => relationships
  end.

(** The [Id] of a [Relationship] element, and the entry made of it. *)
Definition idOf (rel : xml) : any := XMLParser.getAttr (Some rel) "Id" undefined.

Definition entryOf (rel : xml) : Relationship :=
  mkRel (or_else (XMLParser.getAttr (Some rel) "Target" undefined) (XStr ""))
        (or_else (XMLParser.getAttr (Some rel) "Type" undefined) (XStr "")).

(** The elements that have an [Id] (one that is not empty), each as its
    [Id] and its entry, in the order of the document. *)
Definition withId (rels : list xml) : list (xml * Relationship) :=
  flat_map (fun rel =>
              match idOf rel with
              | Some i => if truthy_xml i then [(i, entryOf rel)] else []
              | None => []
              end) rels.

(** No two entries have the same key. *)
Fixpoint distinctKeys (entries : list (xml * Relationship)) : Prop :=
  match entries with
  | [] => True
  | (k, _) :: rest =>
      Forall (fun e => JsMap.sameValueZero k (fst e) = false) rest /\ distinctKeys rest
  end.

(** [xml.Relationships.Relationship] as a list: empty when [xml] or
    [xml.Relationships] is falsy. *)
Definition relList (doc : any) : list xml :=
  match doc with
  | None => []
  | Some d =>
      if negb (truthy_xml d) then []
      else
        let rels := prop d "Relationships" in
        match rels with
        | None => []
        | Some r =>
            if negb (truthy_xml r) then []
            else XMLParser.ensureArray (prop r "Relationship")
        end
  end.

(** [parse(xml, basePath)] *)
Definition parse (doc : any) (basePath : string) : Relationships :=
  fold_left addRelationship (relList doc) [].

(** The map after the entries are set one after the other. *)
Definition setAll (m : Relationships) (entries : list (xml * Relationship)) : Relationships :=
  fold_left (fun acc e => set acc (fst e) (snd e)) entries m.

(** [RelationshipInfo] *)
Record RelationshipInfo : Type := mkInfo {
  info_id : xml;
  info_type : xml;
  info_target : xml;
  targetMode : any
}.

(** The body of the loop of [parseToArray]: what it pushes. *)
Definition infoOf (rel : xml) : list RelationshipInfo :=
  let id := XMLParser.getAttr (Some rel) "Id" undefined in
  let type := or_else (XMLParser.getAttr (Some rel) "Type" undefined) (XStr "") in
  let target := or_else (XMLParser.getAttr (Some rel) "Target" undefined) (XStr "") in
  let targetMode := XMLParser.getAttr (Some rel) "TargetMode" undefined in
  match id with
  | Some i => if truthy_xml i then [mkInfo i type target targetMode] else []
  | None => []
  end.

(** [parseToArray(xml)] *)
Definition parseToArray (doc : any) : list RelationshipInfo :=
  fold_left (fun relationships rel => relationships ++ infoOf rel) (relList doc) [].

(** [getById(relationships, id)] *)
Definition getById (relationships : Relationships) (id : xml) : option Relationship :=
  get relationships id.

(** [isExternal(rel)] *)
Definition isExternal (rel : RelationshipInfo) : bool :=
  match rel.(targetMode) with
  | Some (XStr mode) => (mode =? "External")%string
  | _ => false
  end.

(** [getShortType(fullType)] *)
Definition getShortType (fullType : string) : string :=
  let parts := JS.split "/" fullType in
  let short := last parts "" in
  if (short =? "")%string then fullType else short.

(** [relType === type || relType.includes(type)] for the type of an entry:
    a string has the [includes] of strings, an array that of arrays; a
    number, a boolean or an object has none, and the call throws a
    [TypeError], which is [None]. *)
Definition matchesType (relType : xml) (type : string) : option bool :=
  match relType with
  | XStr s => Some ((s =? type)%string || JS.includes s type)
  | XArr items =>
      Some (existsb (fun x => match x with
                              | XStr s => (s =? type)%string
                              | _ => false
                              end) items)
  | XNum _ | XBool _ | XObj _ => None
  end.

(** [getByType(relationships, type)]: the [{ id, target }] pushed, in the
    order of the map; [None] when the loop throws. *)
Fixpoint getByType (relationships : Relationships) (type : string)
  : option (list (xml * xml)) :=
  match relationships with
  | [] => Some []
  | (id, mkRel relTarget relType) :: rest =>
      match matchesType relType type with
      | None => None
      | Some found =>
          option_map (fun results => if found then (id, relTarget) :: results else results)
                     (getByType rest type)
      end
  end.

(** The entry [parse] makes of what [parseToArray] lists. *)
Definition entryOfInfo (info : RelationshipInfo) : xml * Relationship :=
  (info.(info_id), mkRel info.(info_target) info.(info_type)).

End RelationshipParser.

(** ** color-resolver.ts: the default palette *)

Module ColorResolver.

(** [DEFAULT_THEME_COLORS] *)
Definition DEFAULT_THEME_COLORS : list (string * string) :=
  [ ("dk1", "#000000"); ("lt1", "#FFFFFF"); ("dk2", "#1F497D"); ("lt2", "#EEECE1");
    ("accent1", "#4472C4"); ("accent2", "#ED7D31"); ("accent3", "#A5A5A5");
    ("accent4", "#FFC000"); ("accent5", "#5B9BD5"); ("accent6", "#70AD47");
    ("hlink", "#0563C1"); ("folHlink", "#954F72");
    ("bg1", "#FFFFFF"); ("bg2", "#EEECE1"); ("tx1", "#000000"); ("tx2", "#1F497D") ].

(** [DEFAULT_THEME_COLORS[name]] *)
Fixpoint lookup (name : string) (table : list (string * string)) : option string :=
  match table with
  | [] => None
  | (k, v) :: rest => if (k =? name)%string then Some v else lookup name rest
  end.

(** [{ r, g, b }] *)
Record Rgb : Type := mkRgb { r : Z; g : Z; b : Z }.

(** [hexToRgb(hex)]: the expression
    [/^#?([a-f\d]{2})([a-f\d]{2})([a-f\d]{2})$/i] matches six hexadecimal
    digits after an optional [#]; [None] is [null]. *)
Definition hexToRgb (hex : string) : option Rgb :=
  let digits := match hex with String "#" rest => rest | _ => hex end in
  match digits with
  | String r1 (String r2 (String g1 (String g2 (String b1 (String b2 EmptyString))))) =>
      if forallb JS.isHexDigit [r1; r2; g1; g2; b1; b2]
      then
        match JS.parseInt16 (String r1 (String r2 EmptyString)),
              JS.parseInt16 (String g1 (String g2 EmptyString)),
              JS.parseInt16 (String b1 (String b2 EmptyString)) with
        | Some r, Some g, Some b => Some (mkRgb r g b)
        | _, _, _ => None
        end
      else None
  | _ => None
  end.

(** [Math.max(0, Math.min(255, n))] *)
Definition clamp (n : Z) : Z := Z.max 0 (Z.min 255 n).

(** The local function [toHex] of [rgbToHex]; [Math.round] leaves an
    integer as it is. *)
Definition toHex (n : Z) : string :=
  let hex := JS.toString16 (clamp n) in
  if (String.length hex =? 1)%nat then ("0" ++ hex)%string else hex.

(** [rgbToHex(r, g, b)] *)
Definition rgbToHex (r g b : Z) : string :=
  ("#" ++ toHex r ++ toHex g ++ toHex b)%string.

(** The numbers of a byte, and the characters of a string. *)
Definition bytes : list Z := map Z.of_nat (seq 0 256).

Definition allAscii : list ascii := map ascii_of_nat (seq 0 256).

(** [toHex] writes the byte [n] as two digits that read as [n]. *)
Definition twoDigits (n : Z) : bool :=
  match toHex n with
  | String c1 (String c2 EmptyString) =>
      JS.isHexDigit c1 && JS.isHexDigit c2
      && match JS.parseInt16 (String c1 (String c2 EmptyString)) with
         | Some v => v =? n
         | None => false
         end
  | _ => false
  end.

(** Two hexadecimal digits read as a byte, which [toHex] writes back in
    lower case. *)
Definition readsBack (c1 c2 : ascii) : bool :=
  implb (JS.isHexDigit c1 && JS.isHexDigit c2)
    match JS.parseInt16 (String c1 (String c2 EmptyString)) with
    | Some v =>
        (0 <=? v) && (v <=? 255)
        && (toHex v =? String (JS.lowerChar c1) (String (JS.lowerChar c2) EmptyString))%string
    | None => false
    end.

End ColorResolver.

(** ** theme-parser.ts *)

Module ThemeParser.

Import XMLParser.

(** [Color]: the object [parseThemeColor] builds has the keys [type], [value]
    and [alpha] only. *)
Definition Color : Type := ParsedColor.

Definition themeColor (t : ColorType) (v : ColorValue) (a : option (option Z)) : Color :=
  {| type := t; value := v; alpha := a;
     lumMod := None; lumOff := None; satMod := None; shade := None; tint := None |}.

(** [ColorScheme['colors']] *)
Record Colors : Type := mkColors {
  dk1 : Color; lt1 : Color; dk2 : Color; lt2 : Color;
  accent1 : Color; accent2 : Color; accent3 : Color;
  accent4 : Color; accent5 : Color; accent6 : Color;
  hlink : Color; folHlink : Color
}.

Record ColorScheme : Type := mkColorScheme {
  name : xml;
  colors : Colors
}.

(** The local function [parseThemeColor] of [parseColorScheme]. *)
Definition parseThemeColor (clrScheme : any) (slot : string) : Color :=
  let element := getChild clrScheme slot in
  match parseColor element with
  | Some color => themeColor color.(type) color.(value) color.(alpha)
  | None => themeColor rgb (Text "#000000") None
  end.

(** [parseColorScheme(clrScheme)] *)
Definition parseColorScheme (clrScheme : any) : ColorScheme :=
  {| name := or_else (getAttr clrScheme "name" undefined) (XStr "Default");
     colors :=
       {| dk1 := parseThemeColor clrScheme "dk1";
          lt1 := parseThemeColor clrScheme "lt1";
          dk2 := parseThemeColor clrScheme "dk2";
          lt2 := parseThemeColor clrScheme "lt2";
          accent1 := parseThemeColor clrScheme "accent1";
          accent2 := parseThemeColor clrScheme "accent2";
          accent3 := parseThemeColor clrScheme "accent3";
          accent4 := parseThemeColor clrScheme "accent4";
          accent5 := parseThemeColor clrScheme "accent5";
          accent6 := parseThemeColor clrScheme "accent6";
          hlink := parseThemeColor clrScheme "hlink";
          folHlink := parseThemeColor clrScheme "folHlink" |} |}.

(** The twelve slots, and how a slot is read from [colors]. *)
Inductive Slot : Type :=
| Sdk1 | Slt1 | Sdk2 | Slt2
| Saccent1 | Saccent2 | Saccent3 | Saccent4 | Saccent5 | Saccent6
| Shlink | SfolHlink.

Definition slots : list Slot :=
  [Sdk1; Slt1; Sdk2; Slt2; Saccent1; Saccent2; Saccent3; Saccent4; Saccent5;
   Saccent6; Shlink; SfolHlink].

Definition slotName (s : Slot) : string :=
  match s with
  | Sdk1 => "dk1" | Slt1 => "lt1" | Sdk2 => "dk2" | Slt2 => "lt2"
  | Saccent1 => "accent1" | Saccent2 => "accent2" | Saccent3 => "accent3"
  | Saccent4 => "accent4" | Saccent5 => "accent5" | Saccent6 => "accent6"
  | Shlink => "hlink" | SfolHlink => "folHlink"
  end.

(** [colors[slot]] *)
Definition slotColor (c : Colors) (s : Slot) : Color :=
  match s with
  | Sdk1 => c.(dk1) | Slt1 => c.(lt1) | Sdk2 => c.(dk2) | Slt2 => c.(lt2)
  | Saccent1 => c.(accent1) | Saccent2 => c.(accent2) | Saccent3 => c.(accent3)
  | Saccent4 => c.(accent4) | Saccent5 => c.(accent5) | Saccent6 => c.(accent6)
  | Shlink => c.(hlink) | SfolHlink => c.(folHlink)
  end.

(** *** The fonts of a theme *)

(** [FontProperties]; a key is [None] when it is [undefined]. *)
Record FontProperties : Type := mkFont {
  typeface : any;
  panose : any;
  pitchFamily : option Z;
  charset : option Z
}.

(** [{ script, typeface }] *)
Record SupplementalFont : Type := mkSupplemental {
  script : xml;
  sup_typeface : xml
}.

(** [FontCollection] *)
Record FontCollection : Type := mkFontCollection {
  latin : FontProperties;
  eastAsian : FontProperties;
  complexScript : FontProperties;
  supplementalFonts : option (list SupplementalFont)
}.

(** [FontScheme] *)
Record FontScheme : Type := mkFontScheme {
  fs_name : xml;
  majorFont : FontCollection;
  minorFont : FontCollection
}.

(** [parseInt(getAttr(font, name) || '0', 10) || undefined]: [NaN] and 0 are
    falsy. *)
Definition intOrUndefined (font : any) (name : string) : option Z :=
  match JS.parseInt10 (attrOr font name "0") with
  | Some n => if n =? 0 then None else Some n
  | None => None
  end.

(** [parseFontProperties(font)] *)
Definition parseFontProperties (font : any) : option FontProperties :=
  if negb (truthy font) then None
  else
    Some (mkFont (getAttr font "typeface" undefined)
                 (getAttr font "panose" undefined)
                 (intOrUndefined font "pitchFamily")
                 (intOrUndefined font "charset")).

(** [{ typeface }] *)
Definition fontNamed (name : string) : FontProperties :=
  mkFont (Some (XStr name)) None None None.

(** The body of the loop over the [font] children: what it pushes. *)
Definition supplementalOf (font : xml) : list SupplementalFont :=
  match getAttr (Some font) "script" undefined, getAttr (Some font) "typeface" undefined with
  | Some s, Some t =>
      if truthy_xml s && truthy_xml t then [mkSupplemental s t] else []
  | _, _ => []
  end.

(** [parseFontCollection(fontCollection)] *)
Definition parseFontCollection (fontCollection : any) : FontCollection :=
  let latin := getChild fontCollection "latin" in
  let ea := getChild fontCollection "ea" in
  let cs := getChild fontCollection "cs" in
  let supplementalFonts :=
    fold_left (fun acc font => acc ++ supplementalOf font)
              (ensureArray (getChild fontCollection "font")) [] in
  let orElse (parsed : option FontProperties) (fallback : FontProperties) :=
    match parsed with
    | Some properties => properties
    | None => fallback
    end in
  mkFontCollection
    (orElse (parseFontProperties latin) (fontNamed "Calibri"))
    (orElse (parseFontProperties ea) (fontNamed ""))
    (orElse (parseFontProperties cs) (fontNamed ""))
    (if (0 <? List.length supplementalFonts)%nat then Some supplementalFonts else None).

(** [parseFontScheme(fontScheme)] *)
Definition parseFontScheme (fontScheme : any) : FontScheme :=
  mkFontScheme
    (or_else (getAttr fontScheme "name" undefined) (XStr "Default"))
    (parseFontCollection (getChild fontScheme "majorFont"))
    (parseFontCollection (getChild fontScheme "minorFont")).

End ThemeParser.

(** ** media-parser: the kind of a media file *)

Module MediaParser.

Inductive MediaType : Type := image | video | audio | unknown.

(** [MediaInfo] *)
Record MediaInfo : Type := mkInfo {
  path : string;
  type : MediaType;
  mimeType : JS.member;
  extension : string
}.

(** [MediaParser.MIME_TYPES] *)
Definition MIME_TYPES : list (string * string) :=
  [ ("png", "image/png"); ("jpg", "image/jpeg"); ("jpeg", "image/jpeg");
    ("gif", "image/gif"); ("bmp", "image/bmp"); ("webp", "image/webp");
    ("svg", "image/svg+xml"); ("tiff", "image/tiff"); ("tif", "image/tiff");
    ("ico", "image/x-icon"); ("emf", "image/emf"); ("wmf", "image/wmf");
    ("mp4", "video/mp4"); ("m4v", "video/mp4"); ("mov", "video/quicktime");
    ("avi", "video/x-msvideo"); ("wmv", "video/x-ms-wmv"); ("webm", "video/webm");
    ("mkv", "video/x-matroska"); ("flv", "video/x-flv");
    ("mp3", "audio/mpeg"); ("m4a", "audio/mp4"); ("wav", "audio/wav");
    ("wma", "audio/x-ms-wma"); ("ogg", "audio/ogg"); ("flac", "audio/flac");
    ("aac", "audio/aac") ].

(** [getExtension(path)] *)
Definition getExtension (path : string) : string :=
  let parts := JS.split "." path in
  if (1 <? List.length parts)%nat then JS.toLowerCase (last parts "") else "".

(** [getMimeType(extension)] *)
Definition getMimeType (extension : string) : JS.member :=
  JS.lookupOr MIME_TYPES extension "application/octet-stream".

Definition imageExts : list string :=
  ["png"; "jpg"; "jpeg"; "gif"; "bmp"; "webp"; "svg"; "tiff"; "tif"; "ico"; "emf"; "wmf"].

Definition videoExts : list string :=
  ["mp4"; "m4v"; "mov"; "avi"; "wmv"; "webm"; "mkv"; "flv"].

Definition audioExts : list string :=
  ["mp3"; "m4a"; "wav"; "wma"; "ogg"; "flac"; "aac"].

(** [exts.includes(extension)] *)
Definition includes (exts : list string) (extension : string) : bool :=
  existsb (String.eqb extension) exts.

(** [getMediaType(extension)] *)
Definition getMediaType (extension : string) : MediaType :=
  if includes imageExts extension then image
  else if includes videoExts extension then video
  else if includes audioExts extension then audio
  else unknown.

(** [getMediaInfo(path)] *)
Definition getMediaInfo (path : string) : MediaInfo :=
  let extension := getExtension path in
  mkInfo path (getMediaType extension) (getMimeType extension) extension.

Definition isImage (path : string) : bool :=
  match getMediaType (getExtension path) with image => true | _ => false end.

Definition isVideo (path : string) : bool :=
  match getMediaType (getExtension path) with video => true | _ => false end.

Definition isAudio (path : string) : bool :=
  match getMediaType (getExtension path) with audio => true | _ => false end.

(** The family of a media type: what stands before the slash of its MIME
    types. *)
Definition familyOf (t : MediaType) : string :=
  match t with
  | image => "image" | video => "video" | audio => "audio" | unknown => "application"
  end.

End MediaParser.

(** ** pptx-parser: the lazy loader of resources *)

Module ResourceLazyLoader.

(** The table [mimeTypes] of [getMimeType]. *)
Definition mimeTypes : list (string * string) :=
  [ ("png", "image/png"); ("jpg", "image/jpeg"); ("jpeg", "image/jpeg");
    ("gif", "image/gif"); ("bmp", "image/bmp"); ("webp", "image/webp");
    ("svg", "image/svg+xml"); ("emf", "image/emf"); ("wmf", "image/wmf");
    ("tiff", "image/tiff"); ("tif", "image/tiff");
    ("mp4", "video/mp4"); ("m4v", "video/mp4"); ("mov", "video/quicktime");
    ("avi", "video/x-msvideo"); ("wmv", "video/x-ms-wmv");
    ("mp3", "audio/mpeg"); ("m4a", "audio/mp4"); ("wav", "audio/wav");
    ("wma", "audio/x-ms-wma") ].

(** [path.split('.').pop()?.toLowerCase()]: the array is never empty. *)
Definition extensionOf (path : string) : string :=
  JS.toLowerCase (last (JS.split "." path) "").

(** [getMimeType(path)]; [ext || ''] is [ext]. *)
Definition getMimeType (path : string) : JS.member :=
  JS.lookupOr mimeTypes (extensionOf path) "application/octet-stream".

(** The extensions that only the media parser knows. *)
Definition unknownHere : list string :=
  ["ico"; "webm"; "mkv"; "flv"; "ogg"; "flac"; "aac"].

End ResourceLazyLoader.

(** ** types/index.ts: the animation types *)

Module Animation.

Inductive NodeType : Type :=
| parallel | sequence | effect | set | animate | animateColor | animateMotion
| animateRotation | animateScale | command | audio | video.

(** [begin?: string | number] *)
Inductive Begin : Type :=
| BeginString (s : string)
| BeginNumber (n : Z).

(** [duration?: number | 'indefinite']; the number may be [NaN]. *)
Inductive Duration : Type :=
| DurationNumber (n : JS.number)
| indefinite.

(** [AnimationNode], with the fields the controllers read. *)
Inductive AnimationNode : Type := mkNode {
  type : NodeType;
  children : option (list AnimationNode);
  begin : option Begin;
  duration : option Duration;
  targetId : option Z
}.

(** [AnimationSequence] *)
Record AnimationSequence : Type := mkSequence {
  concurrent : bool;
  seq_children : list AnimationNode
}.

(** [SlideTiming] (the build list plays no part in what follows). *)
Record SlideTiming : Type := mkTiming {
  sequenceList : option (list AnimationSequence)
}.

End Animation.

(** ** animation-parser.ts *)

Module AnimationParser.

Import Animation.

(** What [parseCommonTimingProps] contributes to a node. *)
Record TimingProps : Type := mkTimingProps {
  tp_begin : option Begin;
  tp_duration : option Duration
}.

(** The readers of a node's properties. [parseCommonTimingProps] and
    [parseTargetElement] compute numbers that are fractions or [NaN]; the
    embedding takes them as parameters, so that what is proved about the
    order of the nodes holds whatever they return. Neither throws. *)
Class PropertyReaders : Type := {
  parseCommonTimingProps : any -> TimingProps;
  parseTargetElement : any -> option Z
}.

(** [parseDuration(dur)]: [None] is [undefined]; a text that does not begin
    with an integer gives the number [NaN]. *)
Definition parseDuration (dur : any) : option Duration :=
  match dur with
  | None => None
  | Some v =>
      if negb (truthy_xml v) then None
      else
        match v with
        | XStr "indefinite" => Some indefinite
        | _ => Some (DurationNumber (JS.ofParsed (JS.parseInt10 (toString v))))
        end
  end.

(** A run of the parser: it returns, it throws an error, or the budget of
    nested calls is used up. *)
Inductive run (A : Type) : Type :=
| Returns (a : A)
| Throws (message : string)
| Exhausted.

Arguments Returns {A} a.
Arguments Throws {A} message.
Arguments Exhausted {A}.

Definition bindRun {A B : Type} (m : run A) (k : A -> run B) : run B :=
  match m with
  | Returns a => k a
  | Throws message => Throws message
  | Exhausted => Exhausted
  end.

(** The [TypeError] of [filter.match(...)] when [filter] has no method
    [match]. *)
Definition notAFunction : string := "filter.match is not a function".

(** [parseEffectFromFilter(filter, transition)]: the effect it returns is
    not kept (no controller reads it), but the call is: on a [filter] that
    is truthy it calls [filter.match], which only a string has. *)
Definition parseEffectFromFilter (filter : any) : run unit :=
  if negb (truthy filter) then Returns tt
  else
    match filter with
    | Some (XStr _) => Returns tt
    | _ => Throws notAFunction
    end.

(** [parseEffectFromFilter] accepts the [filter] of the element: it is
    falsy, or a string. An array has the method [filter], which [getAttr]
    finds in place of an attribute. *)
Definition filterOk (e : xml) : bool :=
  match e with
  | XArr _ => false
  | _ =>
      match XMLParser.getAttr (Some e) "filter" undefined with
      | Some (XStr _) => true
      | filter => negb (truthy filter)
      end
  end.

Section Parser.

Context {readers : PropertyReaders}.

(** [parseBehaviorProps(cBhvr)]: timing properties and target id. *)
Definition parseBehaviorProps (cBhvr : any) : TimingProps * option Z :=
  if negb (truthy cBhvr) then (mkTimingProps None None, None)
  else
    let cTn := XMLParser.getChild cBhvr "cTn" in
    let tgtEl := XMLParser.getChild cBhvr "tgtEl" in
    (parseCommonTimingProps cTn, parseTargetElement tgtEl).

(** [{ type, ...parseBehaviorProps(cBhvr), ... }] for the element [e]. *)
Definition behaviorNode (t : NodeType) (e : xml) : AnimationNode :=
  let cBhvr := XMLParser.getChild (Some e) "cBhvr" in
  let '(tp, target) := parseBehaviorProps cBhvr in
  mkNode t None tp.(tp_begin) tp.(tp_duration) target.

Definition parseSetNode (e : xml) : option AnimationNode := Some (behaviorNode set e).
Definition parseAnimateNode (e : xml) : option AnimationNode := Some (behaviorNode animate e).
Definition parseAnimColorNode (e : xml) : option AnimationNode := Some (behaviorNode animateColor e).
Definition parseAnimMotionNode (e : xml) : option AnimationNode := Some (behaviorNode animateMotion e).
Definition parseAnimRotationNode (e : xml) : option AnimationNode := Some (behaviorNode animateRotation e).
Definition parseAnimScaleNode (e : xml) : option AnimationNode := Some (behaviorNode animateScale e).

(** [{ type, ...parseCommonTimingProps(cTn), ...parseTargetElement(tgtEl) }] *)
Definition mediaNode (t : NodeType) (e : xml) : AnimationNode :=
  let cMediaNode := XMLParser.getChild (Some e) "cMediaNode" in
  let cTn := XMLParser.getChild cMediaNode "cTn" in
  let tgtEl := XMLParser.getChild cMediaNode "tgtEl" in
  let tp := parseCommonTimingProps cTn in
  mkNode t None tp.(tp_begin) tp.(tp_duration) (parseTargetElement tgtEl).

Definition parseAudioNode (e : xml) : option AnimationNode := Some (mediaNode audio e).
Definition parseVideoNode (e : xml) : option AnimationNode := Some (mediaNode video e).

(** [parseAnimEffectNode(animEffect)]: the node, unless
    [parseEffectFromFilter] throws. On an array, [getAttr(animEffect,
    'filter')] is the method [filter] of arrays, a function, which has no
    method [match]. *)
Definition parseAnimEffectNode (e : xml) : run (option AnimationNode) :=
  let node := behaviorNode effect e in
  match e with
  | XArr _ => Throws notAFunction
  | _ =>
      let filter := XMLParser.getAttr (Some e) "filter" undefined in
      bindRun (parseEffectFromFilter filter) (fun _ => Returns (Some node))
  end.

(** [parseSequenceNode] and [parseParNode]: a node of type [t] whose children
    are read by [parseChildTnLst]; [Returns None] is [null] (no [cTn]). *)
Definition groupNode (parseChildTnLst : any -> run (list AnimationNode))
  (t : NodeType) (e : xml) : run (option AnimationNode) :=
  let cTn := XMLParser.getChild (Some e) "cTn" in
  if negb (truthy cTn) then Returns None
  else
    let childTnLst := XMLParser.getChild cTn "childTnLst" in
    bindRun (if truthy childTnLst then parseChildTnLst childTnLst else Returns [])
      (fun children =>
         let tp := parseCommonTimingProps cTn in
         Returns (Some (mkNode t (Some children) tp.(tp_begin) tp.(tp_duration) None))).

(** [for (const x of items) { const node = parseOne(x); if (node) nodes.push(node) }] *)
Fixpoint drain (parseOne : xml -> run (option AnimationNode)) (items : list xml)
  (nodes : list AnimationNode) : run (list AnimationNode) :=
  match items with
  | [] => Returns nodes
  | x :: rest =>
      bindRun (parseOne x) (fun node =>
        match node with
        | None => drain parseOne rest nodes
        | Some node => drain parseOne rest (nodes ++ [node])
        end)
  end.

(** The children of [childTnLst] named [name], as a list. *)
Definition childrenNamed (childTnLst : any) (name : string) : list xml :=
  XMLParser.ensureArray (XMLParser.getChild childTnLst name).

(** The body of [parseChildTnLst], with [self] for the recursive calls. *)
Definition parseChildTnLst_body (self : any -> run (list AnimationNode))
  (childTnLst : any) : run (list AnimationNode) :=
  let leaf (f : xml -> option AnimationNode) (x : xml) : run (option AnimationNode) :=
    Returns (f x) in
  bindRun (drain (groupNode self sequence) (childrenNamed childTnLst "seq") []) (fun nodes =>
  bindRun (drain (groupNode self parallel) (childrenNamed childTnLst "par") nodes) (fun nodes =>
  bindRun (drain (leaf parseSetNode) (childrenNamed childTnLst "set") nodes) (fun nodes =>
  bindRun (drain (leaf parseAnimateNode) (childrenNamed childTnLst "anim") nodes) (fun nodes =>
  bindRun (drain parseAnimEffectNode (childrenNamed childTnLst "animEffect") nodes) (fun nodes =>
  bindRun (drain (leaf parseAnimColorNode) (childrenNamed childTnLst "animClr") nodes) (fun nodes =>
  bindRun (drain (leaf parseAnimMotionNode) (childrenNamed childTnLst "animMotion") nodes) (fun nodes =>
  bindRun (drain (leaf parseAnimRotationNode) (childrenNamed childTnLst "animRot") nodes) (fun nodes =>
  bindRun (drain (leaf parseAnimScaleNode) (childrenNamed childTnLst "animScale") nodes) (fun nodes =>
  bindRun (drain (leaf parseAudioNode) (childrenNamed childTnLst "audio") nodes) (fun nodes =>
  drain (leaf parseVideoNode) (childrenNamed childTnLst "video") nodes)))))))))).

(** [parseChildTnLst(childTnLst)], by recursion on a budget of nested calls. *)
Fixpoint parseChildTnLst (fuel : nat) (childTnLst : any) : run (list AnimationNode) :=
  match fuel with
  | O => Exhausted
  | S fuel' => parseChildTnLst_body (parseChildTnLst fuel') childTnLst
  end.

Definition parseSequenceNode (fuel : nat) : xml -> run (option AnimationNode) :=
  groupNode (parseChildTnLst fuel) sequence.

Definition parseParNode (fuel : nat) : xml -> run (option AnimationNode) :=
  groupNode (parseChildTnLst fuel) parallel.

End Parser.

(** What makes the parser throw is an [animEffect] it reaches whose [filter]
    [parseEffectFromFilter] does not accept. A group has none when its
    [childTnLst], if it has one, has none. *)
Definition groupOk (self : any -> bool) (e : xml) : bool :=
  let cTn := XMLParser.getChild (Some e) "cTn" in
  negb (truthy cTn)
  || (let childTnLst := XMLParser.getChild cTn "childTnLst" in
      negb (truthy childTnLst) || self childTnLst).

(** No [animEffect] that [parseChildTnLst] reaches, within the budget, has a
    [filter] that makes it throw. *)
Fixpoint effectsOk (fuel : nat) (childTnLst : any) : bool :=
  match fuel with
  | O => true
  | S fuel' =>
      forallb (groupOk (effectsOk fuel')) (childrenNamed childTnLst "seq")
      && forallb (groupOk (effectsOk fuel')) (childrenNamed childTnLst "par")
      && forallb filterOk (childrenNamed childTnLst "animEffect")
  end.

(** The outcome of a run is settled by [ok]: the run returns when [ok]
    holds, throws the [TypeError] of [filter.match] when it does not, and
    has budget enough. *)
Definition settled {A : Type} (outcome : run A) (ok : bool) : Prop :=
  match outcome with
  | Returns _ => ok = true
  | Throws message => ok = false /\ message = notAFunction
  | Exhausted => False
  end.

(** The same for [parseTiming]. *)
Definition timingOk (fuel : nat) (timing : any) : bool :=
  let tnLst := XMLParser.getChild timing "tnLst" in
  negb (truthy tnLst)
  || forallb (groupOk (effectsOk fuel)) (childrenNamed tnLst "par").

(** The nesting depth of a tree: a budget above it is enough. *)
Fixpoint depth (v : xml) : nat :=
  match v with
  | XObj fields => S (fold_right (fun kv acc => Nat.max (depth (snd kv)) acc) O fields)
  | XArr items => S (fold_right (fun x acc => Nat.max (depth x) acc) O items)
  | _ => O
  end.

Definition depthOf (v : any) : nat :=
  match v with
  | None => O
  | Some x => depth x
  end.

(** The place of a node type in the order of the eleven blocks. *)
Definition rank (t : NodeType) : nat :=
  match t with
  | sequence => 0 | parallel => 1 | set => 2 | animate => 3 | effect => 4
  | animateColor => 5 | animateMotion => 6 | animateRotation => 7
  | animateScale => 8 | audio => 9 | video => 10 | command => 11
  end%nat.

(** The order of the kinds, on nodes. *)
Definition rankOf (n : AnimationNode) : nat := rank n.(type).

Definition byRank (a b : AnimationNode) : Prop := (rankOf a <= rankOf b)%nat.

(** [rest] is in the order of the kinds and starts at kind [r] or later. *)
Definition sortedFrom (r : nat) (rest : list AnimationNode) : Prop :=
  StronglySorted byRank rest /\ Forall (fun n => (r <= rankOf n)%nat) rest.

(** *** The timing of a slide *)

(** [AnimationBuild]; a number is [None] when it is [NaN], a key is [None]
    when the object does not have it. *)
Record AnimationBuild : Type := mkBuild {
  spId : option Z;
  grpId : option (option Z);
  animBg : option bool;
  autoRev : option bool
}.

(** [parseInt(getAttr(e, name) || '0', 10)] *)
Definition intAttr (e : xml) (name : string) : option Z :=
  JS.parseInt10 (XMLParser.attrOr (Some e) name "0").

(** [parseBoolean(getAttr(e, name))] *)
Definition boolAttr (e : xml) (name : string) : bool :=
  XMLParser.parseBoolean (XMLParser.getAttr (Some e) name undefined) false.

(** The object pushed for a [bldP], and for a [bldDgm] or a [bldChart]. *)
Definition paragraphBuild (bldP : xml) : AnimationBuild :=
  mkBuild (intAttr bldP "spId") (Some (intAttr bldP "grpId"))
          (Some (boolAttr bldP "animBg")) (Some (boolAttr bldP "autoUpdateAnimBg")).

Definition shapeBuild (e : xml) : AnimationBuild :=
  mkBuild (intAttr e "spId") None None None.

(** [for (const x of items) builds.push(build(x))] *)
Definition pushAll (build : xml -> AnimationBuild) (items : list xml)
  (builds : list AnimationBuild) : list AnimationBuild :=
  fold_left (fun acc x => acc ++ [build x]) items builds.

(** [parseBuildList(bldLst)] *)
Definition parseBuildList (bldLst : any) : list AnimationBuild :=
  let builds := pushAll paragraphBuild (childrenNamed bldLst "bldP") [] in
  let builds := pushAll shapeBuild (childrenNamed bldLst "bldDgm") builds in
  pushAll shapeBuild (childrenNamed bldLst "bldChart") builds.

Section Timing.

Context {readers : PropertyReaders}.

(** [parseParallelNode(par)]; [Returns None] is [null]. *)
Definition parseParallelNode (fuel : nat) (par : xml) : run (option AnimationSequence) :=
  let cTn := XMLParser.getChild (Some par) "cTn" in
  if negb (truthy cTn) then Returns None
  else
    let childTnLst := XMLParser.getChild cTn "childTnLst" in
    if negb (truthy childTnLst) then Returns None
    else
      bindRun (parseChildTnLst fuel childTnLst) (fun children =>
        Returns (Some (mkSequence true children))).

(** The loop of [parseTimingNodeList]. *)
Fixpoint pushSequences (fuel : nat) (pars : list xml) (sequences : list AnimationSequence)
  : run (list AnimationSequence) :=
  match pars with
  | [] => Returns sequences
  | par :: rest =>
      bindRun (parseParallelNode fuel par) (fun s =>
        match s with
        | None => pushSequences fuel rest sequences
        | Some s => pushSequences fuel rest (sequences ++ [s])
        end)
  end.

(** [parseTimingNodeList(tnLst)] *)
Definition parseTimingNodeList (fuel : nat) (tnLst : any) : run (list AnimationSequence) :=
  pushSequences fuel (childrenNamed tnLst "par") [].

(** [parseTiming(timing)]: the [buildList] of the result ([None] when it has
    none), and its [sequenceList]. *)
Definition parseTiming (fuel : nat) (timing : any)
  : run (option (list AnimationBuild) * SlideTiming) :=
  let tnLst := XMLParser.getChild timing "tnLst" in
  let bldLst := XMLParser.getChild timing "bldLst" in
  let buildList := if truthy bldLst then Some (parseBuildList bldLst) else None in
  if truthy tnLst then
    bindRun (parseTimingNodeList fuel tnLst) (fun sequences =>
      Returns (buildList, mkTiming (Some sequences)))
  else Returns (buildList, mkTiming None).

End Timing.

End AnimationParser.

(** ** animation-controller.ts *)

Module AnimationController.

Import Animation.

(** [AnimationStep] *)
Record AnimationStep : Type := mkStep {
  nodes : list AnimationNode;
  targetIds : list Z
}.

(** [Slide], with the field the controller reads. *)
Record Slide : Type := mkSlide {
  timing : option SlideTiming
}.

(** [nodes.filter(n => n.targetId !== undefined).map(n => n.targetId!)] *)
Definition targetIdsOf (ns : list AnimationNode) : list Z :=
  flat_map (fun n => match n.(targetId) with Some t => [t] | None => [] end) ns.

(** [addStep(nodes)], on [this.steps]. *)
Definition addStep (steps : list AnimationStep) (ns : list AnimationNode)
  : list AnimationStep :=
  steps ++ [mkStep ns (targetIdsOf ns)].

(** The body of the loop of [processSequence]. *)
Definition processNode (steps : list AnimationStep) (node : AnimationNode)
  : list AnimationStep :=
  match node.(type) with
  | sequence =>
      match node.(children) with
      | Some cs => fold_left (fun st child => addStep st [child]) cs steps
      | None => steps
      end
  | parallel =>
      match node.(children) with
      | Some cs => addStep steps cs
      | None => steps
      end
  | effect | animate => addStep steps [node]
  | _ => steps
  end.

(** [processSequence(nodes)], on [this.steps]. *)
Definition processSequence (steps : list AnimationStep) (ns : list AnimationNode)
  : list AnimationStep :=
  fold_left processNode ns steps.

(** [buildSteps(slide)]: the new value of [this.steps]. *)
Definition buildSteps (slide : Slide) : list AnimationStep :=
  match slide.(timing) with
  | None => []
  | Some t =>
      match t.(sequenceList) with
      | None => []
      | Some sequences =>
          fold_left (fun st s => processSequence st s.(seq_children)) sequences []
      end
  end.

(** The steps one node contributes. *)
Definition stepsOf (n : AnimationNode) : list AnimationStep := processNode [] n.

(** *** The flattening the specification describes *)

Definition isLeaf (n : AnimationNode) : bool :=
  match n.(type) with
  | sequence | parallel => false
  | _ => true
  end.

Definition childrenOf (n : AnimationNode) : list AnimationNode :=
  match n.(children) with
  | Some cs => cs
  | None => []
  end.

(** The leaf-level descendants of a node, in depth-first order. *)
Fixpoint leaves (n : AnimationNode) : list AnimationNode :=
  match n with
  | mkNode t cs _ _ _ =>
      match t with
      | sequence | parallel =>
          match cs with
          | Some l => flat_map leaves l
          | None => []
          end
      | _ => [n]
      end
  end.

(** The specification's algorithm: a [sequence] gives one step per child in
    order, a child that is not a leaf being expanded the same way; a
    [parallel] gives one step with all its leaf-level descendants; a leaf
    gives one step of its own. *)
Fixpoint flatten (n : AnimationNode) : list (list AnimationNode) :=
  match n with
  | mkNode t cs _ _ _ =>
      match t with
      | sequence =>
          match cs with
          | Some l => flat_map flatten l
          | None => []
          end
      | parallel => [leaves n]
      | _ => [[n]]
      end
  end.

(** *** What a step plays *)

(** [node.targetId !== undefined] *)
Definition hasTarget (n : AnimationNode) : bool :=
  match n.(targetId) with
  | Some _ => true
  | None => false
  end.

(** The nodes of a step for which [playStep] looks for an element: it plays
    these (those whose element it finds) and no other, and does not go
    into the children of a node. *)
Definition playable (step : AnimationStep) : list AnimationNode :=
  filter hasTarget step.(nodes).

(** A node as the parser builds it: a group has no target of its own. *)
Definition untargetedGroup (n : AnimationNode) : Prop :=
  isLeaf n = false -> n.(targetId) = None.

Definition asParsed (n : AnimationNode) : Prop :=
  untargetedGroup n /\ Forall untargetedGroup (childrenOf n).

(** A step as [addStep] builds it from such nodes. *)
Definition asBuilt (step : AnimationStep) : Prop :=
  Forall untargetedGroup step.(nodes) /\ step.(targetIds) = targetIdsOf step.(nodes).

(** *** The controller as it steps through a slide *)

(** The members of the controller; the renderer and the listeners of the
    events are outside. *)
Record Controller : Type := mkController {
  slides : list Slide;
  currentSlide : Z;
  currentStep : nat;
  steps : list AnimationStep;
  isAnimating : bool
}.

(** [this.presentation.slides[index]] *)
Definition slideAt (c : Controller) (index : Z) : option Slide :=
  if index <? 0 then None else nth_error c.(slides) (Z.to_nat index).

Definition set_steps (s : list AnimationStep) (c : Controller) : Controller :=
  mkController c.(slides) c.(currentSlide) c.(currentStep) s c.(isAnimating).

(** [slide?.timing?.sequenceList] is there. *)
Definition hasSequenceList (slide : Slide) : bool :=
  match slide.(timing) with
  | Some t => match t.(sequenceList) with Some _ => true | None => false end
  | None => false
  end.

(** [getStepCount(slideIndex)]: the count and the members afterwards. *)
Definition getStepCount (slideIndex : Z) (c : Controller) : nat * Controller :=
  match slideAt c slideIndex with
  | Some slide =>
      if hasSequenceList slide
      then (List.length (buildSteps slide), set_steps (buildSteps slide) c)
      else (O, c)
  | None => (O, c)
  end.

(** [reset()]: the members afterwards (the elements it hides are the
    renderer's). *)
Definition reset (c : Controller) : Controller :=
  match slideAt c c.(currentSlide) with
  | Some slide =>
      mkController c.(slides) c.(currentSlide) O (buildSteps slide) c.(isAnimating)
  | None => mkController c.(slides) c.(currentSlide) O c.(steps) c.(isAnimating)
  end.

(** [setSlide(slideIndex)] *)
Definition setSlide (slideIndex : Z) (c : Controller) : Controller :=
  reset (mkController c.(slides) slideIndex c.(currentStep) c.(steps) c.(isAnimating)).

(** [next()] up to its [await]: [None] when it returns [false] at once, the
    step to play otherwise. *)
Definition nextBegin (c : Controller) : option (AnimationStep * Controller) :=
  if (List.length c.(steps) <=? c.(currentStep))%nat then None
  else if c.(isAnimating) then None
  else
    match nth_error c.(steps) c.(currentStep) with
    | Some step =>
        Some (step, mkController c.(slides) c.(currentSlide) c.(currentStep) c.(steps) true)
    | None => None
    end.

(** [next()] after its [await]: what it returns. *)
Definition nextEnd (c : Controller) : bool * Controller :=
  ((S c.(currentStep) <? List.length c.(steps))%nat,
   mkController c.(slides) c.(currentSlide) (S c.(currentStep)) c.(steps) false).

(** [await next()]: the step plays to its end, and no other method runs
    while it plays. *)
Definition next (c : Controller) : bool * Controller :=
  match nextBegin c with
  | Some (_, playing) => nextEnd playing
  | None => (false, c)
  end.

(** [hasMoreSteps()], [getCurrentStep()], [getTotalSteps()] *)
Definition hasMoreSteps (c : Controller) : bool :=
  (c.(currentStep) <? List.length c.(steps))%nat.

Definition getCurrentStep (c : Controller) : nat := c.(currentStep).

Definition getTotalSteps (c : Controller) : nat := List.length c.(steps).

(** [k] calls of [next()], each awaited: what they return, in order. *)
Fixpoint nexts (k : nat) (c : Controller) : list bool * Controller :=
  match k with
  | O => ([], c)
  | S k' =>
      let '(answer, c') := next c in
      let '(answers, c'') := nexts k' c' in
      (answer :: answers, c'')
  end.

(** The steps that these [k] calls hand to [playStep], in order. *)
Fixpoint played (k : nat) (c : Controller) : list AnimationStep :=
  match k with
  | O => []
  | S k' =>
      match nextBegin c with
      | Some (step, playing) => step :: played k' (snd (nextEnd playing))
      | None => played k' c
      end
  end.

End AnimationController.

(** ** animation/timing-controller.ts *)

Module TimingController.

Import Animation.

Inductive ItemState : Type := pending | running | completed.

(** [TimelineItem]; of the [id], [anim_${length}_${Date.now()}], the length
    of the timeline at insertion is kept. *)
Record TimelineItem : Type := mkItem {
  id : nat;
  startTime : JS.number;
  item_duration : JS.number;
  node : AnimationNode;
  state : ItemState
}.

(** [typeof node.duration === 'number' ? node.duration : 500]; [NaN] is of
    type [number]. *)
Definition durationOf (n : AnimationNode) : JS.number :=
  match n.(duration) with
  | Some (DurationNumber d) => d
  | _ => JS.Int 500
  end.

(** [typeof node.begin === 'string' ? parseInt(node.begin) || 0 : 0]: never
    [NaN]. *)
Definition delayOf (n : AnimationNode) : Z :=
  match n.(begin) with
  | Some (BeginString s) =>
      match JS.parseInt s with
      | Some d => d
      | None => 0
      end
  | _ => 0
  end.

(** [addToTimeline(node, startTime, duration)], on [this.timeline]. *)
Definition addToTimeline (timeline : list TimelineItem) (n : AnimationNode)
  (start dur : JS.number) : list TimelineItem :=
  timeline ++ [mkItem (List.length timeline) start dur n pending].

(** The loop over the children of a [sequence]: the timeline and [seqOffset]. *)
Definition addSequential (acc : list TimelineItem * JS.number) (child : AnimationNode)
  : list TimelineItem * JS.number :=
  let '(timeline, seqOffset) := acc in
  let childDuration := durationOf child in
  (addToTimeline timeline child seqOffset childDuration, JS.add seqOffset childDuration).

(** The loop over the children of a [parallel]: the timeline and
    [parallelMaxEnd]. *)
Definition addParallel (start : JS.number) (acc : list TimelineItem * JS.number)
  (child : AnimationNode) : list TimelineItem * JS.number :=
  let '(timeline, parallelMaxEnd) := acc in
  let childDuration := durationOf child in
  (addToTimeline timeline child start childDuration,
   JS.max parallelMaxEnd (JS.add start childDuration)).

(** The body of the loop of [processNodes]: the timeline and [maxEndTime]. *)
Definition processNode (offset : JS.number) (acc : list TimelineItem * JS.number)
  (n : AnimationNode) : list TimelineItem * JS.number :=
  let '(timeline, maxEndTime) := acc in
  let dur := durationOf n in
  let delay := delayOf n in
  let start := JS.add offset (JS.Int delay) in
  match n.(type), n.(children) with
  | sequence, Some cs =>
      let '(timeline', seqOffset) := fold_left addSequential cs (timeline, start) in
      (timeline', JS.max maxEndTime seqOffset)
  | parallel, Some cs =>
      let '(timeline', parallelMaxEnd) := fold_left (addParallel start) cs (timeline, start) in
      (timeline', JS.max maxEndTime parallelMaxEnd)
  | _, _ =>
      (addToTimeline timeline n start dur, JS.max maxEndTime (JS.add start dur))
  end.

(** [processNodes(nodes, offset)]: the timeline and the returned end time. *)
Definition processNodes (timeline : list TimelineItem) (ns : list AnimationNode)
  (offset : JS.number) : list TimelineItem * JS.number :=
  fold_left (processNode offset) ns (timeline, offset).

(** [Array.prototype.sort(compare)]: a stable sort; an element goes before
    the first one it does not compare greater than. A comparison that gives
    [NaN] counts as [+0]. When the comparisons are those of an order, every
    stable sort gives this list; when they are not (which [NaN] can cause),
    the standard leaves the order to the implementation, and nothing below
    is stated about the order then. *)
Section Sort.

Context {A : Type} (compare : A -> A -> JS.number).

Definition notAfter (x y : A) : bool :=
  match compare x y with
  | JS.NaN => true
  | JS.Int v => v <=? 0
  end.

Fixpoint insert (x : A) (l : list A) : list A :=
  match l with
  | [] => [x]
  | y :: l' => if notAfter x y then x :: l else y :: insert x l'
  end.

Definition sort (l : list A) : list A := fold_right insert [] l.

End Sort.

(** [(a, b) => a.startTime - b.startTime] *)
Definition byStartTime (a b : TimelineItem) : JS.number :=
  JS.sub a.(startTime) b.(startTime).

(** The timeline before the sort: the sequences processed one after another. *)
Definition unsorted (sequences : list AnimationSequence) : list TimelineItem * JS.number :=
  fold_left
    (fun (acc : list TimelineItem * JS.number) s =>
       let '(timeline, currentOffset) := acc in
       processNodes timeline s.(seq_children) currentOffset)
    sequences ([], JS.Int 0).

(** [buildTimeline(timing)]: the new value of [this.timeline]. *)
Definition buildTimeline (timing : SlideTiming) : list TimelineItem :=
  match timing.(sequenceList) with
  | None => []
  | Some sequences =>
      let '(timeline, _) :=
        fold_left
          (fun (acc : list TimelineItem * JS.number) s =>
             let '(timeline, currentOffset) := acc in
             processNodes timeline s.(seq_children) currentOffset)
          sequences ([], JS.Int 0) in
      sort byStartTime timeline
  end.

(** The order of the timeline: [a.startTime <= b.startTime]. *)
Definition startsBefore (a b : TimelineItem) : Prop :=
  JS.leb a.(startTime) b.(startTime) = true.

Definition isPending (it : TimelineItem) : Prop := it.(state) = pending.

(** *** The numbers a timing brings *)

(** The numbers [processNodes] reads from a node: its delay, and the
    durations of its children when it is a [sequence] or a [parallel] with
    children, its own duration otherwise. *)
Definition numbersOf (n : AnimationNode) : list JS.number :=
  JS.Int (delayOf n)
  :: match n.(type), n.(children) with
     | sequence, Some cs => map durationOf cs
     | parallel, Some cs => map durationOf cs
     | _, _ => [durationOf n]
     end.

Definition numbersOfSequences (sequences : list AnimationSequence) : list JS.number :=
  flat_map (fun s => flat_map numbersOf s.(seq_children)) sequences.

(** The sum of the magnitudes of the numbers; [None] when one is [NaN]. *)
Fixpoint weight (numbers : list JS.number) : option Z :=
  match numbers with
  | [] => Some 0
  | JS.NaN :: _ => None
  | JS.Int n :: rest =>
      match weight rest with
      | Some w => Some (Z.abs n + w)
      | None => None
      end
  end.

(** No number is [NaN] and the magnitudes sum to [2^53] at most: every sum
    the controller computes from the numbers is then an integer that a
    double holds, so that the code computes it exactly. *)
Definition inRange (numbers : list JS.number) : Prop :=
  match weight numbers with
  | Some w => w <= 2 ^ 53
  | None => False
  end.

(** A number that is an integer a double holds. *)
Definition safe (x : JS.number) : Prop :=
  match x with
  | JS.Int n => JS.safeInteger n
  | JS.NaN => False
  end.

(** The start time of the item is not [NaN]. *)
Definition timed (it : TimelineItem) : Prop :=
  match it.(startTime) with
  | JS.Int _ => True
  | JS.NaN => False
  end.

(** The item starts at the integer [s] and lasts the integer [d]. *)
Definition spans (it : TimelineItem) (s d : Z) : Prop :=
  it.(startTime) = JS.Int s /\ it.(item_duration) = JS.Int d.

(** *** The controller as it plays a timeline *)

(** [time >= t], for a time that is a reading of the clock or an argument of
    [seek]: a fraction. The comparison is false when [t] is [NaN]. *)
Definition reached (time : Q) (t : JS.number) : bool :=
  match t with
  | JS.Int z => Qle_bool (inject_Z z) time
  | JS.NaN => false
  end.

(** [time < t], false as well when [t] is [NaN]. *)
Definition before (time : Q) (t : JS.number) : bool :=
  match t with
  | JS.Int z => negb (Qle_bool (inject_Z z) time)
  | JS.NaN => false
  end.

(** [item.state = s] *)
Definition set_state (s : ItemState) (it : TimelineItem) : TimelineItem :=
  mkItem it.(id) it.(startTime) it.(item_duration) it.(node) s.

(** The members the methods below read and write. The start timestamp, the
    speed and the frame request are the clock's: where the source reads the
    clock, [(now - startTimestamp) * speed], the method is given the reading. *)
Record Controller : Type := mkController {
  timeline : list TimelineItem;
  currentTime : Q;
  isRunning : bool
}.

(** [pause()] *)
Definition pause (c : Controller) : Controller :=
  mkController c.(timeline) c.(currentTime) false.

(** [stop()] *)
Definition stop (c : Controller) : Controller :=
  mkController (map (set_state pending) c.(timeline)) 0%Q false.

(** The state [seek(time)] gives an item. *)
Definition stateAt (time : Q) (it : TimelineItem) : ItemState :=
  if before time it.(startTime) then pending
  else if reached time (JS.add it.(startTime) it.(item_duration)) then completed
  else running.

(** [seek(time)] *)
Definition seek (time : Q) (c : Controller) : Controller :=
  mkController (map (fun it => set_state (stateAt time it) it) c.(timeline))
               time c.(isRunning).

Definition isRunningItem (it : TimelineItem) : bool :=
  match it.(state) with running => true | _ => false end.

Definition isCompleted (it : TimelineItem) : bool :=
  match it.(state) with completed => true | _ => false end.

(** [getActiveItems()] *)
Definition getActiveItems (c : Controller) : list TimelineItem :=
  filter isRunningItem c.(timeline).

Definition endOf (it : TimelineItem) : JS.number :=
  JS.add it.(startTime) it.(item_duration).

(** [getTotalDuration()]: [Math.max] of the ends of the items. *)
Definition getTotalDuration (c : Controller) : JS.number :=
  match c.(timeline) with
  | [] => JS.Int 0
  | it :: rest => fold_left JS.max (map endOf rest) (endOf it)
  end.

(** [TimelineEvent]; the item of the event is given by its place in the
    timeline. The listeners are outside: an event emitted is recorded, and
    a listener neither throws nor calls the controller. *)
Inductive EventType : Type := evStart | evComplete | evUpdate.

Record TimelineEvent : Type := mkEvent {
  ev_type : EventType;
  ev_item : nat;
  ev_time : Q
}.

(** The body of the loop of [tick], for the item at place [i]. *)
Definition tickItem (i : nat) (time : Q) (it : TimelineItem)
  : TimelineItem * list TimelineEvent :=
  match it.(state) with
  | pending =>
      if reached time it.(startTime)
      then (set_state running it, [mkEvent evStart i time])
      else (it, [])
  | running =>
      if reached time (JS.add it.(startTime) it.(item_duration))
      then (set_state completed it, [mkEvent evUpdate i time; mkEvent evComplete i time])
      else (it, [mkEvent evUpdate i time])
  | completed => (it, [])
  end.

(** The loop of [tick], from place [i]. *)
Fixpoint tickItems (i : nat) (time : Q) (items : list TimelineItem)
  : list TimelineItem * list TimelineEvent :=
  match items with
  | [] => ([], [])
  | it :: rest =>
      let '(it', events) := tickItem i time it in
      let '(rest', events') := tickItems (S i) time rest in
      (it' :: rest', events ++ events')
  end.

(** [tick()], for the reading [time] of the clock. *)
Definition tick (time : Q) (c : Controller) : Controller * list TimelineEvent :=
  if negb c.(isRunning) then (c, [])
  else
    let '(items, events) := tickItems 0 time c.(timeline) in
    (mkController items time (negb (forallb isCompleted items)), events).

(** [start()]; [time] is the reading of the clock of the first [tick]. *)
Definition start (time : Q) (c : Controller) : Controller * list TimelineEvent :=
  if c.(isRunning) then (c, [])
  else tick time (mkController c.(timeline) c.(currentTime) true).

(** The frames of a run: one [tick] per reading of the clock. *)
Fixpoint ticks (times : list Q) (c : Controller) : Controller * list TimelineEvent :=
  match times with
  | [] => (c, [])
  | time :: rest =>
      let '(c', events) := tick time c in
      let '(c'', events') := ticks rest c' in
      (c'', events ++ events')
  end.

(** The types of the events of the item at place [i], in order. *)
Definition eventsOf (i : nat) (events : list TimelineEvent) : list EventType :=
  map ev_type (filter (fun e => Nat.eqb e.(ev_item) i) events).

(** The events an item may see in a run, from its state at the beginning:
    a [start] when it leaves [pending], then [update]s, the last one followed
    by a [complete] when it ends. *)
Definition lifecycle (s : ItemState) (types : list EventType) : Prop :=
  match s with
  | pending =>
      types = []
      \/ exists n, types = evStart :: repeat evUpdate n
                   \/ types = evStart :: repeat evUpdate (S n) ++ [evComplete]
  | running =>
      exists n, types = repeat evUpdate n
                \/ types = repeat evUpdate (S n) ++ [evComplete]
  | completed => types = []
  end.

(** Items placed back to back from [start]. *)
Fixpoint backToBack (start : JS.number) (items : list TimelineItem) : Prop :=
  match items with
  | [] => True
  | it :: rest =>
      it.(startTime) = start /\ backToBack (JS.add start it.(item_duration)) rest
  end.

(** A node that does not reach back in time: its delay is not negative, nor
    is the duration of a child it plays in sequence. *)
Definition forward (n : AnimationNode) : Prop :=
  0 <= delayOf n
  /\ match n.(type), n.(children) with
     | sequence, Some cs => Forall (fun c => JS.leb (JS.Int 0) (durationOf c) = true) cs
     | _, _ => True
     end.

End TimingController.

(** ** parser/pptx-parser.ts *)

Module PPTXParser.

Import RelationshipParser.

(** A computation that returns or throws an [Error] with a message. *)
Inductive result (A : Type) : Type :=
| Ok (a : A)
| Throw (message : string).

Arguments Ok {A} a.
Arguments Throw {A} message.

(** [ParseWarning] *)
Record ParseWarning : Type := mkWarning {
  w_code : string;
  w_message : string;
  w_location : option string;
  w_element : option string
}.

(** [ParseError] *)
Record ParseError : Type := mkError {
  e_code : string;
  e_message : string;
  fatal : bool
}.

(** [ParserOptions], with the option the embedded code reads. *)
Record ParserOptions : Type := mkOptions {
  parseNotes : bool
}.

(** The loaded archive: the entries of [zip.files] in order, each with its
    content. *)
Definition Zip : Type := list (string * string).

(** The collaborators of the parser: JSZip, fast-xml-parser, and the parsers
    of the content of a theme, a master, a layout and a slide (the shape
    tree, background, transition, timing and notes; none of them reads the
    layout or master id of a slide). Each may throw. *)
Class Collaborators : Type := {
  ArrayBuffer : Type;
  Theme : Type;
  MasterContent : Type;
  LayoutContent : Type;
  SlideContent : Type;
  Metadata : Type;
  Resources : Type;
  loadAsync : ArrayBuffer -> result Zip;
  fastXmlParse : string -> result xml;
  themeParse : xml -> result Theme;
  masterContent : xml -> string -> option Theme -> Relationships -> result MasterContent;
  layoutContent : xml -> string -> string -> Relationships -> result LayoutContent;
  slideContent : xml -> option Z -> nat -> Relationships -> any -> result SlideContent;
  metadataOf : any -> any -> Metadata;
  resourcesOf : ParserOptions -> option Zip -> list (string * Theme) -> Resources
}.

(** [resolvePath(basePath, relativePath)] *)
Definition resolveStep (baseParts : list string) (part : string) : list string :=
  if (part =? "..")%string then removelast baseParts
  else if negb (part =? ".")%string then baseParts ++ [part]
  else baseParts.

Definition resolvePath (basePath relativePath : string) : string :=
  if negb (JS.startsWith relativePath "..") then
    let baseDir := JS.substring basePath 0 (JS.lastIndexOf basePath "/") in
    (baseDir ++ "/" ++ relativePath)%string
  else
    let baseParts := removelast (JS.split "/" basePath) in
    let relParts := JS.split "/" relativePath in
    JS.join "/" (fold_left resolveStep relParts baseParts).

(** The directory of a part: its levels, and its path. *)
Definition directoryLevels (basePath : string) : list string :=
  removelast (JS.split "/" basePath).

Definition directoryOf (basePath : string) : string :=
  JS.join "/" (directoryLevels basePath).

(** A segment of a path that names a file or a directory: not empty, without
    a slash, and neither [.] nor [..]. *)
Definition isName (segment : string) : bool :=
  JS.lacks "/" segment
  && negb (segment =? "")%string
  && negb (segment =? ".")%string
  && negb (segment =? "..")%string.

(** [getRelationshipsPath(filePath)] *)
Definition getRelationshipsPath (filePath : string) : string :=
  let parts := JS.split "/" filePath in
  let fileName := last parts "" in
  JS.join "/" (removelast parts ++ ["_rels"; (fileName ++ ".rels")%string]).

Section WithCollaborators.

Context {collaborators : Collaborators}.

(** [SlideLayout], [SlideMaster], [Slide], [Presentation], [ParseResult] *)
Record SlideLayout : Type := mkLayout {
  layout_id : string;
  layout_masterId : string;
  layout_content : LayoutContent
}.

Record SlideMaster : Type := mkMaster {
  master_id : string;
  master_theme : option Theme;
  master_content : MasterContent;
  master_layouts : list SlideLayout
}.

Record Slide : Type := mkSlide {
  slide_id : option Z;
  slide_index : nat;
  layoutId : string;
  masterId : string;
  slide_content : SlideContent
}.

Record PresentationProperties : Type := mkProperties {
  slideWidth : option Z;
  slideHeight : option Z;
  firstSlideNumber : option Z;
  rtl : bool
}.

Record Presentation : Type := mkPresentation {
  properties : PresentationProperties;
  metadata : Metadata;
  pres_masters : list SlideMaster;
  slides : list Slide;
  resources : Resources
}.

Record ParseResult : Type := mkResult {
  presentation : Presentation;
  res_warnings : list ParseWarning;
  res_errors : list ParseError
}.

(** The members of the parser. *)
Record Parser : Type := mkParser {
  options : ParserOptions;
  zip : option Zip;
  warnings : list ParseWarning;
  errors : list ParseError;
  contentTypes : list (xml * xml);
  relationships : list (string * Relationships);
  themes : list (string * Theme);
  masters : list (string * SlideMaster);
  layouts : list (string * SlideLayout)
}.

(** A method of the parser: from the members before the call to the outcome
    and the members after it. *)
Definition M (A : Type) : Type := Parser -> result A * Parser.

Definition ret {A : Type} (a : A) : M A := fun p => (Ok a, p).

Definition throw {A : Type} (message : string) : M A := fun p => (Throw message, p).

Definition bind {A B : Type} (m : M A) (k : A -> M B) : M B :=
  fun p =>
    match m p with
    | (Ok a, p') => k a p'
    | (Throw message, p') => (Throw message, p')
    end.

(** [try { body } catch (error) { handler(error.message) }] *)
Definition tryCatch {A : Type} (body : M A) (handler : string -> M A) : M A :=
  fun p =>
    match body p with
    | (Ok a, p') => (Ok a, p')
    | (Throw message, p') => handler message p'
    end.

Definition get : M Parser := fun p => (Ok p, p).

Definition modify (f : Parser -> Parser) : M unit := fun p => (Ok tt, f p).

(** A collaborator's outcome, as an outcome of the method that calls it. *)
Definition lift {A : Type} (r : result A) : M A := fun p => (r, p).

(** [let* x := m in k] runs [m], then [k] with its result, unless [m]
    throws; [m ;; k] does so for a result that is not used. *)
Declare Scope parser_scope.
Delimit Scope parser_scope with parser.

Notation "'let*' x ':=' c1 'in' c2" := (bind c1 (fun x => c2))
  (at level 10, x name, c1 at level 200, c2 at level 200) : parser_scope.

Notation "c1 ;; c2" := (bind c1 (fun _ => c2))
  (at level 100, c2 at level 200, right associativity) : parser_scope.

Local Open Scope parser_scope.

Definition forEach {A : Type} (body : A -> M unit) : list A -> M unit :=
  fix loop (l : list A) : M unit :=
    match l with
    | [] => ret tt
    | x :: rest => body x ;; loop rest
    end.

Definition set_zip (z : option Zip) (p : Parser) : Parser :=
  mkParser p.(options) z p.(warnings) p.(errors) p.(contentTypes)
           p.(relationships) p.(themes) p.(masters) p.(layouts).

Definition set_warnings (w : list ParseWarning) (p : Parser) : Parser :=
  mkParser p.(options) p.(zip) w p.(errors) p.(contentTypes)
           p.(relationships) p.(themes) p.(masters) p.(layouts).

Definition set_errors (e : list ParseError) (p : Parser) : Parser :=
  mkParser p.(options) p.(zip) p.(warnings) e p.(contentTypes)
           p.(relationships) p.(themes) p.(masters) p.(layouts).

Definition set_contentTypes (c : list (xml * xml)) (p : Parser) : Parser :=
  mkParser p.(options) p.(zip) p.(warnings) p.(errors) c
           p.(relationships) p.(themes) p.(masters) p.(layouts).

Definition set_relationships (r : list (string * Relationships)) (p : Parser) : Parser :=
  mkParser p.(options) p.(zip) p.(warnings) p.(errors) p.(contentTypes)
           r p.(themes) p.(masters) p.(layouts).

Definition set_themes (t : list (string * Theme)) (p : Parser) : Parser :=
  mkParser p.(options) p.(zip) p.(warnings) p.(errors) p.(contentTypes)
           p.(relationships) t p.(masters) p.(layouts).

Definition set_masters (m : list (string * SlideMaster)) (p : Parser) : Parser :=
  mkParser p.(options) p.(zip) p.(warnings) p.(errors) p.(contentTypes)
           p.(relationships) p.(themes) m p.(layouts).

Definition set_layouts (l : list (string * SlideLayout)) (p : Parser) : Parser :=
  mkParser p.(options) p.(zip) p.(warnings) p.(errors) p.(contentTypes)
           p.(relationships) p.(themes) p.(masters) l.

(** [reset()] *)
Definition reset : M unit :=
  modify (fun p => mkParser p.(options) None [] [] [] [] [] [] []).

(** [addWarning(code, message, location)] *)
Definition addWarning (code message : string) (location : option string) : M unit :=
  modify (fun p => set_warnings (p.(warnings) ++ [mkWarning code message location None]) p).

(** [zip.file(path)]: the content of the entry, [None] when there is none. *)
Definition zipFile (z : Zip) (path : string) : option string :=
  JsMap.get String.eqb z path.

(** [XMLParser.parse(content)] *)
Definition xmlParse (content : string) : result xml :=
  match fastXmlParse content with
  | Ok x => Ok x
  | Throw message => Throw ("Failed to parse XML: " ++ message)
  end.

(** [readXml(path)] *)
Definition readXml (path : string) : M any :=
  let* p := get in
  match p.(zip) with
  | None => throw "ZIP not loaded"
  | Some z =>
      match zipFile z path with
      | None =>
          addWarning "FILE_NOT_FOUND" ("File not found: " ++ path) (Some path) ;;
          ret None
      | Some content => let* x := lift (xmlParse content) in ret (Some x)
      end
  end.

(** [a || b] on values that may be [undefined]. *)
Definition orAny (a b : any) : any := if truthy a then a else b.

(** The [TypeError] of reading a property of [undefined]. *)
Definition typeError : string := "TypeError".

(** The loop over [defaults]. *)
Definition addDefault (types : list (xml * xml)) (def : xml) : list (xml * xml) :=
  match prop def "@_Extension", prop def "@_ContentType" with
  | Some ext, Some contentType =>
      if truthy_xml ext && truthy_xml contentType
      then JsMap.set JsMap.sameValueZero types (XStr ("." ++ toString ext)) contentType
      else types
  | _, _ => types
  end.

(** The loop over [overrides]. *)
Definition addOverride (types : list (xml * xml)) (override : xml) : list (xml * xml) :=
  match prop override "@_PartName", prop override "@_ContentType" with
  | Some partName, Some contentType =>
      if truthy_xml partName && truthy_xml contentType
      then JsMap.set JsMap.sameValueZero types partName contentType
      else types
  | _, _ => types
  end.

(** [parseContentTypes()] *)
Definition parseContentTypes : M unit :=
  let* doc := readXml "[Content_Types].xml" in
  match doc with
  | None => throw "Missing [Content_Types].xml"
  | Some x =>
      if negb (truthy_xml x) then throw "Missing [Content_Types].xml"
      else
        match prop x "Types" with
        | None => throw typeError
        | Some types =>
            let defaults := XMLParser.ensureArray (prop types "Default") in
            let overrides := XMLParser.ensureArray (prop types "Override") in
            modify (fun p =>
              set_contentTypes
                (fold_left addOverride overrides
                   (fold_left addDefault defaults p.(contentTypes))) p)
        end
  end.

(** [parseRelationships(forPath)] *)
Definition parseRelationships (forPath : string) : M Relationships :=
  let relsPath := getRelationshipsPath forPath in
  let* p := get in
  match JsMap.get String.eqb p.(relationships) forPath with
  | Some rels => ret rels
  | None =>
      let* doc := readXml relsPath in
      let rels := RelationshipParser.parse doc forPath in
      modify (fun p =>
        set_relationships (JsMap.set String.eqb p.(relationships) forPath rels) p) ;;
      ret rels
  end.

(** [v.includes(s)]: on a string, on an array; a [TypeError] otherwise. *)
Definition includes (v : xml) (s : string) : result bool :=
  match v with
  | XStr t => Ok (JS.includes t s)
  | XArr items => Ok (existsb (JsMap.sameValueZero (XStr s)) items)
  | _ => Throw typeError
  end.

(** [for (const [, rel] of rels) { if (rel.type.includes(kind)) { ...; break } }]:
    the relationship the loop stops at. *)
Fixpoint firstOfType (kind : string) (rels : Relationships)
  : result (option Relationship) :=
  match rels with
  | [] => Ok None
  | (_, rel) :: rest =>
      match includes rel.(type) kind with
      | Throw message => Throw message
      | Ok true => Ok (Some rel)
      | Ok false => firstOfType kind rest
      end
  end.

(** [resolvePath(basePath, rel.target)]: [startsWith] is a method of strings. *)
Definition resolveTarget (basePath : string) (target : xml) : result string :=
  match target with
  | XStr t => Ok (resolvePath basePath t)
  | _ => Throw typeError
  end.

(** [Object.keys(this.zip.files)] *)
Definition paths (z : Zip) : list string := map fst z.

(** [parseThemes()] *)
Definition parseThemes : M unit :=
  let* p := get in
  match p.(zip) with
  | None => ret tt
  | Some z =>
      let themeFiles :=
        filter (fun path => JS.startsWith path "ppt/theme/" && JS.endsWith path ".xml")
               (paths z) in
      forEach (fun themePath =>
        let* doc := readXml themePath in
        match doc with
        | None => ret tt
        | Some x =>
            if negb (truthy_xml x) then ret tt
            else
              let* theme := lift (themeParse x) in
              modify (fun p => set_themes (JsMap.set String.eqb p.(themes) themePath theme) p)
        end) themeFiles
  end.

(** [this.themes.values().next().value] *)
Definition firstTheme (p : Parser) : option Theme :=
  match p.(themes) with
  | [] => None
  | (_, t) :: _ => Some t
  end.

(** The body of the loop of [parseSlideMasters]. *)
Definition parseSlideMaster (masterPath : string) : M unit :=
  let* doc := readXml masterPath in
  match doc with
  | None => ret tt
  | Some x =>
      if negb (truthy_xml x) then ret tt
      else
        let* rels := parseRelationships masterPath in
        let* found := lift (firstOfType "theme" rels) in
        let* linked :=
          match found with
          | None => ret None
          | Some rel =>
              let* themePath := lift (resolveTarget masterPath rel.(target)) in
              let* p := get in
              ret (JsMap.get String.eqb p.(themes) themePath)
          end in
        let* p := get in
        let theme := match linked with Some t => Some t | None => firstTheme p end in
        let* content := lift (masterContent x masterPath theme rels) in
        modify (fun p =>
          set_masters
            (JsMap.set String.eqb p.(masters) masterPath
               (mkMaster masterPath theme content [])) p)
  end.

(** [parseSlideMasters()] *)
Definition parseSlideMasters : M unit :=
  let* p := get in
  match p.(zip) with
  | None => ret tt
  | Some z =>
      forEach parseSlideMaster
        (filter (fun path => JS.startsWith path "ppt/slideMasters/"
                             && JS.endsWith path ".xml"
                             && negb (JS.includes path "_rels")) (paths z))
  end.

(** [master.layouts.push(layout)] on the master stored under [masterId]. *)
Definition pushLayout (masterId : string) (layout : SlideLayout) (p : Parser) : Parser :=
  match JsMap.get String.eqb p.(masters) masterId with
  | None => p
  | Some master =>
      set_masters
        (JsMap.set String.eqb p.(masters) masterId
           (mkMaster master.(master_id) master.(master_theme) master.(master_content)
                     (master.(master_layouts) ++ [layout]))) p
  end.

(** The body of the loop of [parseSlideLayouts]. *)
Definition parseSlideLayout (layoutPath : string) : M unit :=
  let* doc := readXml layoutPath in
  match doc with
  | None => ret tt
  | Some x =>
      if negb (truthy_xml x) then ret tt
      else
        let* rels := parseRelationships layoutPath in
        let* found := lift (firstOfType "slideMaster" rels) in
        let* masterId :=
          match found with
          | None => ret ""
          | Some rel => lift (resolveTarget layoutPath rel.(target))
          end in
        let* content := lift (layoutContent x layoutPath masterId rels) in
        let layout := mkLayout layoutPath masterId content in
        modify (fun p =>
          pushLayout masterId layout
            (set_layouts (JsMap.set String.eqb p.(layouts) layoutPath layout) p))
  end.

(** [parseSlideLayouts()] *)
Definition parseSlideLayouts : M unit :=
  let* p := get in
  match p.(zip) with
  | None => ret tt
  | Some z =>
      forEach parseSlideLayout
        (filter (fun path => JS.startsWith path "ppt/slideLayouts/"
                             && JS.endsWith path ".xml"
                             && negb (JS.includes path "_rels")) (paths z))
  end.

(** [parseInt(v || fallback, 10)] *)
Definition parseIntOr (v : any) (fallback : string) : option Z :=
  JS.parseInt10 (toString (or_else v (XStr fallback))).

(** [v === 'true'] and the like. *)
Definition isString (v : any) (s : string) : bool :=
  match v with
  | Some (XStr t) => (t =? s)%string
  | _ => false
  end.

(** [parsePresentationProperties()] *)
Definition parsePresentationProperties : M PresentationProperties :=
  let* doc := readXml "ppt/presentation.xml" in
  match doc with
  | None => throw "Missing presentation.xml"
  | Some x =>
      if negb (truthy_xml x) then throw "Missing presentation.xml"
      else
        match orAny (prop x "p:presentation") (prop x "presentation") with
        | None => throw typeError
        | Some pres =>
            let sldSz := orAny (prop pres "p:sldSz") (prop pres "sldSz") in
            let attr k := match sldSz with Some s => prop s k | None => None end in
            ret (mkProperties
                   (parseIntOr (attr "@_cx") "9144000")
                   (parseIntOr (attr "@_cy") "6858000")
                   (parseIntOr (prop pres "@_firstSlideNum") "1")
                   (isString (prop pres "@_rtl") "true" || isString (prop pres "@_rtl") "1"))
        end
  end.

(** [parseMetadata()]: the two parts it reads; the fields are collected by
    [metadataOf]. *)
Definition parseMetadata : M Metadata :=
  let* coreXml := readXml "docProps/core.xml" in
  let* extXml := readXml "docProps/app.xml" in
  ret (metadataOf coreXml extXml).

(** [SlideParser.parseSlide(xml, id, index, layoutId, masterId, relationships, notesXml)]:
    the two ids are stored as given. *)
Definition parseSlide (slideXml : xml) (id : option Z) (index : nat)
  (layout master : string) (rels : Relationships) (notesXml : any) : result Slide :=
  match slideContent slideXml id index rels notesXml with
  | Ok content => Ok (mkSlide id index layout master content)
  | Throw message => Throw message
  end.

(** The loop that finds the layout of a slide: [layoutId]. *)
Definition findLayoutId (slidePath : string) (slideRels : Relationships) : result string :=
  match firstOfType "slideLayout" slideRels with
  | Throw message => Throw message
  | Ok None => Ok ""
  | Ok (Some rel) => resolveTarget slidePath rel.(target)
  end.

(** [layout?.masterId || ''] for [layout = this.layouts.get(layoutId)]. *)
Definition masterIdOf (p : Parser) (layout : string) : string :=
  match JsMap.get String.eqb p.(layouts) layout with
  | Some l => l.(layout_masterId)
  | None => ""
  end.

(** The notes of a slide: [notesXml]. *)
Definition readNotes (slidePath : string) (slideRels : Relationships) : M any :=
  let* p := get in
  if p.(options).(parseNotes) then
    let* found := lift (firstOfType "notesSlide" slideRels) in
    match found with
    | None => ret None
    | Some rel =>
        let* notesPath := lift (resolveTarget slidePath rel.(target)) in
        readXml notesPath
    end
  else ret None.

(** The part of the loop of [parseSlides] that follows the reading of the
    slide and of its relationships. *)
Definition buildSlide (slideXml : xml) (slideId : option Z) (i : nat)
  (slidePath : string) (slideRels : Relationships) : M Slide :=
  let* layout := lift (findLayoutId slidePath slideRels) in
  let* p := get in
  let master := masterIdOf p layout in
  let* notesXml := readNotes slidePath slideRels in
  lift (parseSlide slideXml slideId i layout master slideRels notesXml).

(** [`ppt/${rel.target.replace('../', '')}`]: [replace] is a method of strings. *)
Definition slidePathOf (rel : Relationship) : result string :=
  match rel.(target) with
  | XStr t => Ok ("ppt/" ++ JS.replace t "../" "")%string
  | _ => Throw typeError
  end.

(** [parseInt(v, 10)] on a value that may be [undefined]. *)
Definition parseIntAny (v : any) : option Z :=
  match v with
  | None => None
  | Some x => JS.parseInt10 (toString x)
  end.

(** The loop of [parseSlides], from index [i]; [None] is [continue]. *)
Definition parseSlideAt (presRels : Relationships) (i : nat) (sldId : xml) : M (option Slide) :=
  let slideId := parseIntAny (prop sldId "@_id") in
  let rId := orAny (prop sldId "@_r:id") (prop sldId "@_rid") in
  match (match rId with Some k => RelationshipParser.get presRels k | None => None end) with
  | None => ret None
  | Some rel =>
      let* slidePath := lift (slidePathOf rel) in
      let* doc := readXml slidePath in
      match doc with
      | None => ret None
      | Some slideXml =>
          if negb (truthy_xml slideXml) then ret None
          else
            let* slideRels := parseRelationships slidePath in
            let* slide := buildSlide slideXml slideId i slidePath slideRels in
            ret (Some slide)
      end
  end.

Fixpoint slidesLoop (presRels : Relationships) (i : nat) (sldIds : list xml)
  (acc : list Slide) : M (list Slide) :=
  match sldIds with
  | [] => ret acc
  | sldId :: rest =>
      let* slide := parseSlideAt presRels i sldId in
      slidesLoop presRels (S i) rest
        (match slide with Some s => acc ++ [s] | None => acc end)
  end.

(** [parseSlides()] *)
Definition parseSlides : M (list Slide) :=
  let* doc := readXml "ppt/presentation.xml" in
  match doc with
  | None => ret []
  | Some x =>
      if negb (truthy_xml x) then ret []
      else
        match orAny (prop x "p:presentation") (prop x "presentation") with
        | None => throw typeError
        | Some pres =>
            let sldIdLst := orAny (prop pres "p:sldIdLst") (prop pres "sldIdLst") in
            match sldIdLst with
            | None => ret []
            | Some lst =>
                if negb (truthy_xml lst) then ret []
                else
                  let sldIds :=
                    XMLParser.ensureArray (orAny (prop lst "p:sldId") (prop lst "sldId")) in
                  let* presRels := parseRelationships "ppt/presentation.xml" in
                  slidesLoop presRels O sldIds []
            end
        end
  end.

(** No relationship of the map is of a type that includes [kind]. *)
Definition noneOfType (kind : string) (rels : Relationships) : Prop :=
  Forall (fun e => includes (snd e).(type) kind = Ok false) rels.

(** Every layout is stored under the path of its part. *)
Definition layoutKeys (p : Parser) : Prop :=
  Forall (fun e => JS.startsWith (fst e) "ppt/slideLayouts/" = true) p.(layouts).

(** [parseResources()] *)
Definition parseResources : M Resources :=
  let* p := get in
  ret (resourcesOf p.(options) p.(zip) p.(themes)).

(** What follows the loading of the archive in the [try] of [parse]. *)
Definition afterLoad : M ParseResult :=
  parseContentTypes ;;
  parseRelationships "ppt/presentation.xml" ;;
  parseThemes ;;
  parseSlideMasters ;;
  parseSlideLayouts ;;
  let* props := parsePresentationProperties in
  let* meta := parseMetadata in
  let* slides := parseSlides in
  let* res := parseResources in
  let* p := get in
  ret (mkResult
         (mkPresentation props meta (map snd p.(masters)) slides res)
         p.(warnings)
         (filter (fun e => negb e.(fatal)) p.(errors))).

(** The steps of [afterLoad] return one after another, from the members [p]
    to the members [q], and [r] is the result built from what they return
    and from the members at the end, with an empty list of errors. *)
Definition stepsReturn (p : Parser) (r : ParseResult) (q : Parser) : Prop :=
  exists p1 rels p2 p3 p4 p5 props p6 meta p7 slides,
    parseContentTypes p = (Ok tt, p1)
    /\ parseRelationships "ppt/presentation.xml" p1 = (Ok rels, p2)
    /\ parseThemes p2 = (Ok tt, p3)
    /\ parseSlideMasters p3 = (Ok tt, p4)
    /\ parseSlideLayouts p4 = (Ok tt, p5)
    /\ parsePresentationProperties p5 = (Ok props, p6)
    /\ parseMetadata p6 = (Ok meta, p7)
    /\ parseSlides p7 = (Ok slides, q)
    /\ r = mkResult
             (mkPresentation props meta (map snd q.(masters)) slides
                (resourcesOf q.(options) q.(zip) q.(themes)))
             q.(warnings) [].

(** The body of the [try] of [parse]. *)
Definition parseBody (data : ArrayBuffer) : M ParseResult :=
  let* z := lift (loadAsync data) in
  modify (set_zip (Some z)) ;;
  afterLoad.

(** The [catch] of [parse]: the error is recorded as fatal and thrown again. *)
Definition parseCatch (message : string) : M ParseResult :=
  modify (fun p => set_errors (p.(errors) ++ [mkError "PARSE_ERROR" message true]) p) ;;
  throw message.

(** [parse(data)] *)
Definition parse (data : ArrayBuffer) : M ParseResult :=
  reset ;;
  tryCatch (parseBody data) parseCatch.

(** The members after [reset()], and once the archive is loaded. *)
Definition afterReset (p : Parser) : Parser :=
  mkParser p.(options) None [] [] [] [] [] [] [].

Definition loaded (p : Parser) (z : Zip) : Parser := set_zip (Some z) (afterReset p).

(** The error [parse] records before it throws. *)
Definition fatalError (message : string) : ParseError := mkError "PARSE_ERROR" message true.

(** The methods that run before [parseSlides]. *)
Definition beforeSlides : M (PresentationProperties * Metadata) :=
  parseContentTypes ;;
  parseRelationships "ppt/presentation.xml" ;;
  parseThemes ;;
  parseSlideMasters ;;
  parseSlideLayouts ;;
  let* props := parsePresentationProperties in
  let* meta := parseMetadata in
  ret (props, meta).

(** The method [m] does not change the member [f], whether it returns or
    throws. *)
Definition keeps {A X : Type} (f : Parser -> X) (m : M A) : Prop :=
  forall p, f (snd (m p)) = f p.

(** The method [m] maintains the property [P] of the members. *)
Definition maintains {A : Type} (P : Parser -> Prop) (m : M A) : Prop :=
  forall p, P p -> P (snd (m p)).

(** *** What the methods do to the warnings *)

(** The method [m] only appends to the warnings. *)
Definition appends {A : Type} (m : M A) : Prop :=
  forall p, exists w, warnings (snd (m p)) = warnings p ++ w.

(** The warning [readXml] records for a part that the archive lacks. *)
Definition fileNotFound (path : string) : ParseWarning :=
  mkWarning "FILE_NOT_FOUND" ("File not found: " ++ path) (Some path) None.

(** One slide is before another in the order of [index]. *)
Definition indexBefore (a b : Slide) : Prop := (a.(slide_index) < b.(slide_index))%nat.

End WithCollaborators.

End PPTXParser.

(** ** Example data *)

Module Examples.

Import Animation AnimationController.

(** A color node with [lumMod=50000] and [lumOff=10000]. *)
Definition lumExample : xml :=
  XObj [("a:schemeClr",
         XObj [("@_val", XStr "accent1");
               ("a:lumMod", XObj [("@_val", XStr "50000")]);
               ("a:lumOff", XObj [("@_val", XStr "10000")])])].

(** A color scheme with every slot but [accent3]. *)
Definition schemeWithoutAccent3 : xml :=
  let srgb v := XObj [("a:srgbClr", XObj [("@_val", XStr v)])] in
  XObj [("@_name", XStr "Office");
        ("a:dk1", srgb "111111"); ("a:lt1", srgb "FEFEFE");
        ("a:dk2", srgb "44546A"); ("a:lt2", srgb "E7E6E6");
        ("a:accent1", srgb "4472C4"); ("a:accent2", srgb "ED7D31");
        ("a:accent4", srgb "FFC000"); ("a:accent5", srgb "5B9BD5");
        ("a:accent6", srgb "70AD47");
        ("a:hlink", srgb "0563C1"); ("a:folHlink", srgb "954F72")].

(** A leaf of the given type, and a group with the given children. *)
Definition leafNode (t : NodeType) (target : Z) : AnimationNode :=
  mkNode t None None None (Some target).

Definition groupOf (t : NodeType) (cs : list AnimationNode) : AnimationNode :=
  mkNode t (Some cs) None None None.

Definition slideOf (ns : list AnimationNode) : Slide :=
  mkSlide (Some (mkTiming (Some [mkSequence true ns]))).

(** Two [Relationship] elements with the same [Id], and one with none. *)
Definition twiceRId1 : xml :=
  XObj [("Relationships",
         XObj [("Relationship",
                XArr [XObj [("@_Id", XStr "rId1"); ("@_Type", XStr "slide");
                            ("@_Target", XStr "slides/slide1.xml")];
                      XObj [("@_Type", XStr "theme");
                            ("@_Target", XStr "theme/theme1.xml")];
                      XObj [("@_Id", XStr "rId1"); ("@_Type", XStr "slide");
                            ("@_Target", XStr "slides/slide2.xml")]])])].

(** Three elements, the second without [Id]. *)
Definition threeRelationships : xml :=
  XObj [("Relationships",
         XObj [("Relationship",
                XArr [XObj [("@_Id", XStr "rId1"); ("@_Type", XStr "slide");
                            ("@_Target", XStr "slides/slide1.xml")];
                      XObj [("@_Type", XStr "theme");
                            ("@_Target", XStr "theme/theme1.xml")];
                      XObj [("@_Id", XStr "rId2"); ("@_Type", XStr "slide");
                            ("@_Target", XStr "slides/slide2.xml")]])])].

(** A [seq] node with two effects, the first with a [dur] that is not the
    writing of a number, as the parser reads them. *)
Definition nanTiming : SlideTiming :=
  let dur text := AnimationParser.parseDuration (Some (XStr text)) in
  mkTiming (Some [mkSequence true
    [mkNode sequence
       (Some [mkNode effect None None (dur "abc") (Some 1);
              mkNode effect None None (dur "500") (Some 2)])
       None None None]]).

(** A [childTnLst] with a [set] and an [animEffect] whose [filter] is a
    child element with a number for text, [<filter>5</filter>]. *)
Definition numberFilter : xml :=
  XObj [("p:set", XObj [("p:to", XObj [])]);
        ("p:animEffect", XObj [("filter", XNum 5)])].

(** Readers that find no property. *)
Definition noProperties : AnimationParser.PropertyReaders :=
  {| AnimationParser.parseCommonTimingProps := fun _ => AnimationParser.mkTimingProps None None;
     AnimationParser.parseTargetElement := fun _ => None |}.

(** The children of a [childTnLst] whose source has an [anim] between two
    [set] elements, after a [par] with one effect. *)
Definition interleaved : xml :=
  XObj [("p:anim", XObj [("@_calcmode", XStr "lin")]);
        ("p:set", XArr [XObj [("p:to", XObj [])]; XObj [("p:to", XObj [])]]);
        ("p:par",
         XArr [XObj [("p:cTn",
                      XObj [("p:childTnLst",
                             XArr [XObj [("p:animEffect", XObj [("@_filter", XStr "fade")])]])])]])].

(** The trees fast-xml-parser gives for the parts of the archive below, by
    the text of the part. *)
Definition exampleTrees : list (string * xml) :=
  [ ("<Types>",
     XObj [("Types",
            XObj [("Default", XArr [XObj [("@_Extension", XStr "xml");
                                          ("@_ContentType", XStr "application/xml")]]);
                  ("Override", XArr [XObj [("@_PartName", XStr "/ppt/presentation.xml");
                                           ("@_ContentType", XStr "presentation")]])])]);
    ("<p:presentation>",
     XObj [("p:presentation",
            XObj [("p:sldIdLst",
                   XObj [("p:sldId", XArr [XObj [("@_id", XStr "256");
                                                 ("@_r:id", XStr "rId2")]])]);
                  ("p:sldSz", XObj [("@_cx", XStr "12192000"); ("@_cy", XStr "6858000")])])]);
    ("<Relationships presentation>",
     XObj [("Relationships",
            XObj [("Relationship",
                   XArr [XObj [("@_Id", XStr "rId2"); ("@_Type", XStr "relationships/slide");
                               ("@_Target", XStr "slides/slide1.xml")]])])]);
    ("<p:sld>", XObj [("p:sld", XObj [("p:cSld", XObj [("p:spTree", XStr "")])])]);
    ("<Relationships slide1>",
     XObj [("Relationships",
            XObj [("Relationship",
                   XArr [XObj [("@_Id", XStr "rId1"); ("@_Type", XStr "relationships/image");
                               ("@_Target", XStr "../media/image1.png")]])])]);
    ("<Relationships slide1 with layout>",
     XObj [("Relationships",
            XObj [("Relationship",
                   XArr [XObj [("@_Id", XStr "rId1");
                               ("@_Type", XStr "relationships/slideLayout");
                               ("@_Target", XStr "../slideLayouts/slideLayout1.xml")]])])]) ].

(** Collaborators for the example: the archive is its own bytes, the XML
    parser reads the table above and rejects any other text, and the
    content of themes, masters, layouts and slides is not looked at. *)
Definition exampleCollaborators : PPTXParser.Collaborators :=
  {| PPTXParser.ArrayBuffer := PPTXParser.Zip;
     PPTXParser.Theme := unit;
     PPTXParser.MasterContent := unit;
     PPTXParser.LayoutContent := unit;
     PPTXParser.SlideContent := unit;
     PPTXParser.Metadata := unit;
     PPTXParser.Resources := unit;
     PPTXParser.loadAsync := fun z => PPTXParser.Ok z;
     PPTXParser.fastXmlParse := fun content =>
       match assoc content exampleTrees with
       | Some x => PPTXParser.Ok x
       | None => PPTXParser.Throw "Unexpected end of input"
       end;
     PPTXParser.themeParse := fun _ => PPTXParser.Ok tt;
     PPTXParser.masterContent := fun _ _ _ _ => PPTXParser.Ok tt;
     PPTXParser.layoutContent := fun _ _ _ _ => PPTXParser.Ok tt;
     PPTXParser.slideContent := fun _ _ _ _ _ => PPTXParser.Ok tt;
     PPTXParser.metadataOf := fun _ _ => tt;
     PPTXParser.resourcesOf := fun _ _ _ => tt |}.

(** The trees fast-xml-parser gives for two more texts: a document whose
    root is not [Types], and a text that ends before its elements are
    closed. The parser is called without its validator and does not reject
    such a text: it returns the tree built when the text ends. *)
Definition lenientTrees : list (string * xml) :=
  [ ("<ContentTypes>",
     XObj [("ContentTypes",
            XObj [("Default", XObj [("@_Extension", XStr "xml");
                                    ("@_ContentType", XStr "application/xml")])])]);
    ("<p:presentation><p:sldIdLst>",
     XObj [("p:presentation", XObj [("p:sldIdLst", XStr "")])]) ].

(** The same collaborators with the trees above. *)
Definition lenientCollaborators : PPTXParser.Collaborators :=
  {| PPTXParser.ArrayBuffer := PPTXParser.Zip;
     PPTXParser.Theme := unit;
     PPTXParser.MasterContent := unit;
     PPTXParser.LayoutContent := unit;
     PPTXParser.SlideContent := unit;
     PPTXParser.Metadata := unit;
     PPTXParser.Resources := unit;
     PPTXParser.loadAsync := fun z => PPTXParser.Ok z;
     PPTXParser.fastXmlParse := fun content =>
       match assoc content (exampleTrees ++ lenientTrees) with
       | Some x => PPTXParser.Ok x
       | None => PPTXParser.Throw "Unexpected end of input"
       end;
     PPTXParser.themeParse := fun _ => PPTXParser.Ok tt;
     PPTXParser.masterContent := fun _ _ _ _ => PPTXParser.Ok tt;
     PPTXParser.layoutContent := fun _ _ _ _ => PPTXParser.Ok tt;
     PPTXParser.slideContent := fun _ _ _ _ _ => PPTXParser.Ok tt;
     PPTXParser.metadataOf := fun _ _ => tt;
     PPTXParser.resourcesOf := fun _ _ _ => tt |}.

(** An archive with the two required parts, whose [[Content_Types].xml] is
    well formed but has another root than [Types]. *)
Definition untypedArchive : PPTXParser.Zip :=
  [ ("[Content_Types].xml", "<ContentTypes>");
    ("ppt/presentation.xml", "<p:presentation>");
    ("ppt/_rels/presentation.xml.rels", "<Relationships presentation>");
    ("ppt/slides/slide1.xml", "<p:sld>");
    ("ppt/slides/_rels/slide1.xml.rels", "<Relationships slide1>") ].

(** An archive whose [ppt/presentation.xml] ends before its elements are
    closed. *)
Definition unclosedArchive : PPTXParser.Zip :=
  [ ("[Content_Types].xml", "<Types>");
    ("ppt/presentation.xml", "<p:presentation><p:sldIdLst>") ].

(** An archive with one slide that has no layout relationship. *)
Definition exampleArchive : PPTXParser.Zip :=
  [ ("[Content_Types].xml", "<Types>");
    ("ppt/presentation.xml", "<p:presentation>");
    ("ppt/_rels/presentation.xml.rels", "<Relationships presentation>");
    ("ppt/slides/slide1.xml", "<p:sld>");
    ("ppt/slides/_rels/slide1.xml.rels", "<Relationships slide1>") ].

(** The same archive, but the slide has a layout relationship, to a layout
    part that the archive lacks. *)
Definition danglingArchive : PPTXParser.Zip :=
  [ ("[Content_Types].xml", "<Types>");
    ("ppt/presentation.xml", "<p:presentation>");
    ("ppt/_rels/presentation.xml.rels", "<Relationships presentation>");
    ("ppt/slides/slide1.xml", "<p:sld>");
    ("ppt/slides/_rels/slide1.xml.rels", "<Relationships slide1 with layout>") ].

(** A parser that has not parsed anything yet. *)
Definition newParser : PPTXParser.Parser (collaborators := exampleCollaborators) :=
  PPTXParser.mkParser (PPTXParser.mkOptions true) None [] [] [] [] [] [] [].

Definition lenientParser : PPTXParser.Parser (collaborators := lenientCollaborators) :=
  PPTXParser.mkParser (PPTXParser.mkOptions true) None [] [] [] [] [] [] [].

(** Readers that take the target of a node from the [spid] of its [spTgt],
    and no timing. *)
Definition spidReaders : AnimationParser.PropertyReaders :=
  {| AnimationParser.parseCommonTimingProps := fun _ => AnimationParser.mkTimingProps None None;
     AnimationParser.parseTargetElement := fun tgtEl =>
       match XMLParser.getAttr (XMLParser.getChild tgtEl "spTgt") "spid" undefined with
       | Some spid => if truthy_xml spid then JS.parseInt10 (toString spid) else None
       | None => None
       end |}.

(** One [cTn] with the children [cs]. *)
Definition timeNode (cs : list (string * xml)) : xml :=
  XObj [("p:cTn", XObj [("p:childTnLst", XObj cs)])].

(** An effect on the shape [spid]. *)
Definition fadeOf (spid : string) : xml :=
  XObj [("p:cBhvr", XObj [("p:tgtEl", XObj [("p:spTgt", XObj [("@_spid", XStr spid)])])])].

(** The timing of a slide as presentation programs write it: the root, the
    main sequence, and for each click a group of groups around the effect.
    Here two clicks, on the shapes 4 and 5. *)
Definition clickOf (spid : string) : xml :=
  timeNode [("p:par", timeNode [("p:par", timeNode [("p:animEffect", fadeOf spid)])])].

Definition twoClicks : xml :=
  XObj [("p:tnLst",
         XObj [("p:par",
                timeNode [("p:seq",
                           timeNode [("p:par", XArr [clickOf "4"; clickOf "5"])])])])].

End Examples.

Import Examples.

(** * Properties *)

(** ** JavaScript strings *)

Lemma digitValue_digit c :
  JS.isDigit c = true ->
  JS.digitValue c = Some (Z.of_nat (nat_of_ascii c) - 48)
  /\ Z.of_nat (nat_of_ascii c) - 48 < 10.
Proof.
  unfold JS.isDigit, JS.digitValue. cbv zeta. intros H. rewrite H.
  split; [reflexivity|]. apply andb_prop in H. destruct H as [_ H].
  apply Z.leb_le in H. lia.
Qed.

Lemma digitsValue_decimal s : forall acc,
  JS.allDigits s = true ->
  fold_left (fun a d => a * 10 + d) (JS.digitsPrefix 10 s) acc = JS.decimalValue acc s.
Proof.
  induction s as [|c s IH]; intros acc H; simpl in *; [reflexivity|].
  apply andb_prop in H. destruct H as [Hc Hs].
  destruct (digitValue_digit c Hc) as [-> Hlt].
  apply Z.ltb_lt in Hlt. rewrite Hlt. simpl. apply IH, Hs.
Qed.

Lemma parseDigits_decimal s :
  s <> EmptyString -> JS.allDigits s = true ->
  JS.parseDigits 10 s = Some (JS.decimalValue 0 s).
Proof.
  intros Hne H. unfold JS.parseDigits, JS.digitsValue.
  rewrite <- (digitsValue_decimal s 0 H).
  destruct s as [|c s]; [congruence|]. simpl in *.
  apply andb_prop in H. destruct H as [Hc _].
  destruct (digitValue_digit c Hc) as [-> Hlt].
  apply Z.ltb_lt in Hlt. rewrite Hlt. reflexivity.
Qed.

Lemma trimStart_digit c s :
  JS.isDigit c = true -> JS.trimStart (String c s) = String c s.
Proof.
  unfold JS.isDigit. cbv zeta. intros H. simpl. unfold JS.isWhiteSpace. cbv zeta.
  apply andb_prop in H. destruct H as [H1 H2].
  apply Z.leb_le in H1.
  replace ((9 <=? Z.of_nat (nat_of_ascii c)) && (Z.of_nat (nat_of_ascii c) <=? 13)) with false.
  - replace (Z.of_nat (nat_of_ascii c) =? 32) with false; [reflexivity|].
    symmetry. apply Z.eqb_neq. lia.
  - symmetry. apply andb_false_intro2. apply Z.leb_gt. lia.
Qed.

Lemma toDouble_safe n : JS.safeInteger n -> JS.toDouble n = n.
Proof.
  unfold JS.safeInteger, JS.toDouble. cbv zeta. intros H.
  destruct (Z.ltb_spec (Z.abs n) (2 ^ 53)) as [Hlt|Hge]; [reflexivity|].
  assert (Ha : Z.abs n = 2 ^ 53) by lia. rewrite Ha.
  destruct (Z.abs_eq_or_opp n) as [E|E]; rewrite E in Ha.
  - subst n. reflexivity.
  - assert (n = - 2 ^ 53) by lia. subst n. reflexivity.
Qed.

(** [parseInt(s, 10)] reads the decimal writing of an integer as the double
    nearest to it. *)
Lemma parseInt10_rounds s n :
  JS.IntegerText s n -> JS.parseInt10 s = Some (JS.toDouble n).
Proof.
  unfold JS.IntegerText, JS.parseInt10.
  destruct s as [|c r]; [intros [H _]; congruence|].
  destruct (Ascii.eqb_spec c "-"%char) as [->|Hc].
  - intros (Hne & Hd & ->). simpl.
    rewrite (parseDigits_decimal r Hne Hd). cbn [option_map]. do 2 f_equal; lia.
  - assert (Hgen : String c r <> EmptyString /\ JS.allDigits (String c r) = true
                   /\ n = JS.decimalValue 0 (String c r) ->
                   (let (sign, r0) := JS.stripSign (JS.trimStart (String c r)) in
                    option_map (fun v => JS.toDouble (sign * v)) (JS.parseDigits 10 r0))
                   = Some (JS.toDouble n)).
    { intros (Hne & Hd & ->).
      assert (Hdc : JS.isDigit c = true) by (simpl in Hd; apply andb_prop in Hd; tauto).
      rewrite (trimStart_digit c r Hdc).
      assert (Hs : JS.stripSign (String c r) = (1, String c r)).
      { unfold JS.stripSign.
        destruct c as [[] [] [] [] [] [] [] []]; try reflexivity; discriminate Hdc. }
      rewrite Hs. rewrite (parseDigits_decimal _ Hne Hd). cbn [option_map].
      do 2 f_equal; lia. }
    intros H. apply Hgen.
    destruct c as [[] [] [] [] [] [] [] []]; try exact H; congruence.
Qed.

(** [parseInt(s, 10)] reads the decimal writing of an integer that a double
    holds as that integer. *)
Lemma parseInt10_IntegerText s n :
  JS.IntegerText s n -> JS.safeInteger n -> JS.parseInt10 s = Some n.
Proof.
  intros Hs Hn. rewrite (parseInt10_rounds s n Hs). now rewrite toDouble_safe.
Qed.

(** ** xml-parser.ts *)

Section XMLParserFacts.

Import XMLParser.

(** An absent value has no child. *)
Lemma getChild_undefined name : getChild None name = None.
Proof. reflexivity. Qed.

(** C6, as the specification states it, fails: the empty string, which is
    the tree of an empty element, and the number 0 are scalars, and
    [ensureArray] gives the empty sequence for them. *)
Lemma ensureArray_falsy_scalar_counterexample :
  ensureArray (Some (XStr "")) = [] /\ ensureArray (Some (XStr "")) <> [XStr ""]
  /\ ensureArray (Some (XNum 0)) = [] /\ ensureArray (Some (XNum 0)) <> [XNum 0].
Proof. repeat split; try reflexivity; discriminate. Qed.

(** C6, amended: [ensureArray] gives the empty sequence for every falsy
    value ([undefined], [null], and the falsy scalars [''], [0], [false]),
    returns an array unchanged, and wraps every truthy value that is not an
    array into a one-element sequence. *)
Theorem ensureArray_spec (value : any) :
  (truthy value = false -> ensureArray value = [])
  /\ (forall items, value = Some (XArr items) -> ensureArray value = items)
  /\ (forall v, value = Some v -> truthy_xml v = true ->
      (forall items, v <> XArr items) -> ensureArray value = [v]).
Proof.
  split; [|split].
  - destruct value as [v|]; simpl; [intros ->|]; reflexivity.
  - intros items ->. reflexivity.
  - intros v -> Ht Hna. simpl. rewrite Ht. simpl.
    destruct v; try reflexivity. now elim (Hna items).
Qed.

Lemma ensureArray_spec_witness :
  ensureArray None = []
  /\ ensureArray (Some (XArr [XStr "a"; XStr ""])) = [XStr "a"; XStr ""]
  /\ ensureArray (Some (XObj [])) = [XObj []].
Proof.
  destruct (ensureArray_spec None) as (H1 & _ & _).
  destruct (ensureArray_spec (Some (XArr [XStr "a"; XStr ""]))) as (_ & H2 & _).
  destruct (ensureArray_spec (Some (XObj []))) as (_ & _ & H3).
  split; [|split].
  - apply H1. reflexivity.
  - apply H2. reflexivity.
  - apply H3; [reflexivity | reflexivity | discriminate].
Defined.

(** A modifier child whose [val] attribute is the decimal writing of an
    integer is read as the double nearest to that integer. *)
Lemma parseColorModifier_rounds clr name e v n :
  getChild (Some clr) name = Some e ->
  getAttr (Some e) "val" undefined = Some (XStr v) ->
  JS.IntegerText v n ->
  parseColorModifier (Some clr) name = Some (Some (JS.toDouble n)).
Proof.
  intros He Hv Hn. unfold parseColorModifier. rewrite He.
  assert (Hte : truthy (Some e) = true).
  { destruct (truthy (Some e)) eqn:E; [reflexivity|].
    unfold getAttr in Hv. simpl in E. rewrite E in Hv. discriminate. }
  rewrite Hte, Hv. simpl.
  assert (Hne : (v =? "")%string = false).
  { destruct v; [destruct Hn as [H _]; congruence | reflexivity]. }
  rewrite Hne. simpl. now rewrite (parseInt10_rounds v n Hn).
Qed.

(** It is read as that integer when a double holds it. *)
Lemma parseColorModifier_raw clr name e v n :
  getChild (Some clr) name = Some e ->
  getAttr (Some e) "val" undefined = Some (XStr v) ->
  JS.IntegerText v n ->
  JS.safeInteger n ->
  parseColorModifier (Some clr) name = Some (Some n).
Proof.
  intros He Hv Hn Hs. rewrite (parseColorModifier_rounds clr name e v n He Hv Hn).
  now rewrite toDouble_safe.
Qed.

Lemma modifierOf_withModifiers t v clr name :
  In name modifierNames ->
  modifierOf (withModifiers t v clr) name = parseColorModifier clr name.
Proof.
  unfold modifierNames. simpl.
  intros [<-|[<-|[<-|[<-|[<-|[<-|[]]]]]]]; reflexivity.
Qed.

(** [parseColor] builds its result from the color child with [withModifiers]. *)
Lemma parseColor_colorChild colorElement clr :
  colorChild colorElement = Some clr ->
  exists t v, parseColor colorElement = Some (withModifiers t v (Some clr)).
Proof.
  unfold colorChild, parseColor.
  destruct (truthy colorElement); simpl; [|discriminate].
  destruct (truthy (getChild colorElement "srgbClr")); [intros ->; eauto|].
  destruct (truthy (getChild colorElement "schemeClr")); [intros ->; eauto|].
  destruct (truthy (getChild colorElement "prstClr")); [intros ->; eauto|].
  destruct (truthy (getChild colorElement "hslClr")); [intros ->; eauto|].
  destruct (truthy (getChild colorElement "sysClr")); [intros ->|discriminate].
  destruct (truthy (getAttr (Some clr) "lastClr" undefined)); eauto.
Qed.




(** *** [getText] *)

Lemma join_empty_cons s l : JS.join "" (s :: l) = (s ++ JS.join "" l)%string.
Proof.
  unfold JS.join. destruct l as [|x l]; simpl; [|reflexivity].
  induction s as [|c s IH]; simpl; [reflexivity | now rewrite <- IH].
Qed.

Lemma append_empty_r s : (s ++ "")%string = s.
Proof. induction s as [|c s IH]; simpl; [reflexivity | now rewrite IH]. Qed.

Lemma join_empty_app a b :
  JS.join "" (a ++ b) = (JS.join "" a ++ JS.join "" b)%string.
Proof.
  induction a as [|s a IH]; [reflexivity|].
  cbn [app]. rewrite !join_empty_cons, IH.
  generalize (JS.join "" a) (JS.join "" b). intros x y.
  induction s as [|c s IHs]; simpl; [reflexivity | now rewrite IHs].
Qed.

(** Induction on a tree, with the items of an array. *)
Lemma xml_items_ind (P : xml -> Prop) :
  (forall s, P (XStr s)) -> (forall n, P (XNum n)) -> (forall b, P (XBool b)) ->
  (forall fields, P (XObj fields)) ->
  (forall items, Forall P items -> P (XArr items)) ->
  forall e, P e.
Proof.
  intros Hs Hn Hb Ho Ha.
  fix IH 1. intros [s|n|b|fields|items];
    [apply Hs | apply Hn | apply Hb | apply Ho | apply Ha].
  induction items as [|x items IHitems]; constructor; [apply IH | exact IHitems].
Qed.

Lemma textOf_valuesOf e :
  textOf e = JS.join "" (map textOf (valuesOf e))
  /\ Forall (fun v => isArray v = false) (valuesOf e).
Proof.
  revert e. apply xml_items_ind;
    try (intros ?; split; [cbn [valuesOf map]; rewrite join_empty_cons;
                                 now rewrite append_empty_r
                          | repeat constructor]).
  intros items IH. cbn [textOf valuesOf].
  induction IH as [|x items [Hx Hxv] _ IHitems]; [split; [reflexivity | constructor]|].
  destruct IHitems as [Ht Hv].
  cbn [map flat_map]. rewrite join_empty_cons, map_app, join_empty_app, <- Hx, Ht.
  split; [reflexivity|]. apply Forall_app. split; assumption.
Qed.

(** X1: [getText] joins the texts of an array in the order of its items, at
    any depth of arrays in arrays: the text of two arrays put together is
    the text of the first followed by the text of the second, and the text
    of a value is the texts of the values that are not arrays joined. Of
    these, a string is its own text and an object has the text of its
    [#text], printed ([String]) when it is a number or a boolean; a number or
    a boolean that stands by itself has no text, and neither has an object
    without [#text], whatever its children are. *)
Theorem getText_joins (e : xml) :
  (forall a b,
     getText (Some (XArr (a ++ b)))
     = (getText (Some (XArr a)) ++ getText (Some (XArr b)))%string)
  /\ getText (Some e) = JS.join "" (map (fun v => getText (Some v)) (valuesOf e))
  /\ Forall (fun v =>
               match v with
               | XStr s => getText (Some v) = s
               | XNum _ | XBool _ => getText (Some v) = ""
               | XObj fields =>
                   getText (Some v)
                   = match prop v "#text" with
                     | Some text => toString text
                     | None => ""
                     end
               | XArr _ => False
               end)
            (valuesOf e).
Proof.
  split; [|split].
  - intros a b. cbn [getText textOf]. now rewrite map_app, join_empty_app.
  - exact (proj1 (textOf_valuesOf e)).
  - destruct (textOf_valuesOf e) as [_ H].
    eapply Forall_impl; [|exact H]. intros [s|n|b|fields|items]; simpl;
      try reflexivity; discriminate.
Qed.

End XMLParserFacts.

(** ** theme-parser.ts *)

Section ThemeParserFacts.

Import XMLParser ThemeParser.

(** C2, as the specification states it, fails: for a scheme without an
    [accent3] child the slot is black, while the default Office palette has
    [#A5A5A5] there. *)
Lemma parseColorScheme_missing_accent3_counterexample :
  (parseColorScheme (Some schemeWithoutAccent3)).(colors).(accent3)
    = themeColor rgb (Text "#000000") None
  /\ ColorResolver.lookup "accent3" ColorResolver.DEFAULT_THEME_COLORS = Some "#A5A5A5"
  /\ (parseColorScheme (Some schemeWithoutAccent3)).(colors).(accent3).(value)
       <> Text "#A5A5A5".
Proof. split; [reflexivity | split; [reflexivity | discriminate]]. Qed.

Lemma slotColor_parseColorScheme clrScheme s :
  slotColor (parseColorScheme clrScheme).(colors) s
  = parseThemeColor clrScheme (slotName s).
Proof. destruct s; reflexivity. Qed.

(** C2, amended: each of the twelve slots of the color scheme is populated;
    a slot whose child element is missing or carries no recognized color is
    the opaque black [{ type: 'rgb', value: '#000000' }], whatever the slot;
    any other slot has the type, value and alpha of its parsed color. *)
Theorem parseColorScheme_slots (clrScheme : any) (s : Slot) :
  let slot := slotColor (parseColorScheme clrScheme).(colors) s in
  (getChild clrScheme (slotName s) = None -> slot = themeColor rgb (Text "#000000") None)
  /\ (parseColor (getChild clrScheme (slotName s)) = None ->
      slot = themeColor rgb (Text "#000000") None)
  /\ (forall c, parseColor (getChild clrScheme (slotName s)) = Some c ->
      slot = themeColor c.(type) c.(value) c.(alpha)).
Proof.
  cbv zeta. rewrite slotColor_parseColorScheme. unfold parseThemeColor.
  split; [|split].
  - intros ->. reflexivity.
  - intros ->. reflexivity.
  - intros c ->. reflexivity.
Qed.

Lemma parseColorScheme_slots_witness :
  slotColor (parseColorScheme (Some schemeWithoutAccent3)).(colors) Saccent3
    = themeColor rgb (Text "#000000") None
  /\ slotColor (parseColorScheme (Some schemeWithoutAccent3)).(colors) Saccent1
    = themeColor rgb (Text "#4472C4") None.
Proof.
  split.
  - apply (parseColorScheme_slots (Some schemeWithoutAccent3) Saccent3). reflexivity.
  - destruct (parseColorScheme_slots (Some schemeWithoutAccent3) Saccent1) as (_ & _ & H).
    exact (H _ eq_refl).
Defined.

(** *** The fonts *)

Lemma fold_supplementalOf fonts : forall acc,
  fold_left (fun acc font => acc ++ supplementalOf font) fonts acc
  = acc ++ flat_map supplementalOf fonts.
Proof.
  induction fonts as [|font fonts IH]; intros acc; simpl.
  - now rewrite app_nil_r.
  - rewrite IH. now rewrite <- app_assoc.
Qed.

Lemma intOrUndefined_not_zero font name : intOrUndefined font name <> Some 0.
Proof.
  unfold intOrUndefined. destruct (JS.parseInt10 _) as [n|]; [|discriminate].
  destruct (Z.eqb_spec n 0); [discriminate | congruence].
Qed.



End ThemeParserFacts.

(** ** animation-controller.ts *)

Section AnimationControllerFacts.

Import Animation AnimationController.

(** [addStep] appends one step. *)
Lemma addStep_app steps ns : addStep steps ns = steps ++ addStep [] ns.
Proof. reflexivity. Qed.

Lemma fold_addStep cs : forall steps,
  fold_left (fun st child => addStep st [child]) cs steps
  = steps ++ map (fun child => mkStep [child] (targetIdsOf [child])) cs.
Proof.
  induction cs as [|c cs IH]; intros steps; simpl.
  - now rewrite app_nil_r.
  - rewrite IH. unfold addStep. now rewrite <- app_assoc.
Qed.

Lemma processNode_app steps n : processNode steps n = steps ++ stepsOf n.
Proof.
  unfold stepsOf, processNode.
  destruct (type n); try (now rewrite app_nil_r); try reflexivity.
  - destruct (children n); [reflexivity | now rewrite app_nil_r].
  - destruct (children n); [|now rewrite app_nil_r].
    rewrite (fold_addStep l steps), (fold_addStep l []). reflexivity.
Qed.

Lemma processSequence_app ns : forall steps,
  processSequence steps ns = steps ++ flat_map stepsOf ns.
Proof.
  unfold processSequence.
  induction ns as [|n ns IH]; intros steps; simpl.
  - now rewrite app_nil_r.
  - rewrite IH, processNode_app. now rewrite <- app_assoc.
Qed.

(** C1, as the specification states it, fails. For a [sequence] node whose
    children are an effect and a [parallel] of three effects, the code
    gives two steps of one node each (the second is the [parallel] node
    itself), where the algorithm of the specification gives a second step of
    three members; and a [set] leaf gives no step at all. *)
Lemma buildSteps_not_recursive_counterexample :
  let e := leafNode effect 1 in
  let p := groupOf parallel [leafNode effect 2; leafNode effect 3; leafNode effect 4] in
  let n := groupOf sequence [e; p] in
  map nodes (buildSteps (slideOf [n])) = [[e]; [p]]
  /\ flatten n = [[e]; [leafNode effect 2; leafNode effect 3; leafNode effect 4]]
  /\ map nodes (buildSteps (slideOf [n])) <> flatten n
  /\ buildSteps (slideOf [leafNode set 5]) = []
  /\ flatten (leafNode set 5) = [[leafNode set 5]].
Proof.
  cbv zeta.
  split; [reflexivity|]. split; [reflexivity|]. split; [discriminate|].
  split; reflexivity.
Qed.

(** C1, amended: the flattening is one pass over the children of each
    top-level sequence, without recursion. A [sequence] node gives one step
    per direct child, in order, each holding that child as it is; a
    [parallel] node gives exactly one step whose members are its direct
    children; an [effect] or [animate] node gives one step of its own; a
    node of another type, or a group without children, gives no step. In
    particular, for a top-level sequence whose two children are an [effect]
    or [animate] leaf and a [parallel] node with three children,
    [buildSteps] gives exactly two steps, the second with these three
    members. *)
Theorem buildSteps_one_level :
  (forall steps ns, processSequence steps ns = steps ++ flat_map stepsOf ns)
  /\ (forall n,
        stepsOf n =
        match n.(type), n.(children) with
        | sequence, Some cs => map (fun c => mkStep [c] (targetIdsOf [c])) cs
        | parallel, Some cs => [mkStep cs (targetIdsOf cs)]
        | effect, _ | animate, _ => [mkStep [n] (targetIdsOf [n])]
        | _, _ => []
        end)
  /\ (forall first p a b c,
        first.(type) = effect \/ first.(type) = animate ->
        p.(type) = parallel -> p.(children) = Some [a; b; c] ->
        map nodes (buildSteps (slideOf [first; p])) = [[first]; [a; b; c]]).
Proof.
  split; [|split].
  - intros steps ns. apply processSequence_app.
  - intros n. unfold stepsOf, processNode.
    destruct (type n), (children n); try reflexivity.
    apply (fold_addStep l []).
  - intros first p a b c Hf Hp Hc. unfold buildSteps, slideOf.
    cbn [timing sequenceList seq_children fold_left].
    rewrite processSequence_app. cbn [flat_map app].
    unfold stepsOf, processNode. rewrite Hp, Hc.
    destruct Hf as [-> | ->]; reflexivity.
Qed.

Lemma buildSteps_one_level_witness :
  map nodes (buildSteps (slideOf
    [leafNode effect 1;
     groupOf parallel [leafNode effect 2; leafNode set 3; leafNode animate 4]]))
  = [[leafNode effect 1]; [leafNode effect 2; leafNode set 3; leafNode animate 4]].
Proof.
  destruct buildSteps_one_level as (_ & _ & H).
  apply H; [left; reflexivity | reflexivity | reflexivity].
Defined.

Lemma next_runs c :
  isAnimating c = false -> (currentStep c < List.length (steps c))%nat ->
  next c = ((S (currentStep c) <? List.length (steps c))%nat,
            mkController (slides c) (currentSlide c) (S (currentStep c)) (steps c) false).
Proof.
  intros Ha Hlt. unfold next, nextBegin.
  replace (List.length (steps c) <=? currentStep c)%nat with false
    by (symmetry; apply Nat.leb_gt; exact Hlt).
  rewrite Ha.
  destruct (nth_error (steps c) (currentStep c)) eqn:E; [reflexivity|].
  apply nth_error_None in E. lia.
Qed.

Lemma next_at_the_end c :
  (List.length (steps c) <= currentStep c)%nat -> next c = (false, c).
Proof.
  intros Hle. unfold next, nextBegin.
  replace (List.length (steps c) <=? currentStep c)%nat with true
    by (symmetry; apply Nat.leb_le; exact Hle).
  reflexivity.
Qed.

Lemma nexts_play k : forall c,
  isAnimating c = false -> (currentStep c <= List.length (steps c))%nat ->
  fst (nexts k c)
  = map (fun j => (S (currentStep c + j) <? List.length (steps c))%nat) (seq 0 k)
  /\ snd (nexts k c)
     = mkController (slides c) (currentSlide c)
         (Nat.min (currentStep c + k) (List.length (steps c))) (steps c) false.
Proof.
  induction k as [|k IH]; intros c Ha Hle.
  - simpl. rewrite Nat.add_0_r, Nat.min_l by exact Hle.
    split; [reflexivity|]. destruct c; simpl in *. now subst.
  - cbn [nexts]. destruct (Nat.eq_dec (currentStep c) (List.length (steps c))) as [He|Hne].
    + rewrite next_at_the_end by lia.
      destruct (IH c Ha Hle) as [H1 H2].
      destruct (nexts k c) as [answers c'']. simpl in *. subst. split.
      * rewrite <- seq_shift, map_map. f_equal.
        -- symmetry. apply Nat.ltb_ge. lia.
        -- apply map_ext_in. intros j _.
           transitivity false; [apply Nat.ltb_ge; lia | symmetry; apply Nat.ltb_ge; lia].
      * f_equal. lia.
    + rewrite next_runs by (try exact Ha; lia).
      destruct (IH (mkController (slides c) (currentSlide c) (S (currentStep c))
                                 (steps c) false) eq_refl) as [H1 H2];
        [cbn [currentStep steps]; lia|].
      destruct (nexts k _) as [answers c'']. cbn [fst snd] in *.
      cbn [currentStep steps slides currentSlide] in H1, H2. subst. split.
      * cbn [map seq]. rewrite <- seq_shift, map_map. f_equal.
        -- now rewrite Nat.add_0_r.
        -- apply map_ext. intros j. now rewrite Nat.add_succ_r.
      * f_equal. lia.
Qed.

Lemma played_rest k : forall c,
  isAnimating c = false ->
  played k c = firstn k (skipn (currentStep c) (steps c)).
Proof.
  induction k as [|k IH]; intros c Ha; [reflexivity|].
  cbn [played]. unfold nextBegin. rewrite Ha.
  destruct (Nat.leb_spec (List.length (steps c)) (currentStep c)) as [Hle|Hlt].
  - rewrite (IH c Ha), skipn_all2 by exact Hle. now rewrite !firstn_nil.
  - destruct (nth_error (steps c) (currentStep c)) as [step|] eqn:E;
      [|apply nth_error_None in E; lia].
    cbn [nextEnd snd]. rewrite IH by reflexivity. cbn [currentStep steps].
    destruct (nth_error_split _ _ E) as (before & rest & Hsteps & Hlen).
    rewrite Hsteps, <- Hlen.
    replace (S (List.length before)) with (List.length (before ++ [step]))
      by (rewrite length_app; cbn [List.length]; lia).
    replace (before ++ step :: rest) with ((before ++ [step]) ++ rest)
      by (now rewrite <- app_assoc).
    rewrite skipn_app, skipn_all, Nat.sub_diag. cbn [skipn app].
    rewrite <- app_assoc. cbn [app].
    rewrite skipn_app, skipn_all, Nat.sub_diag. reflexivity.
Qed.

(** X3: after [reset()], with no step playing, the calls of [next()], each
    awaited, play the steps of the current slide one after the other and
    once each: of [n] steps, the call number [j] (from 1) returns [true]
    exactly when [j < n], so the call that plays the last step and every
    call after it return [false]; after [k] calls the current step is the
    smaller of [k] and [n], the total stays [n], and [hasMoreSteps()] holds
    exactly when [k < n]; the steps played by [k] calls are the first [k]
    steps, in their order. *)
Theorem next_plays_each_step_once (c : Controller) (k : nat) :
  isAnimating c = false ->
  let n := List.length (steps (reset c)) in
  fst (nexts k (reset c)) = map (fun j => (S j <? n)%nat) (seq 0 k)
  /\ played k (reset c) = firstn k (steps (reset c))
  /\ getCurrentStep (snd (nexts k (reset c))) = Nat.min k n
  /\ getTotalSteps (snd (nexts k (reset c))) = n
  /\ hasMoreSteps (snd (nexts k (reset c))) = (k <? n)%nat.
Proof.
  intros Ha n.
  assert (Hr : isAnimating (reset c) = false /\ currentStep (reset c) = O).
  { unfold reset. destruct (slideAt c (currentSlide c)); simpl; auto. }
  destruct Hr as [Hra Hrs].
  destruct (nexts_play k (reset c) Hra) as [H1 H2]; [lia|].
  rewrite Hrs in *. simpl in *. fold n in H1, H2.
  split; [exact H1|].
  split; [now rewrite (played_rest k (reset c) Hra), Hrs|].
  rewrite H2. unfold getCurrentStep, getTotalSteps, hasMoreSteps.
  simpl. split; [reflexivity|]. split; [reflexivity|].
  destruct (Nat.ltb_spec k n) as [Hlt|Hge].
  - apply Nat.ltb_lt. lia.
  - apply Nat.ltb_ge. lia.
Qed.

Lemma next_plays_each_step_once_witness :
  let c := mkController
             [slideOf [leafNode effect 1; groupOf parallel [leafNode effect 2; leafNode effect 3]]]
             0 7 [] false in
  fst (nexts 3 (reset c)) = [true; false; false]
  /\ played 3 (reset c)
     = [mkStep [leafNode effect 1] [1];
        mkStep [leafNode effect 2; leafNode effect 3] [2; 3]]
  /\ getCurrentStep (snd (nexts 3 (reset c))) = 2%nat
  /\ getTotalSteps (snd (nexts 3 (reset c))) = 2%nat
  /\ hasMoreSteps (snd (nexts 3 (reset c))) = false.
Proof.
  cbv zeta.
  exact (next_plays_each_step_once
           (mkController
              [slideOf [leafNode effect 1;
                        groupOf parallel [leafNode effect 2; leafNode effect 3]]]
              0 7 [] false) 3 eq_refl).
Defined.

(** X4: [reset()] followed by [getStepCount(index)], as the renderer calls them
    when it shows a slide: the current step is 0 and the current slide of the
    controller is as before; when the slide at [index] has a sequence list,
    the steps are the steps of that slide and the count is their number;
    when there is no such slide, or it has no sequence list, the count is 0
    but the steps stay those that [reset()] built for the controller's own
    current slide. *)
Theorem reset_then_getStepCount (c : Controller) (index : Z) :
  let '(count, ready) := getStepCount index (reset c) in
  getCurrentStep ready = O
  /\ currentSlide ready = currentSlide c
  /\ match slideAt c index with
     | Some slide =>
         if hasSequenceList slide
         then count = List.length (buildSteps slide)
              /\ steps ready = buildSteps slide
              /\ getTotalSteps ready = count
         else count = O /\ steps ready = steps (reset c)
     | None => count = O /\ steps ready = steps (reset c)
     end.
Proof.
  unfold getStepCount.
  assert (Hs : slideAt (reset c) index = slideAt c index).
  { unfold slideAt. replace (slides (reset c)) with (slides c); [reflexivity|].
    unfold reset. now destruct (slideAt c (currentSlide c)). }
  assert (Hr : currentStep (reset c) = O /\ currentSlide (reset c) = currentSlide c).
  { unfold reset. destruct (slideAt c (currentSlide c)); split; reflexivity. }
  destruct Hr as [H0 H1]. rewrite Hs.
  destruct (slideAt c index) as [slide|]; [|repeat split; assumption].
  destruct (hasSequenceList slide); repeat split; assumption.
Qed.

End AnimationControllerFacts.

(** ** animation/timing-controller.ts *)

Section TimingControllerFacts.

Import Animation TimingController.

(** *** Numbers *)

Lemma add_assoc a b c : JS.add a (JS.add b c) = JS.add (JS.add a b) c.
Proof. destruct a, b, c; simpl; try reflexivity. now rewrite Z.add_assoc. Qed.

Lemma add_zero a : JS.add a (JS.Int 0) = a.
Proof. destruct a; simpl; [reflexivity|]. now rewrite Z.add_0_r. Qed.

Lemma leb_trans a b c :
  JS.leb a b = true -> JS.leb b c = true -> JS.leb a c = true.
Proof.
  destruct a, b, c; simpl; try discriminate.
  rewrite !Z.leb_le. lia.
Qed.

Lemma weight_nonneg numbers w : weight numbers = Some w -> 0 <= w.
Proof.
  revert w. induction numbers as [|[|n] numbers IH]; simpl; intros w.
  - intros [= <-]. lia.
  - discriminate.
  - destruct (weight numbers) as [w'|]; [|discriminate].
    intros [= <-]. specialize (IH w' eq_refl). lia.
Qed.

Lemma weight_app a b :
  weight (a ++ b)
  = match weight a, weight b with
    | Some x, Some y => Some (x + y)
    | _, _ => None
    end.
Proof.
  induction a as [|[|n] a IH]; simpl.
  - now destruct (weight b).
  - reflexivity.
  - rewrite IH. destruct (weight a), (weight b); try reflexivity.
    f_equal. lia.
Qed.

(** *** The sort *)

Lemma insert_perm {A} (cmp : A -> A -> JS.number) x l :
  Permutation (x :: l) (insert cmp x l).
Proof.
  induction l as [|y l IH]; simpl; [reflexivity|].
  destruct (notAfter cmp x y); [reflexivity|].
  rewrite perm_swap. now apply perm_skip.
Qed.

Lemma sort_perm {A} (cmp : A -> A -> JS.number) l : Permutation l (sort cmp l).
Proof.
  induction l as [|x l IH]; simpl; [reflexivity|].
  rewrite <- insert_perm. now apply perm_skip.
Qed.

Lemma insert_hdrel x y l :
  startsBefore y x -> HdRel startsBefore y l -> HdRel startsBefore y (insert byStartTime x l).
Proof.
  intros Hyx Hl. destruct l as [|z l]; simpl.
  - now constructor.
  - destruct (notAfter byStartTime x z); constructor; [exact Hyx|].
    now inversion Hl.
Qed.

(** Among items whose start times are not [NaN], the comparison is that of
    the order of the start times. *)
Lemma notAfter_timed x y :
  timed x -> timed y ->
  if notAfter byStartTime x y then startsBefore x y else startsBefore y x.
Proof.
  unfold timed, notAfter, byStartTime, startsBefore. intros Hx Hy.
  destruct (startTime x) as [|a]; [contradiction|].
  destruct (startTime y) as [|b]; [contradiction|]. simpl.
  destruct (Z.leb_spec (a - b) 0); apply Z.leb_le; lia.
Qed.

Lemma insert_sorted x l :
  timed x -> Forall timed l ->
  Sorted startsBefore l -> Sorted startsBefore (insert byStartTime x l).
Proof.
  intros Hx Hl Hs. induction Hs as [|y l Hs IH Hhd]; simpl.
  - repeat constructor.
  - inversion Hl as [|? ? Hy Hl']; subst.
    pose proof (notAfter_timed x y Hx Hy) as Hxy.
    destruct (notAfter byStartTime x y).
    + constructor; [now constructor|]. now constructor.
    + constructor; [now apply IH|]. now apply insert_hdrel.
Qed.

Lemma sort_sorted l : Forall timed l -> Sorted startsBefore (sort byStartTime l).
Proof.
  induction 1 as [|x l Hx Hl IH]; simpl; [constructor|].
  apply insert_sorted; [exact Hx | | exact IH].
  eapply Permutation_Forall; [apply sort_perm | exact Hl].
Qed.

Lemma startsBefore_trans : Relations_1.Transitive startsBefore.
Proof. intros a b c. unfold startsBefore. apply leb_trans. Qed.

(** *** Every item enters the timeline pending *)

Lemma addToTimeline_pending timeline n start dur :
  Forall isPending timeline -> Forall isPending (addToTimeline timeline n start dur).
Proof.
  intros H. unfold addToTimeline. apply Forall_app. split; [exact H|].
  repeat constructor.
Qed.

Lemma addSequential_pending cs : forall acc,
  Forall isPending (fst acc) -> Forall isPending (fst (fold_left addSequential cs acc)).
Proof.
  induction cs as [|c cs IH]; intros [timeline off] H; simpl; [exact H|].
  apply IH. simpl. now apply addToTimeline_pending.
Qed.

Lemma addParallel_pending start cs : forall acc,
  Forall isPending (fst acc) ->
  Forall isPending (fst (fold_left (addParallel start) cs acc)).
Proof.
  induction cs as [|c cs IH]; intros [timeline off] H; simpl; [exact H|].
  apply IH. simpl. now apply addToTimeline_pending.
Qed.

Lemma processNode_pending offset acc n :
  Forall isPending (fst acc) -> Forall isPending (fst (processNode offset acc n)).
Proof.
  destruct acc as [timeline maxEnd]. intros H. unfold processNode.
  set (start := JS.add offset (JS.Int (delayOf n))).
  assert (Hleaf : Forall isPending
            (fst (addToTimeline timeline n start (durationOf n),
                  JS.max maxEnd (JS.add start (durationOf n))))).
  { simpl. now apply addToTimeline_pending. }
  destruct (type n); try exact Hleaf; destruct (children n) as [cs|]; try exact Hleaf.
  - pose proof (addParallel_pending start cs (timeline, start) H) as Hp.
    destruct (fold_left (addParallel start) cs (timeline, start)). exact Hp.
  - pose proof (addSequential_pending cs (timeline, start) H) as Hp.
    destruct (fold_left addSequential cs (timeline, start)). exact Hp.
Qed.

Lemma processNodes_pending ns : forall timeline offset,
  Forall isPending timeline -> Forall isPending (fst (processNodes timeline ns offset)).
Proof.
  unfold processNodes. intros timeline offset.
  generalize offset at 2. revert timeline.
  induction ns as [|n ns IH]; intros timeline maxEnd H; cbn [fold_left]; [exact H|].
  pose proof (processNode_pending offset (timeline, maxEnd) n H) as Hn.
  destruct (processNode offset (timeline, maxEnd) n) as [t' m']. now apply IH.
Qed.

Lemma sequences_pending sequences : forall acc,
  Forall isPending (fst acc) ->
  Forall isPending
    (fst (fold_left
            (fun (acc : list TimelineItem * JS.number) s =>
               let '(timeline, currentOffset) := acc in
               processNodes timeline s.(seq_children) currentOffset)
            sequences acc)).
Proof.
  induction sequences as [|s sequences IH]; intros [timeline off] H;
    cbn [fold_left]; [exact H|].
  apply IH. now apply processNodes_pending.
Qed.

Lemma buildTimeline_unsorted sequences :
  buildTimeline (mkTiming (Some sequences)) = sort byStartTime (fst (unsorted sequences)).
Proof.
  unfold buildTimeline, unsorted. simpl.
  now destruct (fold_left _ sequences ([], JS.Int 0)).
Qed.

(** *** Where the items are placed *)

Lemma addSequential_places cs : forall timeline start,
  exists items,
    fold_left addSequential cs (timeline, start)
    = (timeline ++ items,
       JS.add start (fold_right JS.add (JS.Int 0) (map durationOf cs)))
    /\ map node items = cs
    /\ map item_duration items = map durationOf cs
    /\ backToBack start items.
Proof.
  induction cs as [|c cs IH]; intros timeline start; simpl.
  - exists []. rewrite app_nil_r, add_zero. repeat split.
  - unfold addToTimeline.
    destruct (IH (timeline ++ [mkItem (List.length timeline) start (durationOf c) c pending])
                 (JS.add start (durationOf c))) as (items & -> & Hn & Hd & Hb).
    exists (mkItem (List.length timeline) start (durationOf c) c pending :: items).
    rewrite <- app_assoc. simpl. rewrite Hn, Hd.
    split; [now rewrite add_assoc|]. repeat split. exact Hb.
Qed.

Lemma addParallel_places start cs : forall timeline m,
  exists items,
    fold_left (addParallel start) cs (timeline, m)
    = (timeline ++ items,
       fold_left JS.max (map (fun c => JS.add start (durationOf c)) cs) m)
    /\ map node items = cs
    /\ map item_duration items = map durationOf cs
    /\ Forall (fun it => it.(startTime) = start) items.
Proof.
  induction cs as [|c cs IH]; intros timeline m; simpl.
  - exists []. rewrite app_nil_r. repeat split. constructor.
  - unfold addToTimeline.
    destruct (IH (timeline ++ [mkItem (List.length timeline) start (durationOf c) c pending])
                 (JS.max m (JS.add start (durationOf c)))) as (items & -> & Hn & Hd & Hs).
    exists (mkItem (List.length timeline) start (durationOf c) c pending :: items).
    rewrite <- app_assoc. simpl. rewrite Hn, Hd.
    repeat split. constructor; [reflexivity | exact Hs].
Qed.

(** *** The numbers stay in range *)

(** The children of a [sequence], from the start [s0]: with durations that
    weigh [w], every item starts and ends within [w] of [s0], and so does
    the offset after the last; when no duration is negative, the items
    start at [s0] or later and end by that offset. *)
Lemma addSequential_range cs : forall timeline s0 w,
  weight (map durationOf cs) = Some w ->
  exists items e,
    fold_left addSequential cs (timeline, JS.Int s0) = (timeline ++ items, JS.Int e)
    /\ Z.abs (e - s0) <= w
    /\ Forall (fun it => exists s d,
                 spans it s d /\ Z.abs (s - s0) <= w /\ Z.abs (s + d - s0) <= w) items
    /\ (Forall (fun c => JS.leb (JS.Int 0) (durationOf c) = true) cs ->
        s0 <= e
        /\ Forall (fun it => exists s d, spans it s d /\ s0 <= s /\ s + d <= e) items).
Proof.
  induction cs as [|c cs IH]; intros timeline s0 w; simpl.
  - intros [= <-]. exists [], s0. rewrite app_nil_r.
    split; [reflexivity|]. split; [lia|]. split; [constructor|].
    intros _. split; [lia | constructor].
  - destruct (durationOf c) as [|d] eqn:Ed; [discriminate|].
    destruct (weight (map durationOf cs)) as [w'|] eqn:Ew; [|discriminate].
    intros [= <-]. pose proof (weight_nonneg _ _ Ew) as Hw'.
    unfold addToTimeline. simpl JS.add.
    destruct (IH (timeline ++ [mkItem (List.length timeline) (JS.Int s0) (JS.Int d) c pending])
                 (s0 + d) w' eq_refl) as (items & e & -> & He & Hitems & Hforward).
    exists (mkItem (List.length timeline) (JS.Int s0) (JS.Int d) c pending :: items), e.
    rewrite <- app_assoc. split; [reflexivity|]. split; [lia|]. split.
    + constructor.
      * exists s0, d. split; [split; reflexivity|]. lia.
      * eapply Forall_impl; [|exact Hitems]. simpl.
        intros it (s & d' & Hsp & H1 & H2). exists s, d'. split; [exact Hsp|]. lia.
    + intros Hnn. inversion Hnn as [|? ? Hd Hrest]; subst.
      rewrite Ed in Hd. simpl in Hd. apply Z.leb_le in Hd.
      destruct (Hforward Hrest) as [Hle Hall]. split; [lia|].
      constructor.
      * exists s0, d. split; [split; reflexivity|]. lia.
      * eapply Forall_impl; [|exact Hall]. simpl.
        intros it (s & d' & Hsp & H1 & H2). exists s, d'. split; [exact Hsp|]. lia.
Qed.

(** The children of a [parallel], all from the start [s0]. *)
Lemma addParallel_range cs : forall timeline s0 m w,
  weight (map durationOf cs) = Some w ->
  exists items m',
    fold_left (addParallel (JS.Int s0)) cs (timeline, JS.Int m) = (timeline ++ items, JS.Int m')
    /\ m <= m' <= Z.max m (s0 + w)
    /\ Forall (fun it => exists d,
                 spans it s0 d /\ Z.abs d <= w /\ s0 + d <= m') items.
Proof.
  induction cs as [|c cs IH]; intros timeline s0 m w; simpl.
  - intros [= <-]. exists [], m. rewrite app_nil_r.
    split; [reflexivity|]. split; [lia | constructor].
  - destruct (durationOf c) as [|d] eqn:Ed; [discriminate|].
    destruct (weight (map durationOf cs)) as [w'|] eqn:Ew; [|discriminate].
    intros [= <-]. pose proof (weight_nonneg _ _ Ew) as Hw'.
    unfold addToTimeline. simpl JS.add. simpl JS.max.
    destruct (IH (timeline ++ [mkItem (List.length timeline) (JS.Int s0) (JS.Int d) c pending])
                 s0 (Z.max m (s0 + d)) w' eq_refl) as (items & m' & -> & Hm & Hitems).
    exists (mkItem (List.length timeline) (JS.Int s0) (JS.Int d) c pending :: items), m'.
    rewrite <- app_assoc. split; [reflexivity|]. split; [lia|].
    constructor.
    + exists d. split; [split; reflexivity|]. lia.
    + eapply Forall_impl; [|exact Hitems]. simpl.
      intros it (d' & Hsp & H1 & H2). exists d'. split; [exact Hsp|]. lia.
Qed.

(** What one node adds, from the offset [o]: with numbers that weigh [w],
    items that start and end within [w] of [o]; the new end time is not
    before the old one and within [w] of [o] when it is new. A node that
    does not reach back in time adds items that start at [o] or later and
    end by the new end time. *)
Lemma processNode_range o timeline m n w :
  weight (numbersOf n) = Some w ->
  exists items m',
    processNode (JS.Int o) (timeline, JS.Int m) n = (timeline ++ items, JS.Int m')
    /\ m <= m' <= Z.max m (o + w)
    /\ Forall (fun it => exists s d,
                 spans it s d /\ Z.abs (s - o) <= w /\ Z.abs (s + d - o) <= w) items
    /\ (forward n ->
        Forall (fun it => exists s d, spans it s d /\ o <= s /\ s + d <= m') items).
Proof.
  revert w. unfold numbersOf, processNode, forward. simpl JS.add.
  set (start := o + delayOf n).
  assert (Hleaf : forall w,
            match weight [durationOf n] with
            | Some w' => Some (Z.abs (delayOf n) + w')
            | None => None
            end = Some w ->
            exists items m',
              (addToTimeline timeline n (JS.Int start) (durationOf n),
               JS.max (JS.Int m) (JS.add (JS.Int start) (durationOf n)))
              = (timeline ++ items, JS.Int m')
              /\ m <= m' <= Z.max m (o + w)
              /\ Forall (fun it => exists s d,
                           spans it s d /\ Z.abs (s - o) <= w
                           /\ Z.abs (s + d - o) <= w) items
              /\ (0 <= delayOf n /\ True ->
                  Forall (fun it => exists s d, spans it s d /\ o <= s /\ s + d <= m')
                         items)).
  { intros w. simpl. destruct (durationOf n) as [|d]; [discriminate|].
    intros [= <-]. unfold addToTimeline. simpl.
    eexists _, _. split; [reflexivity|]. subst start. split; [lia|]. split.
    - constructor; [|constructor]. exists (o + delayOf n), d.
      split; [split; reflexivity|]. lia.
    - intros [Hd _]. constructor; [|constructor]. exists (o + delayOf n), d.
      split; [split; reflexivity|]. lia. }
  destruct (type n) eqn:Et; destruct (children n) as [cs|] eqn:Ec; cbn [weight];
    try exact Hleaf; intros w.
  - (* parallel *)
    destruct (weight (map durationOf cs)) as [w'|] eqn:Hw'; [|discriminate].
    intros [= <-].
    destruct (addParallel_range cs timeline start start w' Hw')
      as (items & m' & -> & Hm & Hitems).
    pose proof (weight_nonneg _ _ Hw') as Hnn.
    exists items, (Z.max m m'). simpl JS.max. split; [reflexivity|].
    subst start. split; [lia|]. split.
    + eapply Forall_impl; [|exact Hitems]. simpl.
      intros it (d & Hsp & H1 & H2). exists (o + delayOf n), d. split; [exact Hsp|]. lia.
    + intros [Hd _]. eapply Forall_impl; [|exact Hitems]. simpl.
      intros it (d & Hsp & H1 & H2). exists (o + delayOf n), d. split; [exact Hsp|]. lia.
  - (* sequence *)
    destruct (weight (map durationOf cs)) as [w'|] eqn:Hw'; [|discriminate].
    intros [= <-].
    destruct (addSequential_range cs timeline start w' Hw')
      as (items & e & -> & He & Hitems & Hforward).
    exists items, (Z.max m e). simpl JS.max. split; [reflexivity|].
    subst start. split; [lia|]. split.
    + eapply Forall_impl; [|exact Hitems]. simpl.
      intros it (s & d & Hsp & H1 & H2). exists s, d. split; [exact Hsp|]. lia.
    + intros [Hd Hcs]. destruct (Hforward Hcs) as [Hle Hall].
      eapply Forall_impl; [|exact Hall]. simpl.
      intros it (s & d & Hsp & H1 & H2). exists s, d. split; [exact Hsp|]. lia.
Qed.

Lemma processNodes_range ns o : forall timeline m w,
  weight (flat_map numbersOf ns) = Some w ->
  exists items m',
    fold_left (processNode (JS.Int o)) ns (timeline, JS.Int m) = (timeline ++ items, JS.Int m')
    /\ m <= m' <= Z.max m (o + w)
    /\ Forall (fun it => exists s d,
                 spans it s d /\ Z.abs (s - o) <= w /\ Z.abs (s + d - o) <= w) items
    /\ (Forall forward ns ->
        Forall (fun it => exists s d, spans it s d /\ o <= s /\ s + d <= m') items).
Proof.
  induction ns as [|n ns IH]; intros timeline m w; cbn [fold_left flat_map].
  - intros [= <-]. exists [], m. rewrite app_nil_r. split; [reflexivity|].
    split; [lia|]. split; [constructor|]. intros _. constructor.
  - rewrite weight_app.
    destruct (weight (numbersOf n)) as [w1|] eqn:E1; [|discriminate].
    destruct (weight (flat_map numbersOf ns)) as [w2|] eqn:E2; [|discriminate].
    intros [= <-].
    pose proof (weight_nonneg _ _ E1) as Hw1. pose proof (weight_nonneg _ _ E2) as Hw2.
    destruct (processNode_range o timeline m n w1 E1) as (items1 & m1 & -> & Hm1 & H1 & F1).
    destruct (IH (timeline ++ items1) m1 w2 eq_refl) as (items2 & m2 & -> & Hm2 & H2 & F2).
    exists (items1 ++ items2), m2. rewrite app_assoc. split; [reflexivity|].
    split; [lia|]. split.
    + apply Forall_app. split; (eapply Forall_impl; [|eassumption]); simpl;
        intros it (s & d & Hsp & Ha & Hb); exists s, d; (split; [exact Hsp|]); lia.
    + intros Hf. inversion Hf as [|? ? Hn Hrest]; subst.
      apply Forall_app. split.
      * eapply Forall_impl; [|exact (F1 Hn)]. simpl.
        intros it (s & d & Hsp & Ha & Hb). exists s, d. split; [exact Hsp|]. lia.
      * exact (F2 Hrest).
Qed.

(** The sequences, one after another from the offset [o]. *)
Lemma sequences_range sequences : forall timeline o w,
  0 <= o ->
  weight (numbersOfSequences sequences) = Some w ->
  let r := fold_left
             (fun (acc : list TimelineItem * JS.number) s =>
                let '(timeline, currentOffset) := acc in
                processNodes timeline s.(seq_children) currentOffset)
             sequences (timeline, JS.Int o) in
  exists items e,
    r = (timeline ++ items, JS.Int e)
    /\ o <= e <= o + w
    /\ Forall (fun it => exists s d,
                 spans it s d /\ Z.abs s <= o + w /\ Z.abs (s + d) <= o + w) items
    /\ (Forall (fun s => Forall forward s.(seq_children)) sequences ->
        Forall (fun it => exists s d, spans it s d /\ o <= s /\ s + d <= e) items).
Proof.
  unfold numbersOfSequences.
  induction sequences as [|q sequences IH]; intros timeline o w Ho;
    cbn [fold_left flat_map].
  - intros [= <-]. exists [], o. rewrite app_nil_r. split; [reflexivity|].
    split; [lia|]. split; [constructor|]. intros _. constructor.
  - rewrite weight_app.
    destruct (weight (flat_map numbersOf (seq_children q))) as [w1|] eqn:E1; [|discriminate].
    destruct (weight (flat_map _ sequences)) as [w2|] eqn:E2; [|discriminate].
    intros [= <-].
    pose proof (weight_nonneg _ _ E1) as Hw1. pose proof (weight_nonneg _ _ E2) as Hw2.
    unfold processNodes at 2.
    destruct (processNodes_range (seq_children q) o timeline o w1 E1)
      as (items1 & m1 & -> & Hm1 & H1 & F1).
    destruct (IH (timeline ++ items1) m1 w2 ltac:(lia) eq_refl)
      as (items2 & e & Hrun & He & H2 & F2).
    cbv zeta in Hrun. rewrite Hrun.
    exists (items1 ++ items2), e. rewrite app_assoc. split; [reflexivity|].
    split; [lia|]. split.
    + apply Forall_app. split; (eapply Forall_impl; [|eassumption]); simpl;
        intros it (s & d & Hsp & Ha & Hb); exists s, d; (split; [exact Hsp|]); lia.
    + intros Hf. inversion Hf as [|? ? Hq Hrest]; subst.
      apply Forall_app. split.
      * eapply Forall_impl; [|exact (F1 Hq)]. simpl.
        intros it (s & d & Hsp & Ha & Hb). exists s, d. split; [exact Hsp|]. lia.
      * eapply Forall_impl; [|exact (F2 Hrest)]. simpl.
        intros it (s & d & Hsp & Ha & Hb). exists s, d. split; [exact Hsp|]. lia.
Qed.

(** With numbers in range, every item of the timeline starts and ends at an
    integer that a double holds. *)
Lemma unsorted_safe sequences :
  inRange (numbersOfSequences sequences) ->
  Forall (fun it => safe it.(startTime) /\ safe (endOf it)) (fst (unsorted sequences)).
Proof.
  unfold inRange.
  destruct (weight (numbersOfSequences sequences)) as [w|] eqn:Ew; [|contradiction].
  intros Hw.
  destruct (sequences_range sequences [] 0 w ltac:(lia) Ew) as (items & e & Hrun & _ & H & _).
  cbv zeta in Hrun. unfold unsorted. rewrite Hrun. simpl.
  eapply Forall_impl; [|exact H]. simpl.
  intros it (s & d & [Hs Hd] & H1 & H2). unfold endOf. rewrite Hs, Hd. simpl.
  unfold JS.safeInteger. split; lia.
Qed.

Lemma safe_timed it : safe it.(startTime) -> timed it.
Proof. unfold safe, timed. now destruct (startTime it). Qed.




(** *** The events of a run *)

Lemma eventsOf_app i a b : eventsOf i (a ++ b) = eventsOf i a ++ eventsOf i b.
Proof. unfold eventsOf. now rewrite filter_app, map_app. Qed.

(** The events of the item at place [k] name the place [k]. *)
Lemma eventsOf_tickItem k time it i :
  eventsOf i (snd (tickItem k time it))
  = if Nat.eqb k i then map ev_type (snd (tickItem k time it)) else [].
Proof.
  unfold tickItem, eventsOf.
  destruct (state it);
    repeat match goal with |- context [if reached ?a ?b then _ else _] =>
             destruct (reached a b) end;
    simpl; destruct (Nat.eqb k i); reflexivity.
Qed.

Lemma tickItems_events time items : forall k i,
  eventsOf i (snd (tickItems k time items))
  = if (k <=? i)%nat
    then match nth_error items (i - k) with
         | Some it => map ev_type (snd (tickItem i time it))
         | None => []
         end
    else [].
Proof.
  induction items as [|it items IH]; intros k i; simpl.
  - destruct (k <=? i)%nat; [|reflexivity]. now destruct (i - k)%nat.
  - destruct (tickItem k time it) as [it' events] eqn:E.
    destruct (tickItems (S k) time items) as [rest' events'] eqn:E'.
    simpl. rewrite eventsOf_app.
    replace events with (snd (tickItem k time it)) by now rewrite E.
    replace events' with (snd (tickItems (S k) time items)) by now rewrite E'.
    rewrite eventsOf_tickItem, IH.
    destruct (Nat.eqb_spec k i) as [->|Hne].
    + rewrite Nat.leb_refl, Nat.sub_diag.
      replace (S i <=? i)%nat with false by (symmetry; apply Nat.leb_gt; lia).
      cbn [nth_error]. now rewrite app_nil_r.
    + cbn [app]. destruct (Nat.leb_spec k i) as [Hle|Hgt].
      * replace (S k <=? i)%nat with true by (symmetry; apply Nat.leb_le; lia).
        replace (i - k)%nat with (S (i - S k)) by lia. reflexivity.
      * replace (S k <=? i)%nat with false by (symmetry; apply Nat.leb_gt; lia).
        reflexivity.
Qed.

Lemma tickItems_items time items : forall k j,
  nth_error (fst (tickItems k time items)) j
  = option_map (fun it => fst (tickItem (k + j) time it)) (nth_error items j).
Proof.
  induction items as [|it items IH]; intros k j; simpl.
  - now destruct j.
  - destruct (tickItem k time it) as [it' events] eqn:E.
    destruct (tickItems (S k) time items) as [rest' events'] eqn:E'.
    destruct j as [|j]; simpl.
    + now rewrite Nat.add_0_r, E.
    + replace rest' with (fst (tickItems (S k) time items)) by now rewrite E'.
      rewrite IH. now rewrite Nat.add_succ_r.
Qed.

(** One frame more at the beginning of a run. *)
Lemma lifecycle_step i time it rest :
  lifecycle (state (fst (tickItem i time it))) rest ->
  lifecycle (state it) (map ev_type (snd (tickItem i time it)) ++ rest).
Proof.
  unfold tickItem. destruct (state it) eqn:Es.
  - destruct (reached time (startTime it)); simpl.
    + intros [n [-> | ->]]; right; exists n; [left | right]; reflexivity.
    + rewrite Es. exact (fun H => H).
  - destruct (reached time (JS.add (startTime it) (item_duration it))); simpl.
    + intros ->. exists O. right. reflexivity.
    + rewrite Es. intros [n [-> | ->]]; exists (S n); [left | right]; reflexivity.
  - simpl. rewrite Es. exact (fun H => H).
Qed.

Lemma ticks_lifecycle times : forall c i it,
  nth_error c.(timeline) i = Some it ->
  lifecycle it.(state) (eventsOf i (snd (ticks times c))).
Proof.
  induction times as [|time times IH]; intros c i it Hit; simpl.
  - unfold eventsOf. simpl. destruct (state it); [left | exists O; left |]; reflexivity.
  - unfold tick. destruct (isRunning c); simpl.
    + destruct (tickItems 0 time (timeline c)) as [items events] eqn:E.
      set (c' := mkController items time (negb (forallb isCompleted items))).
      specialize (IH c' i (fst (tickItem i time it))).
      destruct (ticks times c') as [c'' events'] eqn:E'. simpl in *.
      rewrite eventsOf_app.
      replace events with (snd (tickItems 0 time (timeline c))) by now rewrite E.
      rewrite tickItems_events. simpl. rewrite Nat.sub_0_r, Hit.
      apply lifecycle_step. apply IH.
      replace items with (fst (tickItems 0 time (timeline c))) by now rewrite E.
      rewrite tickItems_items, Hit. reflexivity.
    + specialize (IH c i it Hit).
      destruct (ticks times c) as [c'' events']. exact IH.
Qed.

Lemma ticks_elsewhere times : forall c i,
  nth_error c.(timeline) i = None -> eventsOf i (snd (ticks times c)) = [].
Proof.
  induction times as [|time times IH]; intros c i Hit; simpl; [reflexivity|].
  unfold tick. destruct (isRunning c); simpl.
  - destruct (tickItems 0 time (timeline c)) as [items events] eqn:E.
    set (c' := mkController items time (negb (forallb isCompleted items))).
    specialize (IH c' i).
    destruct (ticks times c') as [c'' events'] eqn:E'. simpl in *.
    rewrite eventsOf_app.
    replace events with (snd (tickItems 0 time (timeline c))) by now rewrite E.
    rewrite tickItems_events. simpl. rewrite Nat.sub_0_r, Hit. simpl. apply IH.
    replace items with (fst (tickItems 0 time (timeline c))) by now rewrite E.
    rewrite tickItems_items, Hit. reflexivity.
  - specialize (IH c i Hit). destruct (ticks times c) as [c'' events']. exact IH.
Qed.

(** X5: in a run of frames (one [tick] per reading of the clock, whatever the
    readings are), the events of an item of the timeline follow its life: an
    item that is pending sees nothing, or one [start], then [update]s, and
    after the last of them at most one [complete]; a [complete] comes only
    after an [update], so never in the frame of the [start]; an item that
    is running sees [update]s and at most one [complete] at the end; an item
    that is completed sees nothing. No event names a place outside the
    timeline. *)
Theorem tick_lifecycle (times : list Q) (c : Controller) (i : nat) :
  match nth_error c.(timeline) i with
  | Some it => lifecycle it.(state) (eventsOf i (snd (ticks times c)))
  | None => eventsOf i (snd (ticks times c)) = []
  end.
Proof.
  destruct (nth_error (timeline c) i) as [it|] eqn:E.
  - now apply ticks_lifecycle.
  - now apply ticks_elsewhere.
Qed.

(** *** [seek] *)

(** A maximum that is not [NaN] is that of numbers none of which is. *)
Lemma fold_max_Int l : forall m T,
  fold_left JS.max l m = JS.Int T ->
  (exists mz, m = JS.Int mz /\ mz <= T)
  /\ Forall (fun x => exists xz, x = JS.Int xz /\ xz <= T) l.
Proof.
  induction l as [|x l IH]; intros m T; simpl.
  - intros ->. split; [exists T; split; [reflexivity | lia] | constructor].
  - intros H. destruct (IH _ _ H) as [(mz & Hm & Hle) Hall].
    destruct m as [|a]; [discriminate Hm|].
    destruct x as [|b]; [discriminate Hm|].
    simpl in Hm. injection Hm as <-. split.
    + exists a. split; [reflexivity | lia].
    + constructor; [|exact Hall]. exists b. split; [reflexivity | lia].
Qed.

(** No item ends after the total duration. *)
Lemma getTotalDuration_bound c it T :
  getTotalDuration c = JS.Int T ->
  In it c.(timeline) -> exists e, endOf it = JS.Int e /\ e <= T.
Proof.
  unfold getTotalDuration. destruct (timeline c) as [|first rest]; [intros _ []|].
  intros H. destruct (fold_max_Int _ _ _ H) as [Hfirst Hrest].
  intros [<-|Hin]; [exact Hfirst|].
  rewrite Forall_forall in Hrest. apply Hrest. now apply in_map.
Qed.

Lemma stateAt_set_state time s it : stateAt time (set_state s it) = stateAt time it.
Proof. reflexivity. Qed.

(** X6: [seek(time)] sets the state of every item from the time alone: what
    was done before ([seek], [stop], [pause]) does not show in the states or
    the current time. When no duration is negative, seeking to the total
    duration or later leaves every item completed and none active. *)
Theorem seek_sets_every_state (time : Q) (c : Controller) :
  (forall time', seek time (seek time' c) = seek time c)
  /\ seek time (stop c) = seek time (pause c)
  /\ (Forall (fun it => JS.leb (JS.Int 0) it.(item_duration) = true) c.(timeline) ->
      reached time (getTotalDuration c) = true ->
      Forall (fun it => it.(state) = completed) (seek time c).(timeline)
      /\ getActiveItems (seek time c) = []).
Proof.
  split; [|split].
  - intros time'. unfold seek. simpl. f_equal. rewrite map_map.
    apply map_ext. intros it. reflexivity.
  - unfold seek, stop, pause. simpl. f_equal. rewrite map_map.
    apply map_ext. intros it. reflexivity.
  - intros Hdur Htime.
    destruct (getTotalDuration c) as [|T] eqn:ET; [discriminate Htime|].
    simpl in Htime. apply Qle_bool_iff in Htime.
    assert (Hall : Forall (fun it => it.(state) = completed) (seek time c).(timeline)).
    { unfold seek. simpl. apply Forall_map. apply Forall_forall. intros it Hin.
      rewrite Forall_forall in Hdur. specialize (Hdur it Hin).
      destruct (getTotalDuration_bound c it T ET Hin) as (e & He & Hle).
      unfold endOf in He. simpl. unfold stateAt. rewrite He.
      destruct (startTime it) as [|s]; [discriminate He|].
      destruct (item_duration it) as [|d]; [discriminate He|].
      simpl in He, Hdur. injection He as <-. apply Z.leb_le in Hdur.
      unfold before, reached.
      assert (H1 : Qle_bool (inject_Z s) time = true).
      { apply Qle_bool_iff. eapply Qle_trans; [|exact Htime].
        rewrite <- Zle_Qle. lia. }
      assert (H2 : Qle_bool (inject_Z (s + d)) time = true).
      { apply Qle_bool_iff. eapply Qle_trans; [|exact Htime].
        rewrite <- Zle_Qle. lia. }
      now rewrite H1, H2. }
    split; [exact Hall|].
    unfold getActiveItems. induction Hall as [|it l Hit _ IH]; simpl; [reflexivity|].
    unfold isRunningItem at 1. now rewrite Hit.
Qed.

Lemma seek_sets_every_state_witness :
  let item start dur :=
    mkItem 0 (JS.Int start) (JS.Int dur) (mkNode effect None None None None) running in
  let c := mkController [item 0 800; item 800 200] 0%Q true in
  map state (seek (inject_Z 1000) c).(timeline) = [completed; completed]
  /\ getActiveItems (seek (inject_Z 1000) c) = [].
Proof.
  cbv zeta.
  destruct (seek_sets_every_state (inject_Z 1000)
              (mkController
                 [mkItem 0 (JS.Int 0) (JS.Int 800) (mkNode effect None None None None) running;
                  mkItem 0 (JS.Int 800) (JS.Int 200) (mkNode effect None None None None) running]
                 0%Q true)) as (_ & _ & H).
  destruct H as [Hall Hactive].
  - repeat constructor.
  - reflexivity.
  - split; [|exact Hactive]. reflexivity.
Defined.

(** X7: the children of a [sequence] node are put on the timeline back to
    back, the first at the offset plus the delay of the node, each with its
    own duration (500 when it has none) and whatever its own delay is; the
    children of a [parallel] node all start at the offset plus the delay of
    the node. In both cases the items are appended in the order of the
    children, one per child, and the node itself gets no item. *)
Theorem processNode_places_children (offset maxEndTime : JS.number)
  (timeline : list TimelineItem) (n : AnimationNode) (cs : list AnimationNode) :
  n.(children) = Some cs ->
  (n.(type) = sequence ->
   exists items,
     fst (processNode offset (timeline, maxEndTime) n) = timeline ++ items
     /\ map node items = cs
     /\ map item_duration items = map durationOf cs
     /\ backToBack (JS.add offset (JS.Int (delayOf n))) items)
  /\ (n.(type) = parallel ->
      exists items,
        fst (processNode offset (timeline, maxEndTime) n) = timeline ++ items
        /\ map node items = cs
        /\ map item_duration items = map durationOf cs
        /\ Forall (fun it => it.(startTime) = JS.add offset (JS.Int (delayOf n))) items).
Proof.
  intros Hcs. split; intros Ht; unfold processNode; rewrite Ht, Hcs.
  - destruct (addSequential_places cs timeline (JS.add offset (JS.Int (delayOf n))))
      as (items & -> & H).
    exists items. exact (conj eq_refl H).
  - destruct (addParallel_places (JS.add offset (JS.Int (delayOf n))) cs timeline
                (JS.add offset (JS.Int (delayOf n))))
      as (items & -> & H).
    exists items. exact (conj eq_refl H).
Qed.

Lemma processNode_places_children_witness :
  let a := mkNode effect None (Some (BeginString "5000"))
                  (Some (DurationNumber (JS.Int 800))) None in
  let b := mkNode effect None None None None in
  let c := mkNode effect None None (Some (DurationNumber (JS.Int 200))) None in
  let n := mkNode sequence (Some [a; b; c]) (Some (BeginString "300")) None None in
  map (fun it => (it.(startTime), it.(item_duration)))
      (fst (processNode (JS.Int 1000) ([], JS.Int 1000) n))
  = [(JS.Int 1300, JS.Int 800); (JS.Int 2100, JS.Int 500); (JS.Int 2600, JS.Int 200)].
Proof.
  cbv zeta.
  destruct (processNode_places_children (JS.Int 1000) (JS.Int 1000) []
              (mkNode sequence
                 (Some [mkNode effect None (Some (BeginString "5000"))
                          (Some (DurationNumber (JS.Int 800))) None;
                        mkNode effect None None None None;
                        mkNode effect None None (Some (DurationNumber (JS.Int 200))) None])
                 (Some (BeginString "300")) None None)
              _ eq_refl) as [H _].
  destruct (H eq_refl) as (items & -> & _ & Hd & Hb).
  destruct items as [|x [|y [|z [|]]]]; try discriminate Hd.
  simpl in Hd. injection Hd as Hx Hy Hz.
  simpl in Hb. destruct Hb as (Sx & Sy & Sz & _).
  simpl. rewrite Sx, Sy, Sz, Hx, Hy, Hz. reflexivity.
Defined.

(** *** The sequences follow one another *)

(** X8: the sequences of a slide follow one another: when the numbers of
    the timing are in range (no duration is [NaN], and the magnitudes of
    the delays and durations sum to [2^53] at most), and no delay and no
    duration of a child played in sequence is negative, every item of a
    sequence starts at or after the end of every item of the sequences
    before it. *)
Theorem sequences_follow_one_another (sequences : list AnimationSequence)
  (s : AnimationSequence) :
  Forall (fun s => Forall forward s.(seq_children)) (sequences ++ [s]) ->
  inRange (numbersOfSequences (sequences ++ [s])) ->
  exists new,
    fst (unsorted (sequences ++ [s])) = fst (unsorted sequences) ++ new
    /\ Forall (fun earlier =>
                 Forall (fun later => JS.leb (endOf earlier) later.(startTime) = true) new)
              (fst (unsorted sequences)).
Proof.
  intros Hf Hrange. apply Forall_app in Hf as [Hseqs Hs].
  inversion Hs as [|? ? Hs' _]; subst.
  unfold inRange, numbersOfSequences in Hrange.
  rewrite flat_map_app, weight_app in Hrange. cbn [flat_map] in Hrange.
  rewrite app_nil_r in Hrange.
  destruct (weight (flat_map _ sequences)) as [w1|] eqn:E1; [|contradiction].
  destruct (weight (flat_map numbersOf (seq_children s))) as [w2|] eqn:E2; [|contradiction].
  destruct (sequences_range sequences [] 0 w1 ltac:(lia) E1)
    as (items & e & Hrun & _ & _ & Hends).
  cbv zeta in Hrun. specialize (Hends Hseqs).
  unfold unsorted. rewrite fold_left_app, Hrun. cbn [fold_left fst app].
  unfold processNodes.
  destruct (processNodes_range (seq_children s) e items e w2 E2)
    as (new & m' & -> & _ & _ & Hnew).
  specialize (Hnew Hs'). exists new. split; [reflexivity|].
  eapply Forall_impl; [|exact Hends]. simpl.
  intros earlier (s1 & d1 & [Hs1 Hd1] & _ & He).
  eapply Forall_impl; [|exact Hnew]. simpl.
  intros later (s2 & d2 & [Hs2 _] & Hl & _).
  unfold endOf. rewrite Hs1, Hd1, Hs2. simpl. apply Z.leb_le. lia.
Qed.

Lemma sequences_follow_one_another_witness :
  let a := mkNode effect None None (Some (DurationNumber (JS.Int 800))) None in
  let b := mkNode effect None (Some (BeginString "100")) None None in
  let first := mkSequence false [mkNode parallel (Some [a; b]) None None None] in
  let second := mkSequence false [b] in
  exists new,
    fst (unsorted ([first] ++ [second])) = fst (unsorted [first]) ++ new
    /\ Forall (fun earlier =>
                 Forall (fun later => JS.leb (endOf earlier) later.(startTime) = true) new)
              (fst (unsorted [first])).
Proof.
  cbv zeta.
  apply (sequences_follow_one_another
           [mkSequence false
              [mkNode parallel
                 (Some [mkNode effect None None (Some (DurationNumber (JS.Int 800))) None;
                        mkNode effect None (Some (BeginString "100")) None None])
                 None None None]]
           (mkSequence false [mkNode effect None (Some (BeginString "100")) None None])).
  - repeat constructor; vm_compute; discriminate.
  - vm_compute. discriminate.
Defined.

End TimingControllerFacts.

(** ** Paths *)

Section PathFacts.

Import PPTXParser.

Lemma append_assoc (a b c : string) : ((a ++ b) ++ c = a ++ (b ++ c))%string.
Proof. induction a as [|x a IH]; simpl; [reflexivity | now rewrite IH]. Qed.

Lemma append_length (a b : string) :
  String.length (a ++ b) = (String.length a + String.length b)%nat.
Proof. induction a as [|x a IH]; simpl; [reflexivity | now rewrite IH]. Qed.

Lemma split_nonempty c s : JS.split c s <> [].
Proof.
  destruct s as [|a s]; simpl; [discriminate|].
  destruct (Ascii.eqb a c); [discriminate|].
  destruct (JS.split c s); discriminate.
Qed.

Lemma join_cons sep x y rest :
  JS.join sep (x :: y :: rest) = (x ++ sep ++ JS.join sep (y :: rest))%string.
Proof. reflexivity. Qed.

(** [split] and [join] are inverse of each other. *)
Lemma join_split s : JS.join "/" (JS.split "/" s) = s.
Proof.
  induction s as [|a s IH]; simpl; [reflexivity|].
  destruct (Ascii.eqb_spec a "/"%char) as [->|Ha].
  - pose proof (split_nonempty "/" s) as Hne.
    destruct (JS.split "/" s) as [|h t] eqn:E; [congruence|].
    rewrite join_cons, IH. reflexivity.
  - destruct (JS.split "/" s) as [|h t] eqn:E; [now elim (split_nonempty "/" s)|].
    destruct t as [|h' t].
    + simpl in *. now rewrite IH.
    + rewrite join_cons in *. rewrite <- IH. reflexivity.
Qed.

Lemma split_lacks c s : JS.lacks c s = true -> JS.split c s = [s].
Proof.
  induction s as [|a s IH]; simpl; [reflexivity|].
  intros H. apply andb_prop in H. destruct H as [Ha Hs].
  apply negb_true_iff in Ha. rewrite Ha, (IH Hs). reflexivity.
Qed.

Lemma split_app c a b :
  JS.lacks c a = true -> JS.split c (a ++ String c b) = a :: JS.split c b.
Proof.
  induction a as [|x a IH]; simpl.
  - intros _. now rewrite Ascii.eqb_refl.
  - intros H. apply andb_prop in H. destruct H as [Hx Ha].
    apply negb_true_iff in Hx. rewrite Hx, (IH Ha). reflexivity.
Qed.

Lemma split_join parts :
  parts <> [] -> Forall (fun p => JS.lacks "/" p = true) parts ->
  JS.split "/" (JS.join "/" parts) = parts.
Proof.
  induction parts as [|x parts IH]; [congruence|]. intros _ H.
  inversion H as [|? ? Hx Hrest]; subst.
  destruct parts as [|y parts].
  - simpl. now apply split_lacks.
  - rewrite join_cons. simpl String.append.
    rewrite (split_app "/" x _ Hx). f_equal. apply IH; [discriminate | exact Hrest].
Qed.

Lemma join_snoc parts l :
  parts <> [] -> JS.join "/" (parts ++ [l]) = (JS.join "/" parts ++ "/" ++ l)%string.
Proof.
  induction parts as [|x parts IH]; [congruence|]. intros _.
  destruct parts as [|y parts].
  - reflexivity.
  - change ((x :: y :: parts) ++ [l]) with (x :: (y :: parts) ++ [l]).
    simpl app. rewrite !join_cons.
    change (y :: parts ++ [l]) with ((y :: parts) ++ [l]).
    rewrite IH by discriminate.
    rewrite !append_assoc. reflexivity.
Qed.

(** *** [lastIndexOf] and [substring] *)

Lemma lastIndexOf_from_split s : forall i acc,
  JS.lastIndexOf_from "/" s i acc =
  match removelast (JS.split "/" s) with
  | [] => acc
  | levels => i + Z.of_nat (String.length (JS.join "/" levels))
  end.
Proof.
  induction s as [|a s IH]; intros i acc; simpl; [reflexivity|].
  pose proof (split_nonempty "/" s) as Hne.
  destruct (Ascii.eqb_spec a "/"%char) as [->|Ha].
  - rewrite IH. destruct (JS.split "/" s) as [|h t] eqn:E; [congruence|].
    change (removelast (EmptyString :: h :: t)) with (EmptyString :: removelast (h :: t)).
    destruct (removelast (h :: t)) as [|r rs].
    + simpl. lia.
    + cbv beta iota. cbn [String.append String.length]. lia.
  - rewrite IH. destruct (JS.split "/" s) as [|h t] eqn:E; [congruence|].
    destruct t as [|h' t]; [reflexivity|].
    change (removelast (String a h :: h' :: t)) with (String a h :: removelast (h' :: t)).
    change (removelast (h :: h' :: t)) with (h :: removelast (h' :: t)).
    destruct (removelast (h' :: t)) as [|r rs].
    + simpl. lia.
    + cbv beta iota. rewrite join_cons. cbn [String.append String.length]. lia.
Qed.

Lemma substring_prefix a b :
  String.substring 0 (String.length a) (a ++ b) = a.
Proof.
  induction a as [|x a IH]; simpl.
  - now destruct b.
  - now rewrite IH.
Qed.

Lemma js_substring_prefix a b :
  JS.substring (a ++ b) 0 (Z.of_nat (String.length a)) = a.
Proof.
  unfold JS.substring. cbv zeta.
  rewrite append_length.
  replace (Z.min (Z.max 0 0) _) with 0 by lia.
  replace (Z.min (Z.max (Z.of_nat (String.length a)) 0) _)
    with (Z.of_nat (String.length a)) by lia.
  replace (Z.min 0 (Z.of_nat (String.length a))) with 0 by lia.
  replace (Z.max 0 (Z.of_nat (String.length a))) with (Z.of_nat (String.length a)) by lia.
  rewrite Z.sub_0_r, Nat2Z.id. simpl Z.to_nat. apply substring_prefix.
Qed.

Lemma js_substring_none s : JS.substring s 0 (-1) = EmptyString.
Proof.
  unfold JS.substring. cbv zeta.
  replace (Z.min (Z.max 0 0) _) with 0 by lia.
  replace (Z.min (Z.max (-1) 0) _) with 0 by lia.
  simpl. now destruct s.
Qed.

(** [basePath.substring(0, basePath.lastIndexOf('/'))] is the directory of
    the part. *)
Lemma baseDir_directoryOf basePath :
  JS.substring basePath 0 (JS.lastIndexOf basePath "/") = directoryOf basePath.
Proof.
  unfold JS.lastIndexOf, directoryOf, directoryLevels.
  rewrite lastIndexOf_from_split.
  pose proof (join_split basePath) as Hjs.
  pose proof (split_nonempty "/" basePath) as Hne.
  destruct (exists_last Hne) as (levels & file & E). rewrite E in *.
  rewrite removelast_last.
  destruct levels as [|d ds].
  - apply js_substring_none.
  - rewrite join_snoc in Hjs by discriminate.
    rewrite <- Hjs at 1. rewrite Z.add_0_l. apply js_substring_prefix.
Qed.

(** *** The loop over the segments *)

Lemma resolveStep_up levels : resolveStep levels ".." = removelast levels.
Proof. reflexivity. Qed.

Lemma resolveStep_name levels segment :
  isName segment = true -> resolveStep levels segment = levels ++ [segment].
Proof.
  unfold isName, resolveStep. intros H.
  apply andb_prop in H. destruct H as [H Hup].
  apply andb_prop in H. destruct H as [_ Hdot].
  apply negb_true_iff in Hup. rewrite Hup, Hdot. reflexivity.
Qed.

Lemma fold_ups k : forall levels,
  fold_left resolveStep (repeat ".." k) levels
  = firstn (List.length levels - k) levels.
Proof.
  induction k as [|k IH]; intros levels; simpl.
  - now rewrite Nat.sub_0_r, firstn_all.
  - rewrite resolveStep_up, IH, removelast_firstn_len, firstn_firstn.
    rewrite length_firstn. f_equal. lia.
Qed.

Lemma fold_names segments : forall levels,
  Forall (fun s => isName s = true) segments ->
  fold_left resolveStep segments levels = levels ++ segments.
Proof.
  induction segments as [|s segments IH]; intros levels H; simpl.
  - now rewrite app_nil_r.
  - inversion H; subst. rewrite resolveStep_name by assumption.
    rewrite IH by assumption. now rewrite <- app_assoc.
Qed.

Lemma isName_lacks s : isName s = true -> JS.lacks "/" s = true.
Proof.
  unfold isName. intros H.
  apply andb_prop in H. destruct H as [H _].
  apply andb_prop in H. destruct H as [H _].
  apply andb_prop in H. tauto.
Qed.

Lemma startsWith_ups k rest :
  JS.startsWith (JS.join "/" (repeat ".." (S k) ++ rest)) ".." = true.
Proof.
  unfold JS.startsWith. simpl repeat. simpl app.
  destruct (repeat ".." k ++ rest); reflexivity.
Qed.

Lemma fold_left_pointwise {A B} (f g : A -> B -> A) l : forall a,
  (forall x y, f x y = g x y) -> fold_left f l a = fold_left g l a.
Proof.
  induction l as [|y l IH]; intros a H; simpl; [reflexivity|].
  rewrite H. now apply IH.
Qed.

(** A relative target made of [..] segments followed by names is resolved
    against the directory of the base part by dropping one level per [..]
    and appending the names. *)
Lemma resolvePath_up_then_names levels file k names :
  Forall (fun s => isName s = true) (levels ++ [file]) ->
  Forall (fun s => isName s = true) names ->
  resolvePath (JS.join "/" (levels ++ [file])) (JS.join "/" (repeat ".." (S k) ++ names))
  = JS.join "/" (firstn (List.length levels - S k) levels ++ names).
Proof.
  intros Hbase Hnames. unfold resolvePath.
  rewrite startsWith_ups. cbn [negb].
  rewrite (split_join (levels ++ [file])).
  2: { destruct levels; discriminate. }
  2: { eapply Forall_impl; [|exact Hbase]. apply isName_lacks. }
  rewrite removelast_last.
  rewrite (split_join (repeat ".." (S k) ++ names)).
  2: { discriminate. }
  2: { apply Forall_app. split.
       - apply Forall_forall. intros x Hx. apply repeat_spec in Hx. now subst.
       - eapply Forall_impl; [|exact Hnames]. apply isName_lacks. }
  rewrite fold_left_app, fold_ups, fold_names by exact Hnames. reflexivity.
Qed.

(** C3: [resolvePath] joins a target that does not start with [..] to the
    directory of the base part; for a target that starts with [..] it walks
    the segments of the target from the levels of that directory, a [..]
    dropping the last level, a [.] changing nothing, any other segment being
    appended, and joins what is left: a target of [..] segments followed by
    names ends above the directory by as many levels, followed by the names.
    In particular [../media/image1.png] from [ppt/slides/slide1.xml] is
    [ppt/media/image1.png]. *)
Theorem resolvePath_relative (basePath relativePath : string) :
  (JS.startsWith relativePath ".." = false ->
   resolvePath basePath relativePath = (directoryOf basePath ++ "/" ++ relativePath)%string)
  /\ (JS.startsWith relativePath ".." = true ->
      resolvePath basePath relativePath
      = JS.join "/" (fold_left
                       (fun levels segment =>
                          if (segment =? "..")%string then removelast levels
                          else if (segment =? ".")%string then levels
                          else levels ++ [segment])
                       (JS.split "/" relativePath) (directoryLevels basePath)))
  /\ (forall levels file k names,
        Forall (fun s => isName s = true) (levels ++ [file]) ->
        Forall (fun s => isName s = true) names ->
        basePath = JS.join "/" (levels ++ [file]) ->
        relativePath = JS.join "/" (repeat ".." (S k) ++ names) ->
        resolvePath basePath relativePath
        = JS.join "/" (firstn (List.length levels - S k) levels ++ names))
  /\ resolvePath "ppt/slides/slide1.xml" "../media/image1.png" = "ppt/media/image1.png".
Proof.
  split; [|split; [|split]].
  - intros H. unfold resolvePath. rewrite H. cbn [negb].
    now rewrite baseDir_directoryOf.
  - intros H. unfold resolvePath. rewrite H. cbn [negb]. f_equal.
    unfold directoryLevels. apply fold_left_pointwise.
    intros levels segment. unfold resolveStep.
    destruct (segment =? "..")%string; [reflexivity|].
    destruct (segment =? ".")%string; reflexivity.
  - intros levels file k names Hb Hn -> ->. now apply resolvePath_up_then_names.
  - reflexivity.
Qed.

Lemma resolvePath_relative_witness :
  resolvePath "ppt/slides/slide1.xml" "../media/image1.png"
  = JS.join "/" (firstn (2 - 1) ["ppt"; "slides"] ++ ["media"; "image1.png"])
  /\ resolvePath "ppt/slides/slide1.xml" "slide2.xml" = "ppt/slides/slide2.xml".
Proof.
  split.
  - destruct (resolvePath_relative "ppt/slides/slide1.xml" "../media/image1.png")
      as (_ & _ & H & _).
    apply (H ["ppt"; "slides"] "slide1.xml" 0%nat ["media"; "image1.png"]);
      [repeat constructor | repeat constructor | reflexivity | reflexivity].
  - destruct (resolvePath_relative "ppt/slides/slide1.xml" "slide2.xml") as (H & _).
    rewrite H; reflexivity.
Defined.

(** *** The relationships part of a part *)

Lemma split_snoc c a b :
  JS.lacks c b = true -> JS.split c (a ++ String c b) = JS.split c a ++ [b].
Proof.
  intros Hb. induction a as [|x a IH]; simpl.
  - rewrite Ascii.eqb_refl. now rewrite (split_lacks c b Hb).
  - rewrite IH. destruct (Ascii.eqb x c); [reflexivity|].
    pose proof (split_nonempty c a) as Hne.
    destruct (JS.split c a) as [|h t]; [congruence | reflexivity].
Qed.

(** X9: the relationships of a part are looked for beside it: for the part
    [file] of the directory [dir] (whatever its depth) in
    [dir/_rels/file.rels], and for a part at the top of the archive in
    [_rels/file.rels]. *)
Theorem getRelationshipsPath_beside (file : string) :
  JS.lacks "/" file = true ->
  (forall dir,
     getRelationshipsPath (dir ++ "/" ++ file) = (dir ++ "/_rels/" ++ file ++ ".rels")%string)
  /\ getRelationshipsPath file = ("_rels/" ++ file ++ ".rels")%string.
Proof.
  intros Hfile. split.
  - intros dir. unfold getRelationshipsPath. cbv zeta.
    change (dir ++ "/" ++ file)%string with (dir ++ String "/" file)%string.
    rewrite (split_snoc "/" dir file Hfile).
    rewrite last_last, removelast_last.
    change (JS.split "/" dir ++ ["_rels"; (file ++ ".rels")%string])
      with (JS.split "/" dir ++ ["_rels"] ++ [(file ++ ".rels")%string]).
    rewrite app_assoc.
    rewrite join_snoc by (intros E; apply app_eq_nil in E as [_ E]; discriminate).
    rewrite join_snoc by apply split_nonempty.
    rewrite join_split. rewrite !append_assoc. reflexivity.
  - unfold getRelationshipsPath. cbv zeta. rewrite (split_lacks "/" file Hfile).
    reflexivity.
Qed.

Lemma getRelationshipsPath_beside_witness :
  getRelationshipsPath "ppt/slides/slide1.xml" = "ppt/slides/_rels/slide1.xml.rels"
  /\ getRelationshipsPath "presentation.xml" = "_rels/presentation.xml.rels".
Proof.
  split.
  - destruct (getRelationshipsPath_beside "slide1.xml" eq_refl) as [H _].
    exact (H "ppt/slides").
  - destruct (getRelationshipsPath_beside "presentation.xml" eq_refl) as [_ H].
    exact H.
Defined.

End PathFacts.

(** ** relationship-parser.ts *)

Section RelationshipParserFacts.

Import RelationshipParser.

(** Keys that compare equal are equal. *)
Lemma sameValueZero_eq a b : JsMap.sameValueZero a b = true -> a = b.
Proof.
  destruct a, b; simpl; try discriminate; intros H.
  - apply String.eqb_eq in H. now subst.
  - apply Z.eqb_eq in H. now subst.
  - apply Bool.eqb_prop in H. now subst.
Qed.

Lemma sameValueZero_sym a b : JsMap.sameValueZero a b = JsMap.sameValueZero b a.
Proof.
  destruct a, b; simpl; try reflexivity.
  - apply String.eqb_sym.
  - apply Z.eqb_sym.
  - now destruct b, b0.
Qed.

Lemma get_set_same (m : Relationships) k v k' :
  JsMap.sameValueZero k k' = true -> get (set m k v) k' = Some v.
Proof.
  intros H. pose proof (sameValueZero_eq _ _ H) as <-.
  unfold get, set.
  induction m as [|[k0 v0] m IH]; simpl.
  - now rewrite H.
  - destruct (JsMap.sameValueZero k0 k) eqn:E; simpl; rewrite E; [reflexivity | exact IH].
Qed.

Lemma get_set_other (m : Relationships) k v k' :
  JsMap.sameValueZero k k' = false -> get (set m k v) k' = get m k'.
Proof.
  intros H. unfold get, set.
  induction m as [|[k0 v0] m IH]; simpl.
  - now rewrite H.
  - destruct (JsMap.sameValueZero k0 k) eqn:E; simpl.
    + pose proof (sameValueZero_eq _ _ E) as ->. now rewrite H.
    + now rewrite IH.
Qed.

Lemma get_snoc (m : Relationships) k v k' :
  get (m ++ [(k, v)]) k' =
  match get m k' with
  | Some x => Some x
  | None => if JsMap.sameValueZero k k' then Some v else None
  end.
Proof.
  unfold get. induction m as [|[k0 v0] m IH]; simpl; [reflexivity|].
  destruct (JsMap.sameValueZero k0 k'); [reflexivity | exact IH].
Qed.

Lemma get_setAll entries : forall m k,
  get (setAll m entries) k =
  match get (rev entries) k with
  | Some v => Some v
  | None => get m k
  end.
Proof.
  unfold setAll.
  induction entries as [|[k0 v0] entries IH]; intros m k; simpl; [reflexivity|].
  rewrite IH, get_snoc.
  destruct (get (rev entries) k); [reflexivity|].
  destruct (JsMap.sameValueZero k0 k) eqn:E.
  - now apply get_set_same.
  - now apply get_set_other.
Qed.

Lemma set_length (m : Relationships) k v :
  (List.length (set m k v) <= S (List.length m))%nat.
Proof.
  unfold set. induction m as [|[k0 v0] m IH]; simpl; [lia|].
  destruct (JsMap.sameValueZero k0 k); simpl; lia.
Qed.

Lemma setAll_length entries : forall m,
  (List.length (setAll m entries) <= List.length m + List.length entries)%nat.
Proof.
  unfold setAll.
  induction entries as [|[k0 v0] entries IH]; intros m; simpl; [lia|].
  specialize (IH (set m k0 v0)). pose proof (set_length m k0 v0). lia.
Qed.

Lemma set_fresh (m : Relationships) k v :
  Forall (fun e => JsMap.sameValueZero (fst e) k = false) m -> set m k v = m ++ [(k, v)].
Proof.
  unfold set. induction 1 as [|[k0 v0] m H0 _ IH]; simpl; [reflexivity|].
  simpl in H0. rewrite H0. now rewrite IH.
Qed.

Lemma setAll_distinct entries : forall m,
  distinctKeys entries ->
  Forall (fun e => Forall (fun e' => JsMap.sameValueZero (fst e') (fst e) = false) m) entries ->
  setAll m entries = m ++ entries.
Proof.
  unfold setAll.
  induction entries as [|[k0 v0] entries IH]; intros m Hd Hm; simpl.
  - now rewrite app_nil_r.
  - destruct Hd as [Hk0 Hd]. inversion Hm as [|? ? Hm0 Hrest]; subst. simpl in Hm0.
    rewrite set_fresh by exact Hm0.
    rewrite IH; [now rewrite <- app_assoc | exact Hd |].
    rewrite Forall_forall in *. intros e He.
    apply Forall_app. split; [now apply Hrest|].
    constructor; [|constructor]. simpl. now apply Hk0.
Qed.

(** The loop of [parse] sets the entries of the elements that have an [Id]. *)
Lemma addRelationship_withId rels : forall m,
  fold_left addRelationship rels m = setAll m (withId rels).
Proof.
  unfold setAll, withId.
  induction rels as [|rel rels IH]; intros m; simpl; [reflexivity|].
  rewrite fold_left_app, IH. f_equal.
  unfold addRelationship, entryOf. fold (idOf rel).
  destruct (idOf rel) as [i|]; [|reflexivity].
  destruct (truthy_xml i); reflexivity.
Qed.

(** C9, as the specification states it, fails: two elements that have the
    same [Id] give one entry, not one each, and the entry has the target of
    the second only. *)
Lemma parse_same_id_counterexample :
  List.length (withId (relList (Some twiceRId1))) = 2%nat
  /\ parse (Some twiceRId1) "ppt/presentation.xml"
     = [(XStr "rId1", mkRel (XStr "slides/slide2.xml") (XStr "slide"))].
Proof. split; reflexivity. Qed.

(** C9, amended: the map holds one entry per distinct [Id] among the
    [Relationship] elements whose [Id] is present and not empty: the entry
    under an [Id] has the target and type of the last element with that
    [Id], and an [Id] no element has is not a key; when no two of these
    elements have the same [Id], the map is exactly their entries in the
    order of the document, one per element. An element whose [Id] is absent
    or empty leaves the map as it is; [parse] only returns the map: it
    records no warning and raises no error. *)
Theorem parse_by_id (doc : any) (basePath : string) :
  let entries := withId (relList doc) in
  (forall k, get (parse doc basePath) k = JsMap.get JsMap.sameValueZero (rev entries) k)
  /\ (List.length (parse doc basePath) <= List.length entries)%nat
  /\ (distinctKeys entries -> parse doc basePath = entries)
  /\ (forall m rel, truthy (idOf rel) = false -> addRelationship m rel = m).
Proof.
  cbv zeta. unfold parse. rewrite addRelationship_withId.
  split; [|split; [|split]].
  - intros k. rewrite get_setAll. fold (get (rev (withId (relList doc))) k).
    now destruct (get (rev (withId (relList doc))) k).
  - apply (setAll_length (withId (relList doc)) []).
  - intros Hd. apply (setAll_distinct _ [] Hd).
    apply Forall_forall. intros e _. constructor.
  - intros m rel H. unfold addRelationship. fold (idOf rel).
    destruct (idOf rel) as [i|]; [|reflexivity]. simpl in H. now rewrite H.
Qed.

Lemma parse_by_id_witness :
  parse (Some threeRelationships) "ppt/presentation.xml"
  = [(XStr "rId1", mkRel (XStr "slides/slide1.xml") (XStr "slide"));
     (XStr "rId2", mkRel (XStr "slides/slide2.xml") (XStr "slide"))].
Proof.
  destruct (parse_by_id (Some threeRelationships) "ppt/presentation.xml")
    as (_ & _ & H & _).
  rewrite H; [reflexivity|].
  simpl. repeat split; repeat constructor.
Defined.

(** *** [parseToArray] and [getShortType] *)

Lemma fold_infoOf rels : forall acc,
  fold_left (fun relationships rel => relationships ++ infoOf rel) rels acc
  = acc ++ flat_map infoOf rels.
Proof.
  induction rels as [|rel rels IH]; intros acc; simpl.
  - now rewrite app_nil_r.
  - rewrite IH. now rewrite <- app_assoc.
Qed.

Lemma parseToArray_withId doc :
  map entryOfInfo (parseToArray doc) = withId (relList doc).
Proof.
  unfold parseToArray, withId. rewrite fold_infoOf. simpl.
  induction (relList doc) as [|rel rels IH]; simpl; [reflexivity|].
  rewrite map_app, IH. f_equal.
  unfold infoOf, idOf, entryOf.
  destruct (XMLParser.getAttr (Some rel) "Id" undefined) as [i|]; [|reflexivity].
  destruct (truthy_xml i); reflexivity.
Qed.

(** X10: [parseToArray] lists one entry for every [Relationship] element that
    has an [Id] (one that is not empty), in the order of the document, also
    when two elements have the same [Id]; [parse] is this list read as a
    map: [getById] gives, for an id, the target and type of the last entry
    listed with it; the map has no more entries than the list, and is the
    list itself when no id is listed twice. *)
Theorem parse_agrees_with_parseToArray (doc : any) (basePath : string) :
  let listed := map entryOfInfo (parseToArray doc) in
  (forall id, getById (parse doc basePath) id
              = JsMap.get JsMap.sameValueZero (rev listed) id)
  /\ (List.length (parse doc basePath) <= List.length (parseToArray doc))%nat
  /\ (distinctKeys listed -> parse doc basePath = listed)
  /\ Forall (fun info => truthy_xml info.(info_id) = true) (parseToArray doc).
Proof.
  cbv zeta. rewrite parseToArray_withId. unfold parse, getById.
  rewrite addRelationship_withId.
  split; [|split; [|split]].
  - intros k. rewrite get_setAll. fold (get (rev (withId (relList doc))) k).
    now destruct (get (rev (withId (relList doc))) k).
  - rewrite <- (length_map entryOfInfo), parseToArray_withId.
    apply (setAll_length (withId (relList doc)) []).
  - intros Hd. apply (setAll_distinct _ [] Hd).
    apply Forall_forall. intros e _. constructor.
  - unfold parseToArray. rewrite fold_infoOf. simpl.
    apply Forall_forall. intros info Hin. apply in_flat_map in Hin as (rel & _ & Hin).
    unfold infoOf in Hin.
    destruct (XMLParser.getAttr (Some rel) "Id" undefined) as [i|]; [|destruct Hin].
    destruct (truthy_xml i) eqn:E; [|destruct Hin].
    destruct Hin as [<-|[]]. exact E.
Qed.

Lemma parse_agrees_with_parseToArray_witness :
  map info_id (parseToArray (Some twiceRId1)) = [XStr "rId1"; XStr "rId1"]
  /\ getById (parse (Some twiceRId1) "ppt/presentation.xml") (XStr "rId1")
     = Some (mkRel (XStr "slides/slide2.xml") (XStr "slide"))
  /\ parse (Some threeRelationships) "ppt/presentation.xml"
     = map entryOfInfo (parseToArray (Some threeRelationships)).
Proof.
  split; [reflexivity|]. split.
  - destruct (parse_agrees_with_parseToArray (Some twiceRId1) "ppt/presentation.xml")
      as (H & _).
    rewrite H. reflexivity.
  - destruct (parse_agrees_with_parseToArray (Some threeRelationships)
                "ppt/presentation.xml") as (_ & _ & H & _).
    apply H. simpl. repeat split; repeat constructor.
Defined.

(** *** [getShortType] *)

(** X11: [getShortType] gives what follows the last slash of a type: the name
    [name] for [prefix/name]; a type without slash is its own short type;
    a type that ends in a slash is returned whole, since the part after the
    slash is empty. The short type is empty only for the empty type. *)
Theorem getShortType_last_segment (fullType : string) :
  (forall prefix name,
     JS.lacks "/" name = true -> name <> "" ->
     fullType = (prefix ++ "/" ++ name)%string -> getShortType fullType = name)
  /\ (JS.lacks "/" fullType = true -> getShortType fullType = fullType)
  /\ (forall prefix, fullType = (prefix ++ "/")%string -> getShortType fullType = fullType)
  /\ (getShortType fullType = "" <-> fullType = "").
Proof.
  split; [|split; [|split]].
  - intros prefix name Hl Hne ->. unfold getShortType. cbv zeta.
    change (prefix ++ "/" ++ name)%string with (prefix ++ String "/" name)%string.
    rewrite (split_snoc "/" prefix name Hl), last_last.
    apply String.eqb_neq in Hne. now rewrite Hne.
  - intros Hl. unfold getShortType. cbv zeta. rewrite (split_lacks "/" _ Hl). simpl.
    now destruct (fullType =? "")%string.
  - intros prefix ->. unfold getShortType. cbv zeta.
    change (prefix ++ "/")%string with (prefix ++ String "/" "")%string.
    rewrite (split_snoc "/" prefix "" eq_refl), last_last. reflexivity.
  - unfold getShortType. cbv zeta. split.
    + destruct (last (JS.split "/" fullType) "" =? "")%string eqn:E; [tauto|].
      intros H. rewrite H in E. discriminate E.
    + intros ->. reflexivity.
Qed.

Lemma getShortType_last_segment_witness :
  getShortType "http://schemas.openxmlformats.org/officeDocument/2006/relationships/slideLayout"
  = "slideLayout"
  /\ getShortType "slide" = "slide"
  /\ getShortType "relationships/" = "relationships/".
Proof.
  split; [|split].
  - destruct (getShortType_last_segment
                "http://schemas.openxmlformats.org/officeDocument/2006/relationships/slideLayout")
      as (H & _).
    apply (H "http://schemas.openxmlformats.org/officeDocument/2006/relationships");
      [reflexivity | discriminate | reflexivity].
  - destruct (getShortType_last_segment "slide") as (_ & H & _). apply H. reflexivity.
  - destruct (getShortType_last_segment "relationships/") as (_ & _ & H & _).
    apply (H "relationships"). reflexivity.
Defined.

(** *** [getByType] *)

Lemma prefix_iff p : forall s,
  String.prefix p s = true <-> exists b, s = (p ++ b)%string.
Proof.
  induction p as [|c p IH]; intros s; simpl.
  - split; [intros _; now exists s | intros _; now destruct s].
  - destruct s as [|d s]; [split; [discriminate | intros [b H]; discriminate H]|].
    destruct (Ascii.eqb_spec c d) as [->|Hne]; cbn.
    + destruct (ascii_dec d d) as [_|Hd]; [|congruence]. rewrite IH.
      split; intros [b H]; exists b; congruence.
    + destruct (ascii_dec c d) as [Hd|_]; [congruence|].
      split; [discriminate | intros [b H]; congruence].
Qed.

Lemma includes_iff p : forall s,
  JS.includes s p = true <-> exists a b, s = (a ++ p ++ b)%string.
Proof.
  induction s as [|d s IH]; cbn [JS.includes].
  - rewrite orb_false_r, prefix_iff. split.
    + intros [b H]. now exists "", b.
    + intros (a & b & H). destruct a; [now exists b|discriminate H].
  - rewrite orb_true_iff, prefix_iff, IH. split.
    + intros [[b H] | (a & b & H)]; [now exists "", b|].
      exists (String d a), b. simpl. now rewrite H.
    + intros (a & b & H). destruct a as [|x a]; [left; now exists b|].
      right. exists a, b. simpl in H. congruence.
Qed.

(** The last part of a string is in the string. *)
Lemma includes_last_split s : JS.includes s (last (JS.split "/" s) "") = true.
Proof.
  induction s as [|a s IH]; [reflexivity|].
  cbn [JS.split JS.includes]. apply orb_true_iff.
  pose proof (split_nonempty "/" s) as Hne.
  destruct (Ascii.eqb a "/").
  - right. destruct (JS.split "/" s) as [|h t] eqn:E; [congruence|]. exact IH.
  - destruct (JS.split "/" s) as [|h t] eqn:E; [congruence|].
    destruct t as [|h' t].
    + left. cbn [last]. pose proof (join_split s) as Hj. rewrite E in Hj.
      cbn in Hj. subst h. apply prefix_iff. exists "".
      now rewrite append_empty_r.
    + right. exact IH.
Qed.

Lemma getByType_strings relationships type :
  Forall (fun e => exists s, RelationshipParser.type (snd e) = XStr s) relationships ->
  exists results,
    getByType relationships type = Some results
    /\ forall id tgt,
         In (id, tgt) results
         <-> exists s, In (id, mkRel tgt (XStr s)) relationships
                       /\ JS.includes s type = true.
Proof.
  induction 1 as [|[id [relTarget relType]] rest [s Hs] _ (results & Hr & Hin)].
  - exists []. split; [reflexivity|]. intros id tgt. split; [intros [] | intros (s & [] & _)].
  - cbn in Hs. subst relType. cbn [getByType matchesType]. rewrite Hr. cbn [option_map].
    assert (Hm : ((s =? type)%string || JS.includes s type) = JS.includes s type).
    { destruct (String.eqb_spec s type) as [->|_]; [|reflexivity].
      symmetry. apply includes_iff. exists "", "". simpl.
      now rewrite append_empty_r. }
    rewrite Hm. eexists. split; [reflexivity|]. intros id' tgt.
    destruct (JS.includes s type) eqn:Ei; cbn [In]; rewrite Hin; split.
    + intros [[= <- <-] | (s' & Hs' & Hi)]; [exists s; split; [now left | exact Ei]|].
      exists s'. split; [now right | exact Hi].
    + intros (s' & [[= <- <- <-] | Hs'] & Hi); [now left|]. right. now exists s'.
    + intros (s' & Hs' & Hi). exists s'. split; [now right | exact Hi].
    + intros (s' & [[= <- <- <-] | Hs'] & Hi); [congruence|]. now exists s'.
Qed.

(** X12: [getByType] finds by containment, not by equality. When the types of
    the relationships are strings, it returns the id and target of exactly
    the relationships whose type contains the given text somewhere: so the
    last part of a full type ([getShortType]) finds every relationship of
    that full type, and [slide] also finds the relationships whose type ends
    in [slideLayout] or [slideMaster]. When a type is a number, a boolean
    or an object, the call throws. *)
Theorem getByType_by_containment (relationships : Relationships) (type : string) :
  Forall (fun e => exists s, RelationshipParser.type (snd e) = XStr s) relationships ->
  exists results,
    getByType relationships type = Some results
    /\ (forall id tgt,
          In (id, tgt) results
          <-> exists before after,
                In (id, mkRel tgt (XStr (before ++ type ++ after))) relationships)
    /\ (forall fullType id tgt,
          type = getShortType fullType ->
          In (id, mkRel tgt (XStr fullType)) relationships -> In (id, tgt) results).
Proof.
  intros H. destruct (getByType_strings relationships type H) as (results & Hr & Hin).
  exists results. split; [exact Hr|]. split.
  - intros id tgt. rewrite Hin. split.
    + intros (s & Hs & Hi). apply includes_iff in Hi as (a & b & ->). now exists a, b.
    + intros (a & b & Hs). eexists. split; [exact Hs|]. apply includes_iff. now exists a, b.
  - intros fullType id tgt -> Hf. apply Hin. exists fullType. split; [exact Hf|].
    unfold getShortType. cbv zeta.
    destruct (last (JS.split "/" fullType) "" =? "")%string.
    + apply includes_iff. exists "", "". simpl. now rewrite append_empty_r.
    + apply includes_last_split.
Qed.

Lemma getByType_by_containment_witness :
  exists results,
    getByType
      [(XStr "rId1", mkRel (XStr "slides/slide1.xml") (XStr "relationships/slide"));
       (XStr "rId2", mkRel (XStr "slideLayouts/slideLayout1.xml")
                       (XStr "relationships/slideLayout"))]
      "slide"
    = Some results
    /\ In (XStr "rId1", XStr "slides/slide1.xml") results
    /\ In (XStr "rId2", XStr "slideLayouts/slideLayout1.xml") results.
Proof.
  destruct (getByType_by_containment
              [(XStr "rId1", mkRel (XStr "slides/slide1.xml") (XStr "relationships/slide"));
               (XStr "rId2", mkRel (XStr "slideLayouts/slideLayout1.xml")
                               (XStr "relationships/slideLayout"))]
              "slide") as (results & Hr & Hin & Hshort).
  - repeat constructor; eexists; reflexivity.
  - exists results. split; [exact Hr|]. split.
    + apply (Hshort "relationships/slide"); [reflexivity | now left].
    + apply Hin. exists "relationships/", "Layout". right. now left.
Defined.

End RelationshipParserFacts.

(** ** color-resolver.ts: colors as text *)

Section ColorResolverFacts.

Import ColorResolver.

Lemma bytes_all n : 0 <= n <= 255 -> In n bytes.
Proof.
  intros H. unfold bytes. rewrite <- (Z2Nat.id n) by lia.
  apply in_map. apply in_seq. lia.
Qed.

Lemma allAscii_all c : In c allAscii.
Proof.
  unfold allAscii. rewrite <- (ascii_nat_embedding c).
  apply in_map. apply in_seq. pose proof (nat_ascii_bounded c). lia.
Qed.

Lemma twoDigits_bytes : forallb twoDigits bytes = true.
Proof. vm_compute. reflexivity. Qed.

Lemma toHex_byte n :
  0 <= n <= 255 ->
  exists c1 c2,
    toHex n = String c1 (String c2 EmptyString)
    /\ JS.isHexDigit c1 = true /\ JS.isHexDigit c2 = true
    /\ JS.parseInt16 (String c1 (String c2 EmptyString)) = Some n.
Proof.
  intros H. pose proof twoDigits_bytes as Hall.
  rewrite forallb_forall in Hall. specialize (Hall n (bytes_all n H)).
  unfold twoDigits in Hall.
  destruct (toHex n) as [|c1 [|c2 [|]]]; try discriminate Hall.
  apply andb_prop in Hall as [Hall Hv]. apply andb_prop in Hall as [H1 H2].
  destruct (JS.parseInt16 _) as [v|] eqn:Ep; [|discriminate Hv].
  apply Z.eqb_eq in Hv. subst v.
  exists c1, c2. split; [reflexivity|]. split; [exact H1|]. split; [exact H2 | exact Ep].
Qed.

Lemma toHex_clamp n : toHex n = toHex (clamp n).
Proof.
  unfold toHex. replace (clamp (clamp n)) with (clamp n) by (unfold clamp; lia).
  reflexivity.
Qed.

(** X13: what [rgbToHex] writes, [hexToRgb] reads back: for integers [r], [g]
    and [b], the three numbers brought into the range of a byte (a number
    below 0 as 0, a number above 255 as 255); so three bytes are read back
    as they are. *)
Theorem hexToRgb_rgbToHex (r g b : Z) :
  hexToRgb (rgbToHex r g b) = Some (mkRgb (clamp r) (clamp g) (clamp b))
  /\ (0 <= r <= 255 -> 0 <= g <= 255 -> 0 <= b <= 255 ->
      hexToRgb (rgbToHex r g b) = Some (mkRgb r g b)).
Proof.
  assert (H : hexToRgb (rgbToHex r g b) = Some (mkRgb (clamp r) (clamp g) (clamp b))).
  { unfold rgbToHex. rewrite (toHex_clamp r), (toHex_clamp g), (toHex_clamp b).
    destruct (toHex_byte (clamp r)) as (r1 & r2 & -> & Hr1 & Hr2 & Hr);
      [unfold clamp; lia|].
    destruct (toHex_byte (clamp g)) as (g1 & g2 & -> & Hg1 & Hg2 & Hg);
      [unfold clamp; lia|].
    destruct (toHex_byte (clamp b)) as (b1 & b2 & -> & Hb1 & Hb2 & Hb);
      [unfold clamp; lia|].
    cbn [String.append]. unfold hexToRgb. cbn [forallb].
    rewrite Hr1, Hr2, Hg1, Hg2, Hb1, Hb2, Hr, Hg, Hb. reflexivity. }
  split; [exact H|]. intros Hr Hg Hb. rewrite H. unfold clamp. f_equal. f_equal; lia.
Qed.

Lemma hexToRgb_rgbToHex_witness :
  hexToRgb (rgbToHex 68 114 196) = Some (mkRgb 68 114 196)
  /\ hexToRgb (rgbToHex 300 (-4) 7) = Some (mkRgb 255 0 7).
Proof.
  split.
  - destruct (hexToRgb_rgbToHex 68 114 196) as [_ H]. apply H; lia.
  - destruct (hexToRgb_rgbToHex 300 (-4) 7) as [H _]. exact H.
Defined.

Lemma readsBack_all :
  forallb (fun c1 => forallb (readsBack c1) allAscii) allAscii = true.
Proof. vm_compute. reflexivity. Qed.

Lemma parseInt16_digits c1 c2 :
  JS.isHexDigit c1 = true -> JS.isHexDigit c2 = true ->
  exists v,
    JS.parseInt16 (String c1 (String c2 EmptyString)) = Some v
    /\ 0 <= v <= 255
    /\ toHex v = String (JS.lowerChar c1) (String (JS.lowerChar c2) EmptyString).
Proof.
  intros H1 H2. pose proof readsBack_all as Hall.
  rewrite forallb_forall in Hall. specialize (Hall c1 (allAscii_all c1)).
  rewrite forallb_forall in Hall. specialize (Hall c2 (allAscii_all c2)).
  unfold readsBack in Hall. rewrite H1, H2 in Hall. simpl in Hall.
  destruct (JS.parseInt16 _) as [v|]; [|discriminate Hall].
  apply andb_prop in Hall as [Hall Hhex]. apply andb_prop in Hall as [Hlo Hhi].
  apply String.eqb_eq in Hhex. apply Z.leb_le in Hlo, Hhi.
  exists v. split; [reflexivity|]. split; [lia | exact Hhex].
Qed.

(** X14: a text that [hexToRgb] reads is read as three bytes, and [rgbToHex]
    writes them back as the same six digits, in lower case, after a [#]. *)
Theorem rgbToHex_hexToRgb (hex : string) (rgb : Rgb) :
  hexToRgb hex = Some rgb ->
  (0 <= rgb.(r) <= 255 /\ 0 <= rgb.(g) <= 255 /\ 0 <= rgb.(b) <= 255)
  /\ rgbToHex rgb.(r) rgb.(g) rgb.(b)
     = ("#" ++ JS.toLowerCase
                 (match hex with String "#" rest => rest | _ => hex end))%string.
Proof.
  unfold hexToRgb.
  set (digits := match hex with String "#" rest => rest | _ => hex end).
  destruct digits as [|r1 [|r2 [|g1 [|g2 [|b1 [|b2 [|]]]]]]]; try discriminate.
  cbn [forallb].
  destruct (JS.isHexDigit r1) eqn:Hr1; [|discriminate].
  destruct (JS.isHexDigit r2) eqn:Hr2; [|discriminate].
  destruct (JS.isHexDigit g1) eqn:Hg1; [|discriminate].
  destruct (JS.isHexDigit g2) eqn:Hg2; [|discriminate].
  destruct (JS.isHexDigit b1) eqn:Hb1; [|discriminate].
  destruct (JS.isHexDigit b2) eqn:Hb2; [|discriminate].
  cbn [andb].
  destruct (parseInt16_digits r1 r2 Hr1 Hr2) as (vr & -> & Hvr & Hxr).
  destruct (parseInt16_digits g1 g2 Hg1 Hg2) as (vg & -> & Hvg & Hxg).
  destruct (parseInt16_digits b1 b2 Hb1 Hb2) as (vb & -> & Hvb & Hxb).
  intros [= <-]. cbn [r g b]. split; [tauto|].
  unfold rgbToHex. rewrite Hxr, Hxg, Hxb. reflexivity.
Qed.

Lemma rgbToHex_hexToRgb_witness :
  rgbToHex 165 165 165 = "#a5a5a5" /\ rgbToHex 31 73 125 = "#1f497d".
Proof.
  split.
  - exact (proj2 (rgbToHex_hexToRgb "#A5A5A5" (mkRgb 165 165 165) eq_refl)).
  - exact (proj2 (rgbToHex_hexToRgb "1F497D" (mkRgb 31 73 125) eq_refl)).
Defined.

End ColorResolverFacts.

(** ** media-parser *)

Section MediaParserFacts.

Import MediaParser.

Lemma own_In key table v : JS.own key table = Some v -> In (key, v) table.
Proof.
  induction table as [|[k w] table IH]; simpl; [discriminate|].
  destruct (String.eqb_spec k key) as [->|Hne].
  - intros [= ->]. now left.
  - intros H. right. now apply IH.
Qed.

Lemma own_None key table : JS.own key table = None -> ~ In key (map fst table).
Proof.
  induction table as [|[k w] table IH]; simpl; [tauto|].
  destruct (String.eqb_spec k key) as [->|Hne]; [discriminate|].
  intros H [Hk|Hin]; [congruence | now apply IH].
Qed.

Lemma includes_In exts extension : includes exts extension = true -> In extension exts.
Proof.
  unfold includes. intros H. apply existsb_exists in H as (x & Hin & Hx).
  apply String.eqb_eq in Hx. now subst.
Qed.

Lemma includes_not_In exts extension : ~ In extension exts -> includes exts extension = false.
Proof.
  intros H. destruct (includes exts extension) eqn:E; [|reflexivity].
  now apply includes_In in E.
Qed.

(** X15: the two tables of the media parser agree. For every extension, the
    kind [getMediaType] gives and the MIME type [getMimeType] gives name the
    same family ([image], [video] or [audio]), and the kind is [unknown]
    exactly when the MIME type is the fallback [application/octet-stream].
    The one exception are the twelve names of the members of
    [Object.prototype] (such as [constructor]): for these the kind is
    [unknown], and [getMimeType] returns the inherited member, not a
    string. *)
Theorem getMediaType_agrees_with_getMimeType (extension : string) :
  match getMimeType extension with
  | JS.Own mime =>
      familyOf (getMediaType extension) = hd "" (JS.split "/" mime)
      /\ (getMediaType extension = unknown <-> mime = "application/octet-stream")
  | JS.Inherited name =>
      getMediaType extension = unknown /\ name = extension /\ In extension JS.objectPrototype
  | JS.Undefined => False
  end.
Proof.
  unfold getMimeType, JS.lookupOr, JS.lookup.
  destruct (JS.own extension MIME_TYPES) as [mime|] eqn:E.
  - apply own_In in E. unfold MIME_TYPES in E. simpl in E.
    repeat (destruct E as [E|E]; [injection E as <- <-; vm_compute; split; [reflexivity|split; discriminate]|]).
    destruct E.
  - apply own_None in E.
    assert (Hu : getMediaType extension = unknown).
    { unfold getMediaType.
      rewrite (includes_not_In imageExts), (includes_not_In videoExts),
        (includes_not_In audioExts); [reflexivity| | |];
        intros Hin; apply E; simpl in Hin |- *; tauto. }
    destruct (existsb (String.eqb extension) JS.objectPrototype) eqn:Ep.
    + split; [exact Hu|]. split; [reflexivity|]. now apply includes_In.
    + rewrite Hu. split; [reflexivity|]. tauto.
Qed.

(** X16: the extension of a path is what follows its last dot, in lower case,
    and is empty for a path without a dot. *)
Theorem getExtension_after_last_dot (ext : string) :
  JS.lacks "." ext = true ->
  JS.isAscii ext = true ->
  getExtension ext = ""
  /\ (forall name, getExtension (name ++ "." ++ ext) = JS.toLowerCase ext)
  /\ (forall name,
        (getMediaInfo (name ++ "." ++ ext)).(type) = getMediaType (JS.toLowerCase ext)
        /\ (getMediaInfo (name ++ "." ++ ext)).(mimeType) = getMimeType (JS.toLowerCase ext)).
Proof.
  intros Hdot _.
  assert (Hext : forall name, getExtension (name ++ "." ++ ext) = JS.toLowerCase ext).
  { intros name. unfold getExtension. cbn [String.append].
    rewrite (split_snoc "." name ext Hdot), last_last.
    pose proof (split_nonempty "." name) as Hne.
    assert (H : (1 <? List.length (JS.split "." name ++ [ext]))%nat = true).
    { apply Nat.ltb_lt. rewrite length_app. cbn [List.length].
      destruct (JS.split "." name); [congruence | cbn [List.length]; lia]. }
    now rewrite H. }
  split; [|split].
  - unfold getExtension. now rewrite (split_lacks "." ext Hdot).
  - exact Hext.
  - intros name. unfold getMediaInfo. cbn [type mimeType]. now rewrite Hext.
Qed.

Lemma getExtension_after_last_dot_witness :
  getExtension "ppt/media/image1.PNG" = "png"
  /\ (getMediaInfo "ppt/media/image1.PNG").(type) = image
  /\ getExtension "PNG" = "".
Proof.
  destruct (getExtension_after_last_dot "PNG" eq_refl eq_refl) as (H0 & H1 & H2).
  split; [exact (H1 "ppt/media/image1")|].
  split; [exact (proj1 (H2 "ppt/media/image1")) | exact H0].
Defined.

(** *** The lazy loader and the media parser *)

Lemma split_dot_length c s :
  JS.lacks c s = false -> (1 < List.length (JS.split c s))%nat.
Proof.
  induction s as [|a s IH]; simpl; [discriminate|].
  pose proof (split_nonempty c s) as Hne.
  destruct (Ascii.eqb a c); simpl.
  - intros _. destruct (JS.split c s); [congruence | simpl; lia].
  - intros H. specialize (IH H).
    destruct (JS.split c s) as [|h t]; [congruence | exact IH].
Qed.

(** X17: the lazy loader and the media parser give a path with a dot the same
    MIME type, except for the seven extensions that only the media parser
    knows ([ico], [webm], [mkv], [flv], [ogg], [flac], [aac]), for which the
    lazy loader falls back to [application/octet-stream]. (A path without
    a dot is left out: there the lazy loader takes the whole path as the
    extension, the media parser none.) *)
Theorem lazy_getMimeType_agrees (path : string) :
  JS.lacks "." path = false ->
  JS.isAscii path = true ->
  getExtension path = ResourceLazyLoader.extensionOf path
  /\ (ResourceLazyLoader.getMimeType path = getMimeType (getExtension path)
      \/ (In (getExtension path) ResourceLazyLoader.unknownHere
          /\ ResourceLazyLoader.getMimeType path = JS.Own "application/octet-stream")).
Proof.
  intros Hdot _.
  assert (Hext : getExtension path = ResourceLazyLoader.extensionOf path).
  { unfold getExtension, ResourceLazyLoader.extensionOf.
    apply (split_dot_length "." path) in Hdot. apply Nat.ltb_lt in Hdot.
    now rewrite Hdot. }
  split; [exact Hext|]. rewrite Hext.
  unfold ResourceLazyLoader.getMimeType, getMimeType.
  generalize (ResourceLazyLoader.extensionOf path). intros ext.
  unfold JS.lookupOr, JS.lookup.
  destruct (JS.own ext ResourceLazyLoader.mimeTypes) as [mime|] eqn:E.
  - left. apply own_In in E. unfold ResourceLazyLoader.mimeTypes in E. simpl in E.
    repeat (destruct E as [E|E]; [injection E as <- <-; reflexivity|]).
    destruct E.
  - destruct (JS.own ext MIME_TYPES) as [mime|] eqn:E'; [|now left].
    apply own_In in E'. unfold MIME_TYPES in E'. simpl in E'.
    repeat (destruct E' as [E'|E'];
            [injection E' as <- <-;
             first [ discriminate E
                   | right; split; [simpl; tauto | reflexivity] ]|]).
    destruct E'.
Qed.

Lemma lazy_getMimeType_agrees_witness :
  ResourceLazyLoader.getMimeType "ppt/media/image1.PNG" = JS.Own "image/png"
  /\ getMimeType (getExtension "ppt/media/image1.PNG") = JS.Own "image/png"
  /\ ResourceLazyLoader.getMimeType "ppt/media/sound1.ogg"
     = JS.Own "application/octet-stream"
  /\ getMimeType (getExtension "ppt/media/sound1.ogg") = JS.Own "audio/ogg".
Proof.
  destruct (lazy_getMimeType_agrees "ppt/media/image1.PNG" eq_refl eq_refl) as [_ [H | [H _]]];
    [|vm_compute in H; tauto].
  destruct (lazy_getMimeType_agrees "ppt/media/sound1.ogg" eq_refl eq_refl) as [_ [H' | [_ H']]];
    [vm_compute in H'; discriminate H'|].
  split; [reflexivity|]. split; [rewrite <- H; reflexivity|].
  split; [exact H' | reflexivity].
Defined.

End MediaParserFacts.

(** ** animation-parser.ts *)

Section AnimationParserFacts.

Import Animation AnimationParser.

Context {readers : PropertyReaders}.

(** *** The depth of what the accessors return *)

Lemma depth_assoc k fields v :
  assoc k fields = Some v -> (depth v < depth (XObj fields))%nat.
Proof.
  simpl. induction fields as [|[k0 v0] fields IH]; simpl; [discriminate|].
  destruct (k0 =? k)%string.
  - intros [= ->]. lia.
  - intros H. specialize (IH H). lia.
Qed.

Lemma depth_prop e k v : prop e k = Some v -> (depth v < depth e)%nat.
Proof. destruct e; simpl; try discriminate. apply depth_assoc. Qed.

Lemma depth_firstPrefixed e name nss v :
  XMLParser.firstPrefixed e name nss = Some v -> (depth v < depth e)%nat.
Proof.
  induction nss as [|ns nss IH]; simpl; [discriminate|].
  destruct (prop e (ns ++ name)) eqn:E.
  - intros [= ->]. eapply depth_prop, E.
  - exact IH.
Qed.

Lemma depth_getChild element name v :
  XMLParser.getChild element name = Some v -> (depth v < depthOf element)%nat.
Proof.
  unfold XMLParser.getChild. destruct element as [e|]; [|discriminate].
  destruct (negb (truthy_xml e)); [discriminate|]. simpl depthOf.
  set (result := match prop e name with
                 | Some r => Some r
                 | None => XMLParser.firstPrefixed e (XMLParser.localNameOf name)
                             XMLParser.namespaces
                 end).
  assert (Hres : forall r, result = Some r -> (depth r < depth e)%nat).
  { subst result. intros r. destruct (prop e name) eqn:E.
    - intros [= ->]. eapply depth_prop, E.
    - apply depth_firstPrefixed. }
  destruct result as [r|]; [|discriminate].
  specialize (Hres r eq_refl).
  destruct r as [| | | |items]; try (intros [= <-]; exact Hres).
  destruct items as [|single [|]]; try (intros [= <-]; exact Hres).
  destruct (existsb _ _); intros [= <-]; [exact Hres|].
  simpl in Hres. lia.
Qed.

Lemma depth_ensureArray value x :
  In x (XMLParser.ensureArray value) -> (depth x <= depthOf value)%nat.
Proof.
  unfold XMLParser.ensureArray. destruct value as [v|]; [|intros []].
  destruct (negb (truthy_xml v)); [intros []|]. simpl depthOf.
  assert (Hself : In x [v] -> (depth x <= depth v)%nat).
  { intros [<-|[]]. lia. }
  destruct v as [| | | |items]; try exact Hself.
  clear Hself. simpl. induction items as [|y items IH]; simpl; [intros []|].
  intros [<-|H]; [lia|]. specialize (IH H). lia.
Qed.

Lemma depth_childrenNamed childTnLst name x :
  In x (childrenNamed childTnLst name) -> (depth x < depthOf childTnLst)%nat.
Proof.
  unfold childrenNamed. intros H.
  destruct (XMLParser.getChild childTnLst name) as [v|] eqn:E.
  - apply depth_ensureArray in H. apply depth_getChild in E. simpl in H. lia.
  - now destruct H.
Qed.

(** *** The loops *)

Lemma bindRun_returns {A B} (m : run A) (k : A -> run B) b :
  bindRun m k = Returns b -> exists a, m = Returns a /\ k a = Returns b.
Proof. destruct m as [a| |]; simpl; [eauto | discriminate | discriminate]. Qed.

Lemma drain_from parseOne items : forall nodes,
  drain parseOne items nodes
  = bindRun (drain parseOne items []) (fun result => Returns (nodes ++ result)).
Proof.
  induction items as [|x items IH]; intros nodes; simpl.
  - now rewrite app_nil_r.
  - destruct (parseOne x) as [[node|]| |]; simpl; [|apply IH|reflexivity|reflexivity].
    rewrite IH, (IH [node]).
    destruct (drain parseOne items []); simpl; try reflexivity.
    now rewrite <- app_assoc.
Qed.

Lemma drain_leaf (f : xml -> AnimationNode) items : forall nodes,
  drain (fun x => Returns (Some (f x))) items nodes = Returns (nodes ++ map f items).
Proof.
  induction items as [|x items IH]; intros nodes; simpl.
  - now rewrite app_nil_r.
  - rewrite IH. now rewrite <- app_assoc.
Qed.

Lemma drain_Forall (P : AnimationNode -> Prop) parseOne items : forall nodes result,
  (forall x node, parseOne x = Returns (Some node) -> P node) ->
  Forall P nodes ->
  drain parseOne items nodes = Returns result ->
  Forall P result.
Proof.
  induction items as [|x items IH]; intros nodes result Hone Hnodes; simpl.
  - now intros [= <-].
  - destruct (parseOne x) as [[node|]| |] eqn:E; simpl; try discriminate.
    + apply IH; [exact Hone|]. apply Forall_app. split; [exact Hnodes|].
      constructor; [eapply Hone, E | constructor].
    + now apply IH.
Qed.

(** A loop is settled by its items. *)
Lemma drain_settled parseOne (ok : xml -> bool) items :
  (forall x, In x items -> settled (parseOne x) (ok x)) ->
  forall nodes, settled (drain parseOne items nodes) (forallb ok items).
Proof.
  induction items as [|x items IH]; intros H nodes; simpl; [reflexivity|].
  pose proof (H x (or_introl eq_refl)) as Hx.
  destruct (parseOne x) as [node|message|]; simpl in *.
  - rewrite Hx. simpl. destruct node; apply IH; intros y Hy; apply H; now right.
  - destruct Hx as [-> ->]. split; reflexivity.
  - contradiction.
Qed.

(** *** The effect of a filter *)

Lemma parseAnimEffectNode_settled e : settled (parseAnimEffectNode e) (filterOk e).
Proof.
  unfold parseAnimEffectNode, filterOk, parseEffectFromFilter.
  destruct e; try (split; reflexivity);
    (destruct (XMLParser.getAttr _ "filter" undefined) as [[s0|n0|b0|f0|i0]|]; simpl;
     [ destruct (negb (s0 =? ""))%string; reflexivity
     | destruct (negb (n0 =? 0)); simpl; [split; reflexivity | reflexivity]
     | destruct b0; simpl; [split; reflexivity | reflexivity]
     | split; reflexivity
     | split; reflexivity
     | reflexivity ]).
Qed.

Lemma parseAnimEffectNode_node e r :
  parseAnimEffectNode e = Returns r -> r = Some (behaviorNode effect e).
Proof.
  unfold parseAnimEffectNode.
  destruct e; try discriminate;
    (destruct (parseEffectFromFilter _); simpl; [|discriminate|discriminate];
     now intros [= <-]).
Qed.

Lemma drain_effects items : forall nodes result,
  drain parseAnimEffectNode items nodes = Returns result ->
  result = nodes ++ map (behaviorNode effect) items.
Proof.
  induction items as [|x items IH]; intros nodes result; simpl.
  - intros [= <-]. now rewrite app_nil_r.
  - destruct (parseAnimEffectNode x) as [r| |] eqn:E; simpl; try discriminate.
    rewrite (parseAnimEffectNode_node _ _ E). intros H.
    rewrite (IH _ _ H). now rewrite <- app_assoc.
Qed.

(** *** Groups *)

Lemma groupNode_type self t e node :
  groupNode self t e = Returns (Some node) -> node.(type) = t.
Proof.
  unfold groupNode. destruct (negb (truthy _)); [discriminate|].
  destruct (if truthy _ then _ else _); simpl; try discriminate.
  now intros [= <-].
Qed.

(** A group is settled as soon as its children are. *)
Lemma groupNode_settled self ok t bound e :
  (forall c, (depthOf c < bound)%nat -> settled (self c) (ok c)) ->
  (depth e < bound)%nat ->
  settled (groupNode self t e) (groupOk ok e).
Proof.
  intros Hself He. unfold groupNode, groupOk.
  destruct (negb (truthy (XMLParser.getChild (Some e) "cTn"))); [reflexivity|].
  cbn [orb].
  destruct (XMLParser.getChild (XMLParser.getChild (Some e) "cTn") "childTnLst")
    as [c|] eqn:Ec; simpl truthy.
  - destruct (truthy_xml c); [|reflexivity]. cbn [negb orb].
    assert (Hc : (depthOf (Some c) < bound)%nat).
    { apply depth_getChild in Ec.
      destruct (XMLParser.getChild (Some e) "cTn") as [cTn|] eqn:Et; [|simpl in Ec; lia].
      apply depth_getChild in Et. simpl in *. lia. }
    specialize (Hself (Some c) Hc).
    destruct (self (Some c)); simpl in *; assumption.
  - reflexivity.
Qed.

(** [parseChildTnLst] is settled when the budget exceeds the depth of the
    tree: it returns, unless it reaches an [animEffect] with a [filter] that
    is truthy and not a string, and then it throws. *)
Lemma parseChildTnLst_settled fuel : forall childTnLst,
  (depthOf childTnLst < fuel)%nat ->
  settled (parseChildTnLst fuel childTnLst) (effectsOk fuel childTnLst).
Proof.
  induction fuel as [|fuel IH]; intros c Hc; [lia|].
  cbn [parseChildTnLst effectsOk]. unfold parseChildTnLst_body.
  assert (Hgroup : forall t name nodes,
            settled (drain (groupNode (parseChildTnLst fuel) t) (childrenNamed c name) nodes)
                    (forallb (groupOk (effectsOk fuel)) (childrenNamed c name))).
  { intros t name nodes. apply drain_settled. intros x Hx.
    apply (groupNode_settled _ _ t fuel); [exact IH|].
    apply depth_childrenNamed in Hx. lia. }
  assert (Heffects : forall nodes,
            settled (drain parseAnimEffectNode (childrenNamed c "animEffect") nodes)
                    (forallb filterOk (childrenNamed c "animEffect"))).
  { intros nodes. apply drain_settled. intros x _. apply parseAnimEffectNode_settled. }
  pose proof (Hgroup sequence "seq" []) as Hseq.
  destruct (drain _ (childrenNamed c "seq") []) as [seqs|message|];
    cbn [bindRun]; [|destruct Hseq as [-> ->]; split; reflexivity|contradiction].
  simpl in Hseq. rewrite Hseq. cbn [andb].
  pose proof (Hgroup parallel "par" seqs) as Hpar.
  destruct (drain _ (childrenNamed c "par") seqs) as [pars|message|];
    cbn [bindRun]; [|destruct Hpar as [-> ->]; split; reflexivity|contradiction].
  simpl in Hpar. rewrite Hpar. cbn [andb].
  unfold parseSetNode, parseAnimateNode, parseAnimColorNode,
    parseAnimMotionNode, parseAnimRotationNode, parseAnimScaleNode, parseAudioNode,
    parseVideoNode.
  rewrite drain_leaf. cbn [bindRun]. rewrite drain_leaf. cbn [bindRun].
  match goal with
  | |- settled (bindRun (drain parseAnimEffectNode _ ?nodes) _) _ =>
      pose proof (Heffects nodes) as Heff;
      destruct (drain parseAnimEffectNode (childrenNamed c "animEffect") nodes)
        as [effects|message|]
  end; cbn [bindRun]; [|exact Heff|contradiction].
  repeat (rewrite drain_leaf; cbn [bindRun]). exact Heff.
Qed.

(** *** Groups of one kind, in the order of the kinds *)

Lemma sortedFrom_nil r : sortedFrom r [].
Proof. split; constructor. Qed.

Lemma sortedFrom_block t r' block rest :
  Forall (fun n => n.(type) = t) block ->
  (rank t <= r')%nat ->
  sortedFrom r' rest ->
  sortedFrom (rank t) (block ++ rest).
Proof.
  intros Hb Hr [Hs Hf].
  induction Hb as [|n block Hn _ [IHs IHf]]; simpl.
  - split; [exact Hs|]. eapply Forall_impl; [|exact Hf]. simpl. intros; lia.
  - split.
    + constructor; [exact IHs|]. eapply Forall_impl; [|exact IHf].
      intros m Hm. unfold byRank, rankOf in *. rewrite Hn. exact Hm.
    + constructor; [|exact IHf]. unfold rankOf. rewrite Hn. lia.
Qed.

Lemma behaviorNode_type t e : (behaviorNode t e).(type) = t.
Proof. unfold behaviorNode. now destruct (parseBehaviorProps _). Qed.

Lemma map_type (f : xml -> AnimationNode) t items :
  (forall e, (f e).(type) = t) -> Forall (fun n => n.(type) = t) (map f items).
Proof. intros H. apply Forall_forall. intros n Hn. apply in_map_iff in Hn as (e & <- & _). apply H. Qed.

(** What [parseChildTnLst] returns, when it does. *)
Lemma parseChildTnLst_blocks fuel childTnLst nodes :
  parseChildTnLst (S fuel) childTnLst = Returns nodes ->
  exists seqs pars,
    drain (parseSequenceNode fuel) (childrenNamed childTnLst "seq") [] = Returns seqs
    /\ drain (parseParNode fuel) (childrenNamed childTnLst "par") [] = Returns pars
    /\ nodes =
       seqs ++ pars
       ++ map (behaviorNode set) (childrenNamed childTnLst "set")
       ++ map (behaviorNode animate) (childrenNamed childTnLst "anim")
       ++ map (behaviorNode effect) (childrenNamed childTnLst "animEffect")
       ++ map (behaviorNode animateColor) (childrenNamed childTnLst "animClr")
       ++ map (behaviorNode animateMotion) (childrenNamed childTnLst "animMotion")
       ++ map (behaviorNode animateRotation) (childrenNamed childTnLst "animRot")
       ++ map (behaviorNode animateScale) (childrenNamed childTnLst "animScale")
       ++ map (mediaNode audio) (childrenNamed childTnLst "audio")
       ++ map (mediaNode video) (childrenNamed childTnLst "video").
Proof.
  cbn [parseChildTnLst]. unfold parseChildTnLst_body. intros H.
  apply bindRun_returns in H as (seqs & Hseqs & H).
  rewrite drain_from in H.
  apply bindRun_returns in H as (nodes2 & Hpars & H).
  apply bindRun_returns in Hpars as (pars & Hpars & [= <-]).
  unfold parseSetNode, parseAnimateNode, parseAnimColorNode,
    parseAnimMotionNode, parseAnimRotationNode, parseAnimScaleNode, parseAudioNode,
    parseVideoNode in H.
  rewrite drain_leaf in H. cbn [bindRun] in H. rewrite drain_leaf in H. cbn [bindRun] in H.
  apply bindRun_returns in H as (nodes5 & Heff & H).
  apply drain_effects in Heff. subst nodes5.
  repeat (rewrite drain_leaf in H; cbn [bindRun] in H).
  injection H as <-.
  exists seqs, pars. split; [exact Hseqs|]. split; [exact Hpars|].
  rewrite <- !app_assoc. reflexivity.
Qed.


End AnimationParserFacts.


(** ** From the timing of a slide to the steps of the controller *)

Section AnimationPipelineFacts.

Import Animation AnimationParser AnimationController.

Context {readers : PropertyReaders}.

(** *** The nodes the parser builds *)

Lemma behaviorNode_asParsed t e :
  t <> sequence -> t <> parallel -> asParsed (behaviorNode t e).
Proof.
  unfold behaviorNode. destruct (parseBehaviorProps _) as [tp target].
  intros Hs Hp. split; [|constructor].
  unfold untargetedGroup, isLeaf. cbn [type]. destruct t; congruence.
Qed.

Lemma mediaNode_asParsed t e :
  t <> sequence -> t <> parallel -> asParsed (mediaNode t e).
Proof.
  intros Hs Hp. split; [|constructor].
  unfold untargetedGroup, isLeaf, mediaNode. cbn [type]. destruct t; congruence.
Qed.

Lemma groupNode_asParsed self t e node :
  (forall c nodes, self c = Returns nodes -> Forall asParsed nodes) ->
  groupNode self t e = Returns (Some node) -> asParsed node.
Proof.
  intros Hself. unfold groupNode. destruct (negb (truthy _)); [discriminate|].
  destruct (truthy (XMLParser.getChild _ "childTnLst")).
  - destruct (self _) as [cs| |] eqn:E; simpl; try discriminate.
    intros [= <-]. split; [intros _; reflexivity|]. cbn [childrenOf children].
    eapply Forall_impl; [|exact (Hself _ _ E)]. now intros n [Hn _].
  - intros [= <-]. split; [intros _; reflexivity | constructor].
Qed.

(** Every node [parseChildTnLst] returns is as parsed, and so are its
    children. *)
Lemma parseChildTnLst_asParsed fuel : forall childTnLst nodes,
  parseChildTnLst fuel childTnLst = Returns nodes -> Forall asParsed nodes.
Proof.
  induction fuel as [|fuel IH]; intros c nodes H; [discriminate|].
  destruct (parseChildTnLst_blocks fuel c nodes H) as (seqs & pars & Hseqs & Hpars & ->).
  assert (Hgroup : forall t items result,
            drain (groupNode (parseChildTnLst fuel) t) items [] = Returns result ->
            Forall asParsed result).
  { intros t items result Hd.
    eapply (drain_Forall _ _ _ [] result); [|constructor|exact Hd].
    intros x node. apply groupNode_asParsed. exact IH. }
  assert (Hmap : forall (f : xml -> AnimationNode) items,
            (forall e, asParsed (f e)) -> Forall asParsed (map f items)).
  { intros f items Hf. apply Forall_forall. intros n Hn.
    apply in_map_iff in Hn as (e & <- & _). apply Hf. }
  repeat (apply Forall_app; split);
    first [ exact (Hgroup _ _ _ Hseqs) | exact (Hgroup _ _ _ Hpars)
          | apply Hmap; intros e;
            first [ apply behaviorNode_asParsed; discriminate
                  | apply mediaNode_asParsed; discriminate ] ].
Qed.

Lemma parseParallelNode_asParsed fuel par s :
  parseParallelNode fuel par = Returns (Some s) ->
  Forall asParsed s.(seq_children) /\ s.(concurrent) = true.
Proof.
  unfold parseParallelNode.
  destruct (negb (truthy (XMLParser.getChild (Some par) "cTn"))); [discriminate|].
  destruct (negb (truthy (XMLParser.getChild _ "childTnLst"))); [discriminate|].
  destruct (parseChildTnLst fuel _) as [cs| |] eqn:E; simpl; try discriminate.
  intros [= <-]. split; [|reflexivity]. exact (parseChildTnLst_asParsed _ _ _ E).
Qed.

Lemma pushSequences_asParsed fuel pars : forall sequences result,
  Forall (fun s => Forall asParsed s.(seq_children) /\ s.(concurrent) = true) sequences ->
  pushSequences fuel pars sequences = Returns result ->
  Forall (fun s => Forall asParsed s.(seq_children) /\ s.(concurrent) = true) result
  /\ (List.length result <= List.length sequences + List.length pars)%nat.
Proof.
  induction pars as [|par pars IH]; intros sequences result Hs; simpl.
  - intros [= <-]. split; [exact Hs | lia].
  - destruct (parseParallelNode fuel par) as [[s|]| |] eqn:E; simpl; try discriminate;
      intros H.
    + destruct (IH (sequences ++ [s]) result) as [H1 H2]; [|exact H|].
      * apply Forall_app. split; [exact Hs|].
        constructor; [exact (parseParallelNode_asParsed _ _ _ E) | constructor].
      * split; [exact H1|]. rewrite length_app in H2. cbn [List.length] in H2. lia.
    + destruct (IH sequences result Hs H) as [H1 H2]. split; [exact H1 | lia].
Qed.

(** *** The steps built from them *)

Lemma addStep_untargeted steps ns :
  Forall asBuilt steps ->
  Forall untargetedGroup ns ->
  Forall asBuilt (addStep steps ns).
Proof.
  intros Hs Hn. unfold addStep. apply Forall_app. split; [exact Hs|].
  constructor; [split; [exact Hn | reflexivity] | constructor].
Qed.

Lemma processNode_untargeted steps n :
  Forall asBuilt steps ->
  asParsed n ->
  Forall asBuilt (processNode steps n).
Proof.
  intros Hs [Hn Hc]. unfold processNode, childrenOf in *.
  destruct (type n) eqn:Et; try exact Hs;
    try (apply addStep_untargeted; [exact Hs | constructor; [exact Hn | constructor]]).
  - destruct (children n) as [cs|]; [|exact Hs].
    now apply addStep_untargeted.
  - destruct (children n) as [cs|]; [|exact Hs].
    clear Hn. revert steps Hs. induction Hc as [|c cs Hc1 _ IH]; intros steps Hs; [exact Hs|].
    cbn [fold_left]. apply IH. apply addStep_untargeted; [exact Hs|].
    constructor; [exact Hc1 | constructor].
Qed.

Lemma processSequence_untargeted ns : forall steps,
  Forall asBuilt steps ->
  Forall asParsed ns ->
  Forall asBuilt (processSequence steps ns).
Proof.
  unfold processSequence. induction ns as [|n ns IH]; intros steps Hs Hn; [exact Hs|].
  inversion Hn as [|? ? Hn1 Hrest]; subst. cbn [fold_left].
  apply IH; [|exact Hrest]. now apply processNode_untargeted.
Qed.

Lemma buildSteps_untargeted sequences :
  Forall (fun s => Forall asParsed s.(seq_children) /\ s.(concurrent) = true) sequences ->
  Forall asBuilt
         (buildSteps (mkSlide (Some (mkTiming (Some sequences))))).
Proof.
  unfold buildSteps. cbn [timing sequenceList].
  assert (H : forall steps,
             Forall asBuilt steps ->
             Forall (fun s => Forall asParsed s.(seq_children) /\ s.(concurrent) = true)
                    sequences ->
             Forall asBuilt
                    (fold_left (fun st s => processSequence st s.(seq_children))
                               sequences steps)).
  { induction sequences as [|s sequences IH]; intros steps Hs Hq; [exact Hs|].
    inversion Hq as [|? ? [Hs1 _] Hrest]; subst. cbn [fold_left].
    apply IH; [|exact Hrest]. now apply processSequence_untargeted. }
  intros Hq. apply H; [constructor | exact Hq].
Qed.

(** A step of untargeted groups and leaves plays leaves only. *)
Lemma playable_leaves step :
  asBuilt step ->
  Forall (fun n => isLeaf n = true) (playable step)
  /\ (Forall (fun n => isLeaf n = false) step.(nodes) ->
      playable step = [] /\ step.(targetIds) = []).
Proof.
  unfold playable. intros [H ->]. induction H as [|n ns Hn _ [IH1 IH2]]; cbn [filter].
  - split; [constructor | split; reflexivity].
  - assert (Hleaf : hasTarget n = true -> isLeaf n = true).
    { intros Ht. destruct (isLeaf n) eqn:El; [reflexivity|].
      unfold hasTarget in Ht. now rewrite (Hn El) in Ht. }
    destruct (hasTarget n) eqn:Eh.
    + split; [constructor; [now apply Hleaf | exact IH1]|].
      intros Hall. inversion Hall as [|? ? Hfalse _]; subst.
      rewrite (Hleaf eq_refl) in Hfalse. discriminate.
    + split; [exact IH1|]. intros Hall. inversion Hall; subst.
      destruct (IH2 ltac:(assumption)) as [Hp Ht]. split; [exact Hp|].
      unfold targetIdsOf in *. cbn [flat_map]. rewrite Ht.
      unfold hasTarget in Eh. now destruct (targetId n).
Qed.

(** Enough budget for the timing of a slide. *)
Lemma parseParallelNode_settled fuel par :
  (depth par < fuel)%nat ->
  settled (parseParallelNode fuel par) (groupOk (effectsOk fuel) par).
Proof.
  intros Hd. unfold parseParallelNode, groupOk.
  destruct (negb (truthy (XMLParser.getChild (Some par) "cTn"))); [reflexivity|].
  cbn [orb].
  destruct (XMLParser.getChild (XMLParser.getChild (Some par) "cTn") "childTnLst")
    as [c|] eqn:Ec; [|reflexivity].
  destruct (negb (truthy (Some c))); [reflexivity|]. cbn [orb].
  assert (Hc : (depthOf (Some c) < fuel)%nat).
  { apply depth_getChild in Ec.
    destruct (XMLParser.getChild (Some par) "cTn") as [cTn|] eqn:Et; [|simpl in Ec; lia].
    apply depth_getChild in Et. simpl in *. lia. }
  pose proof (parseChildTnLst_settled fuel (Some c) Hc) as Hs.
  destruct (parseChildTnLst fuel (Some c)); simpl in *; assumption.
Qed.

Lemma pushSequences_settled fuel pars : forall sequences,
  (forall par, In par pars -> (depth par < fuel)%nat) ->
  settled (pushSequences fuel pars sequences) (forallb (groupOk (effectsOk fuel)) pars).
Proof.
  induction pars as [|par pars IH]; intros sequences Hd; simpl; [reflexivity|].
  pose proof (parseParallelNode_settled fuel par (Hd par (or_introl eq_refl))) as Hpar.
  destruct (parseParallelNode fuel par) as [s|message|]; simpl in *.
  - rewrite Hpar. simpl. destruct s; apply IH; intros x Hx; apply Hd; now right.
  - destruct Hpar as [-> ->]. split; reflexivity.
  - contradiction.
Qed.


End AnimationPipelineFacts.



(** ** parser/pptx-parser.ts *)

Section PPTXParserFacts.

Import RelationshipParser PPTXParser.

Context {collaborators : Collaborators}.

(** *** Members a method leaves as they are *)

Lemma keeps_ret {A X} (f : Parser -> X) (a : A) : keeps f (ret a).
Proof. intros p. reflexivity. Qed.

Lemma keeps_throw {A X} (f : Parser -> X) message : keeps f (throw (A := A) message).
Proof. intros p. reflexivity. Qed.

Lemma keeps_lift {A X} (f : Parser -> X) (r : result A) : keeps f (lift r).
Proof. intros p. reflexivity. Qed.

Lemma keeps_get {X} (f : Parser -> X) : keeps f get.
Proof. intros p. reflexivity. Qed.

Lemma keeps_modify {X} (f : Parser -> X) g :
  (forall p, f (g p) = f p) -> keeps f (modify g).
Proof. intros H p. apply H. Qed.

Lemma keeps_bind {A B X} (f : Parser -> X) (m : M A) (k : A -> M B) :
  keeps f m -> (forall a, keeps f (k a)) -> keeps f (bind m k).
Proof.
  intros Hm Hk p. unfold bind. specialize (Hm p).
  destruct (m p) as [[a|message] p']; simpl in *; [|exact Hm].
  now rewrite Hk.
Qed.

Lemma keeps_forEach {A X} (f : Parser -> X) (body : A -> M unit) l :
  (forall a, keeps f (body a)) -> keeps f (forEach body l).
Proof.
  intros H. induction l as [|x l IH]; simpl.
  - apply keeps_ret.
  - apply keeps_bind; [apply H | intros _; exact IH].
Qed.

(** One step of a proof that a method keeps a member. *)
Ltac keeps_step :=
  first
    [ apply keeps_ret | apply keeps_throw | apply keeps_lift | apply keeps_get
    | apply keeps_modify; intros ?; reflexivity
    | apply keeps_bind; [|intros ?]
    | apply keeps_forEach; intros ?
    | match goal with
      | |- keeps _ (match ?x with _ => _ end) => destruct x
      end ].

Lemma readXml_keeps_zip path : keeps zip (readXml path).
Proof. unfold readXml, addWarning. repeat keeps_step. Qed.

Lemma parseRelationships_keeps_zip forPath : keeps zip (parseRelationships forPath).
Proof.
  unfold parseRelationships. repeat first [apply readXml_keeps_zip | keeps_step].
Qed.

Lemma parseContentTypes_keeps_zip : keeps zip parseContentTypes.
Proof.
  unfold parseContentTypes. repeat first [apply readXml_keeps_zip | keeps_step].
Qed.

Lemma parseThemes_keeps_zip : keeps zip parseThemes.
Proof.
  unfold parseThemes. repeat first [apply readXml_keeps_zip | keeps_step].
Qed.

Lemma parseSlideMasters_keeps_zip : keeps zip parseSlideMasters.
Proof.
  unfold parseSlideMasters, parseSlideMaster.
  repeat first [apply readXml_keeps_zip | apply parseRelationships_keeps_zip | keeps_step].
Qed.

Lemma pushLayout_zip masterId layout p : zip (pushLayout masterId layout p) = zip p.
Proof. unfold pushLayout. now destruct (JsMap.get _ _ _). Qed.

Lemma parseSlideLayouts_keeps_zip : keeps zip parseSlideLayouts.
Proof.
  unfold parseSlideLayouts, parseSlideLayout.
  repeat first [apply readXml_keeps_zip | apply parseRelationships_keeps_zip
               | apply keeps_modify; intros ?; rewrite pushLayout_zip; reflexivity
               | keeps_step].
Qed.

(** *** Running a method *)

Lemma bind_ok {A B} (m : M A) (k : A -> M B) p a p' :
  m p = (Ok a, p') -> bind m k p = k a p'.
Proof. unfold bind. now intros ->. Qed.

Lemma bind_throw {A B} (m : M A) (k : A -> M B) p message p' :
  m p = (Throw message, p') -> bind m k p = (Throw message, p').
Proof. unfold bind. now intros ->. Qed.

(** A method that runs at all throws if what follows it throws in every
    state that has the same archive. *)
Lemma bind_throws_later {A B} (m : M A) (k : A -> M B) p z :
  keeps zip m -> zip p = Some z ->
  (forall a q, zip q = Some z -> exists message q', k a q = (Throw message, q')) ->
  exists message q', bind m k p = (Throw message, q').
Proof.
  intros Hm Hz Hk. unfold bind. specialize (Hm p).
  destruct (m p) as [[a|message] p']; simpl in *; [|eauto].
  apply Hk. congruence.
Qed.

(** [readXml] on a part that the archive lacks. *)
Lemma readXml_missing path p z :
  zip p = Some z -> zipFile z path = None ->
  readXml path p =
  (Ok None,
   set_warnings
     (warnings p ++ [mkWarning "FILE_NOT_FOUND" ("File not found: " ++ path) (Some path) None])
     p).
Proof. intros Hz Hf. unfold readXml, bind, get. now rewrite Hz, Hf. Qed.

(** [readXml] on a part whose text is not XML. *)
Lemma readXml_malformed path p z content message :
  zip p = Some z -> zipFile z path = Some content ->
  fastXmlParse content = Throw message ->
  readXml path p = (Throw ("Failed to parse XML: " ++ message), p).
Proof.
  intros Hz Hf Hx. unfold readXml, bind, get, lift, xmlParse. now rewrite Hz, Hf, Hx.
Qed.

(** [readXml] changes nothing when it returns a document. *)
Lemma readXml_found path p doc p' :
  readXml path p = (Ok (Some doc), p') -> p' = p.
Proof.
  unfold readXml, bind, get, lift, addWarning, modify, ret.
  destruct (zip p) as [z|]; [|discriminate].
  destruct (zipFile z path); [|discriminate].
  destruct (xmlParse s); [|discriminate]. now intros [= _ <-].
Qed.

Lemma bind_ok_inv {A B} (m : M A) (k : A -> M B) p b q :
  bind m k p = (Ok b, q) -> exists a p', m p = (Ok a, p') /\ k a p' = (Ok b, q).
Proof.
  unfold bind. destruct (m p) as [[a|message] p']; [eauto | discriminate].
Qed.

(** *** No method records an error *)

Lemma readXml_keeps_errors path : keeps errors (readXml path).
Proof. unfold readXml, addWarning. repeat keeps_step. Qed.

Lemma parseRelationships_keeps_errors forPath : keeps errors (parseRelationships forPath).
Proof.
  unfold parseRelationships. repeat first [apply readXml_keeps_errors | keeps_step].
Qed.

Lemma pushLayout_errors masterId layout p : errors (pushLayout masterId layout p) = errors p.
Proof. unfold pushLayout. now destruct (JsMap.get _ _ _). Qed.

Lemma readNotes_keeps_errors slidePath slideRels :
  keeps errors (readNotes slidePath slideRels).
Proof.
  unfold readNotes. repeat first [apply readXml_keeps_errors | keeps_step].
Qed.

Lemma slidesLoop_keeps_errors presRels sldIds : forall i acc,
  keeps errors (slidesLoop presRels i sldIds acc).
Proof.
  induction sldIds as [|sldId sldIds IH]; intros i acc; simpl.
  - apply keeps_ret.
  - apply keeps_bind; [|intros ?; apply IH].
    unfold parseSlideAt, buildSlide.
    repeat first [apply readXml_keeps_errors | apply parseRelationships_keeps_errors
                 | apply readNotes_keeps_errors | keeps_step].
Qed.

(** Nothing that runs in the [try] of [parse] records an error. *)
Lemma afterLoad_keeps_errors : keeps errors afterLoad.
Proof.
  unfold afterLoad, parseContentTypes, parseThemes, parseSlideMasters, parseSlideMaster,
    parseSlideLayouts, parseSlideLayout, parsePresentationProperties, parseMetadata,
    parseSlides, parseResources.
  repeat first [apply readXml_keeps_errors | apply parseRelationships_keeps_errors
               | apply slidesLoop_keeps_errors
               | apply keeps_modify; intros ?; rewrite pushLayout_errors; reflexivity
               | keeps_step].
Qed.

(** *** The top-level [parse] *)

Lemma parse_loaded data p z :
  loadAsync data = Ok z ->
  parse data p = tryCatch afterLoad parseCatch (loaded p z).
Proof.
  intros Hz. unfold parse, parseBody, tryCatch, bind, reset, modify, lift.
  rewrite Hz. reflexivity.
Qed.

Lemma parse_not_loaded data p message :
  loadAsync data = Throw message ->
  parse data p = (Throw message, set_errors [fatalError message] (afterReset p)).
Proof.
  intros Hz. unfold parse, parseBody, tryCatch, bind, reset, modify, lift.
  rewrite Hz. reflexivity.
Qed.

Lemma tryCatch_throw (body : M ParseResult) p message q :
  body p = (Throw message, q) ->
  tryCatch body parseCatch p
  = (Throw message, set_errors (errors q ++ [fatalError message]) q).
Proof. unfold tryCatch. now intros ->. Qed.

Lemma tryCatch_ok (body : M ParseResult) p r q :
  body p = (Ok r, q) -> tryCatch body parseCatch p = (Ok r, q).
Proof. unfold tryCatch. now intros ->. Qed.

(** [parseContentTypes] without [[Content_Types].xml]. *)
Lemma parseContentTypes_missing p z :
  zip p = Some z -> zipFile z "[Content_Types].xml" = None ->
  exists q, parseContentTypes p = (Throw "Missing [Content_Types].xml", q)
            /\ errors q = errors p.
Proof.
  intros Hz Hf. unfold parseContentTypes.
  erewrite bind_ok by (eapply readXml_missing; eassumption).
  eexists. split; reflexivity.
Qed.

(** [parsePresentationProperties] without [ppt/presentation.xml]. *)
Lemma parsePresentationProperties_missing p z :
  zip p = Some z -> zipFile z "ppt/presentation.xml" = None ->
  exists q, parsePresentationProperties p = (Throw "Missing presentation.xml", q).
Proof.
  intros Hz Hf. unfold parsePresentationProperties.
  erewrite bind_ok by (eapply readXml_missing; eassumption).
  eexists. reflexivity.
Qed.

(** What follows the loading throws as soon as [parsePresentationProperties]
    does in every state with this archive: the methods that run before it
    leave the archive in place. *)
Lemma afterLoad_throws p z :
  zip p = Some z ->
  (forall q, zip q = Some z ->
             exists message q', parsePresentationProperties q = (Throw message, q')) ->
  exists message q, afterLoad p = (Throw message, q).
Proof.
  intros Hz Hprops. unfold afterLoad.
  eapply bind_throws_later; [apply parseContentTypes_keeps_zip | exact Hz |].
  intros _ q1 Hq1.
  eapply bind_throws_later; [apply parseRelationships_keeps_zip | exact Hq1 |].
  intros _ q2 Hq2.
  eapply bind_throws_later; [apply parseThemes_keeps_zip | exact Hq2 |].
  intros _ q3 Hq3.
  eapply bind_throws_later; [apply parseSlideMasters_keeps_zip | exact Hq3 |].
  intros _ q4 Hq4.
  eapply bind_throws_later; [apply parseSlideLayouts_keeps_zip | exact Hq4 |].
  intros _ q5 Hq5.
  destruct (Hprops q5 Hq5) as (message & q' & H).
  exists message, q'. now apply bind_throw.
Qed.

(** What [parse] returns is built from the members at the end. *)
Lemma afterLoad_ok p r q :
  afterLoad p = (Ok r, q) ->
  r.(res_warnings) = warnings q
  /\ r.(res_errors) = filter (fun e => negb e.(fatal)) (errors q).
Proof.
  unfold afterLoad. intros H.
  do 9 (apply bind_ok_inv in H; destruct H as (? & ? & _ & H)).
  unfold bind, get, ret in H. injection H as <- <-. split; reflexivity.
Qed.

Lemma filter_not_fatal es :
  Forall (fun e => e.(fatal) = false) (filter (fun e => negb e.(fatal)) es).
Proof.
  apply Forall_forall. intros e He. apply filter_In in He as [_ He].
  now apply negb_true_iff in He.
Qed.

(** After the loading, [parse] returns exactly when the steps do, one after
    another, and what it returns is built from their results. *)
Lemma afterLoad_stepsReturn p r q :
  errors p = [] -> (afterLoad p = (Ok r, q) <-> stepsReturn p r q).
Proof.
  intros Hp. split.
  - intros H. pose proof (afterLoad_keeps_errors p) as He. rewrite H in He.
    simpl in He. rewrite Hp in He. unfold afterLoad in H.
    apply bind_ok_inv in H as ([] & p1 & H1 & H).
    apply bind_ok_inv in H as (rels & p2 & H2 & H).
    apply bind_ok_inv in H as ([] & p3 & H3 & H).
    apply bind_ok_inv in H as ([] & p4 & H4 & H).
    apply bind_ok_inv in H as ([] & p5 & H5 & H).
    apply bind_ok_inv in H as (props & p6 & H6 & H).
    apply bind_ok_inv in H as (meta & p7 & H7 & H).
    apply bind_ok_inv in H as (slides & p8 & H8 & H).
    unfold parseResources, bind, get, ret in H. injection H as <- <-.
    exists p1, rels, p2, p3, p4, p5, props, p6, meta, p7, slides.
    repeat (split; [assumption|]).
    rewrite He. reflexivity.
  - intros (p1 & rels & p2 & p3 & p4 & p5 & props & p6 & meta & p7 & slides
            & H1 & H2 & H3 & H4 & H5 & H6 & H7 & H8 & ->).
    assert (Hrun : afterLoad p
                   = (Ok (mkResult
                            (mkPresentation props meta (map snd q.(masters)) slides
                               (resourcesOf q.(options) q.(zip) q.(themes)))
                            q.(warnings)
                            (filter (fun e => negb e.(fatal)) q.(errors))), q)).
    { unfold afterLoad.
      rewrite (bind_ok _ _ _ _ _ H1), (bind_ok _ _ _ _ _ H2), (bind_ok _ _ _ _ _ H3),
        (bind_ok _ _ _ _ _ H4), (bind_ok _ _ _ _ _ H5), (bind_ok _ _ _ _ _ H6),
        (bind_ok _ _ _ _ _ H7), (bind_ok _ _ _ _ _ H8).
      reflexivity. }
    pose proof (afterLoad_keeps_errors p) as He. rewrite Hrun in He. simpl in He.
    rewrite Hrun, He, Hp. reflexivity.
Qed.


(** *** The layout of a slide *)

Lemma readXml_keeps_layouts path : keeps layouts (readXml path).
Proof. unfold readXml, addWarning. repeat keeps_step. Qed.

Lemma parseRelationships_keeps_layouts forPath : keeps layouts (parseRelationships forPath).
Proof.
  unfold parseRelationships. repeat first [apply readXml_keeps_layouts | keeps_step].
Qed.

Lemma parseContentTypes_keeps_layouts : keeps layouts parseContentTypes.
Proof.
  unfold parseContentTypes. repeat first [apply readXml_keeps_layouts | keeps_step].
Qed.

Lemma parseThemes_keeps_layouts : keeps layouts parseThemes.
Proof.
  unfold parseThemes. repeat first [apply readXml_keeps_layouts | keeps_step].
Qed.

Lemma parseSlideMasters_keeps_layouts : keeps layouts parseSlideMasters.
Proof.
  unfold parseSlideMasters, parseSlideMaster.
  repeat first [apply readXml_keeps_layouts | apply parseRelationships_keeps_layouts
               | keeps_step].
Qed.

Lemma parsePresentationProperties_keeps_layouts : keeps layouts parsePresentationProperties.
Proof.
  unfold parsePresentationProperties.
  repeat first [apply readXml_keeps_layouts | keeps_step].
Qed.

Lemma parseMetadata_keeps_layouts : keeps layouts parseMetadata.
Proof.
  unfold parseMetadata. repeat first [apply readXml_keeps_layouts | keeps_step].
Qed.

Lemma readNotes_keeps_layouts slidePath slideRels :
  keeps layouts (readNotes slidePath slideRels).
Proof.
  unfold readNotes. repeat first [apply readXml_keeps_layouts | keeps_step].
Qed.

Lemma parseSlideAt_keeps_layouts presRels i sldId :
  keeps layouts (parseSlideAt presRels i sldId).
Proof.
  unfold parseSlideAt, buildSlide.
  repeat first [apply readXml_keeps_layouts | apply parseRelationships_keeps_layouts
               | apply readNotes_keeps_layouts | keeps_step].
Qed.

Lemma keeps_layoutKeys {A} (m : M A) : keeps layouts m -> maintains layoutKeys m.
Proof. intros H p Hp. unfold layoutKeys in *. now rewrite H. Qed.

Lemma maintains_bind {A B} P (m : M A) (k : A -> M B) :
  maintains P m -> (forall a, maintains P (k a)) -> maintains P (bind m k).
Proof.
  intros Hm Hk p Hp. unfold bind. specialize (Hm p Hp).
  destruct (m p) as [[a|message] p']; simpl in *; [|exact Hm].
  now apply Hk.
Qed.

Lemma maintains_forEach {A} P (body : A -> M unit) l :
  (forall a, In a l -> maintains P (body a)) -> maintains P (forEach body l).
Proof.
  induction l as [|x l IH]; intros H; simpl.
  - intros p Hp. exact Hp.
  - apply maintains_bind; [apply H; now left|].
    intros _. apply IH. intros a Ha. apply H. now right.
Qed.

Lemma set_layoutKeys (m : list (string * SlideLayout)) path layout :
  JS.startsWith path "ppt/slideLayouts/" = true ->
  Forall (fun e => JS.startsWith (fst e) "ppt/slideLayouts/" = true) m ->
  Forall (fun e => JS.startsWith (fst e) "ppt/slideLayouts/" = true)
         (JsMap.set String.eqb m path layout).
Proof.
  intros Hpath. induction 1 as [|[k v] m Hk Hm IH]; simpl.
  - repeat constructor. exact Hpath.
  - destruct (k =? path)%string; constructor; assumption.
Qed.

Lemma pushLayout_layouts masterId layout p :
  layouts (pushLayout masterId layout p) = layouts p.
Proof. unfold pushLayout. now destruct (JsMap.get _ _ _). Qed.

Lemma parseSlideLayout_layoutKeys layoutPath :
  JS.startsWith layoutPath "ppt/slideLayouts/" = true ->
  maintains layoutKeys (parseSlideLayout layoutPath).
Proof.
  intros Hpath. unfold parseSlideLayout.
  apply maintains_bind; [apply keeps_layoutKeys, readXml_keeps_layouts|].
  intros [x|]; [|intros p Hp; exact Hp].
  destruct (negb (truthy_xml x)); [intros p Hp; exact Hp|].
  apply maintains_bind; [apply keeps_layoutKeys, parseRelationships_keeps_layouts|].
  intros rels.
  apply maintains_bind; [apply keeps_layoutKeys, keeps_lift|]. intros found.
  apply maintains_bind.
  { apply keeps_layoutKeys. destruct found; [apply keeps_lift | apply keeps_ret]. }
  intros masterId.
  apply maintains_bind; [apply keeps_layoutKeys, keeps_lift|]. intros content.
  intros p Hp. unfold modify, layoutKeys in *. simpl.
  rewrite pushLayout_layouts. simpl. now apply set_layoutKeys.
Qed.

Lemma parseSlideLayouts_layoutKeys : maintains layoutKeys parseSlideLayouts.
Proof.
  unfold parseSlideLayouts. apply maintains_bind; [apply keeps_layoutKeys, keeps_get|].
  intros q. destruct (zip q) as [z|]; [|intros p Hp; exact Hp].
  apply maintains_forEach. intros path Hin.
  apply parseSlideLayout_layoutKeys.
  apply filter_In in Hin as [_ Hin].
  apply andb_prop in Hin as [Hin _]. apply andb_prop in Hin as [Hin _]. exact Hin.
Qed.

(** When [parseSlides] starts, every layout is stored under the path of its
    part. *)
Lemma beforeSlides_layoutKeys p z :
  layoutKeys (snd (beforeSlides (loaded p z))).
Proof.
  assert (H : maintains layoutKeys beforeSlides).
  { unfold beforeSlides.
    apply maintains_bind; [apply keeps_layoutKeys, parseContentTypes_keeps_layouts|].
    intros _.
    apply maintains_bind; [apply keeps_layoutKeys, parseRelationships_keeps_layouts|].
    intros _. apply maintains_bind; [apply keeps_layoutKeys, parseThemes_keeps_layouts|].
    intros _.
    apply maintains_bind; [apply keeps_layoutKeys, parseSlideMasters_keeps_layouts|].
    intros _. apply maintains_bind; [apply parseSlideLayouts_layoutKeys|].
    intros _.
    apply maintains_bind;
      [apply keeps_layoutKeys, parsePresentationProperties_keeps_layouts|].
    intros props.
    apply maintains_bind; [apply keeps_layoutKeys, parseMetadata_keeps_layouts|].
    intros meta. apply keeps_layoutKeys, keeps_ret. }
  apply H. constructor.
Qed.

(** The slides are read without a change to the layouts. *)
Lemma slidesLoop_layoutKeys presRels sldIds : forall i acc,
  maintains layoutKeys (slidesLoop presRels i sldIds acc).
Proof.
  induction sldIds as [|sldId sldIds IH]; intros i acc; simpl.
  - intros p Hp. exact Hp.
  - apply maintains_bind; [apply keeps_layoutKeys, parseSlideAt_keeps_layouts|].
    intros slide. apply IH.
Qed.

Lemma firstOfType_none kind rels :
  noneOfType kind rels -> firstOfType kind rels = Ok None.
Proof.
  induction 1 as [|[k rel] rels Hrel _ IH]; simpl; [reflexivity|].
  simpl in Hrel. now rewrite Hrel.
Qed.

Lemma masterIdOf_empty p : layoutKeys p -> masterIdOf p "" = "".
Proof.
  unfold layoutKeys, masterIdOf.
  induction 1 as [|[k l] m Hk _ IH]; simpl; [reflexivity|].
  destruct k; [discriminate Hk | exact IH].
Qed.

(** The slide is built from the notes and the content once its layout and
    master ids are known. *)
Lemma buildSlide_run p slideXml slideId i slidePath slideRels layout :
  findLayoutId slidePath slideRels = Ok layout ->
  buildSlide slideXml slideId i slidePath slideRels p =
  bind (readNotes slidePath slideRels)
       (fun notesXml =>
          lift (parseSlide slideXml slideId i layout (masterIdOf p layout)
                           slideRels notesXml)) p.
Proof. intros H. unfold buildSlide. rewrite H. reflexivity. Qed.

(** C8, amended: a slide none of whose relationships has a type that
    includes [slideLayout] is built with [layoutId == ''] and
    [masterId == ''], in a parser whose layouts are stored under the paths of
    their parts (which is so when [parseSlides] starts, and stays so while
    the slides are read); a slide whose first [slideLayout] relationship has
    a target, a string, that resolves to a path under which no layout is
    stored is built with that resolved path as [layoutId] and with
    [masterId == '']. In both cases the layout linkage raises no error:
    [buildSlide] returns the slide whenever reading the notes and parsing the
    content of the slide return. *)
Theorem buildSlide_layout_linkage (p : Parser) (slideXml : xml) (slideId : option Z)
  (i : nat) (slidePath : string) (slideRels : Relationships) :
  (noneOfType "slideLayout" slideRels -> layoutKeys p ->
   findLayoutId slidePath slideRels = Ok ""
   /\ masterIdOf p "" = ""
   /\ (forall notesXml q content,
         readNotes slidePath slideRels p = (Ok notesXml, q) ->
         slideContent slideXml slideId i slideRels notesXml = Ok content ->
         buildSlide slideXml slideId i slidePath slideRels p
         = (Ok (mkSlide slideId i "" "" content), q))
   /\ (forall slide q,
         buildSlide slideXml slideId i slidePath slideRels p = (Ok slide, q) ->
         slide.(layoutId) = "" /\ slide.(masterId) = ""))
  /\ (forall rel t,
        firstOfType "slideLayout" slideRels = Ok (Some rel) ->
        rel.(target) = XStr t ->
        JsMap.get String.eqb p.(layouts) (resolvePath slidePath t) = None ->
        forall notesXml q content,
          readNotes slidePath slideRels p = (Ok notesXml, q) ->
          slideContent slideXml slideId i slideRels notesXml = Ok content ->
          buildSlide slideXml slideId i slidePath slideRels p
          = (Ok (mkSlide slideId i (resolvePath slidePath t) "" content), q))
  /\ (forall p0 z, layoutKeys (snd (beforeSlides (loaded p0 z))))
  /\ (forall presRels sldIds index acc,
        maintains layoutKeys (slidesLoop presRels index sldIds acc)).
Proof.
  split; [|split; [|split; [exact beforeSlides_layoutKeys | exact slidesLoop_layoutKeys]]].
  - intros Hrels Hkeys.
    assert (Hfind : findLayoutId slidePath slideRels = Ok "").
    { unfold findLayoutId. now rewrite firstOfType_none. }
    pose proof (masterIdOf_empty p Hkeys) as Hmaster.
    split; [exact Hfind|]. split; [exact Hmaster|].
    pose proof (buildSlide_run p slideXml slideId i slidePath slideRels "" Hfind) as Hrun.
    rewrite Hmaster in Hrun. split.
    + intros notesXml q content Hnotes Hcontent. rewrite Hrun.
      rewrite (bind_ok _ _ _ _ _ Hnotes). unfold lift, parseSlide. now rewrite Hcontent.
    + intros slide q H. rewrite Hrun in H.
      apply bind_ok_inv in H as (notesXml & q' & _ & H).
      unfold lift, parseSlide in H.
      destruct (slideContent _ _ _ _ _); [|discriminate].
      injection H as <- _. split; reflexivity.
  - intros rel t Hfirst Ht Hlayout notesXml q content Hnotes Hcontent.
    assert (Hfind : findLayoutId slidePath slideRels = Ok (resolvePath slidePath t)).
    { unfold findLayoutId. rewrite Hfirst. unfold resolveTarget. now rewrite Ht. }
    rewrite (buildSlide_run p slideXml slideId i slidePath slideRels _ Hfind).
    unfold masterIdOf. rewrite Hlayout.
    rewrite (bind_ok _ _ _ _ _ Hnotes). unfold lift, parseSlide. now rewrite Hcontent.
Qed.

(** *** The cache of relationships *)

Lemma get_set_path {V} (m : list (string * V)) k v :
  JsMap.get String.eqb (JsMap.set String.eqb m k v) k = Some v.
Proof.
  induction m as [|[k0 v0] m IH]; simpl.
  - now rewrite String.eqb_refl.
  - destruct (k0 =? k)%string eqn:E; simpl; rewrite E; [reflexivity | exact IH].
Qed.

(** X19: [parseRelationships] reads the relationships of a part once. A call
    that returns has stored the map it returns in the cache, under the path
    of the part; a call that finds a map in the cache returns it and changes
    nothing (no part is read, no warning recorded); so a second call for
    the same path returns the same map and leaves the parser as it is. *)
Theorem parseRelationships_cached (forPath : string) (p : Parser)
  (rels : RelationshipParser.Relationships) (q : Parser) :
  parseRelationships forPath p = (Ok rels, q) ->
  JsMap.get String.eqb q.(relationships) forPath = Some rels
  /\ parseRelationships forPath q = (Ok rels, q)
  /\ (forall p' cached,
        JsMap.get String.eqb p'.(relationships) forPath = Some cached ->
        parseRelationships forPath p' = (Ok cached, p')).
Proof.
  assert (H2 : forall p' cached,
             JsMap.get String.eqb p'.(relationships) forPath = Some cached ->
             parseRelationships forPath p' = (Ok cached, p')).
  { intros p' cached E. unfold parseRelationships, bind, get. now rewrite E. }
  intros H.
  assert (H1 : JsMap.get String.eqb q.(relationships) forPath = Some rels).
  { revert H. unfold parseRelationships, bind at 1, get at 1.
    destruct (JsMap.get String.eqb (relationships p) forPath) as [c|] eqn:E.
    - unfold ret. intros [= <- <-]. exact E.
    - intros H. apply bind_ok_inv in H as (doc & p1 & _ & H).
      unfold bind, modify, ret in H. injection H as <- <-. simpl.
      apply get_set_path. }
  split; [exact H1|]. split; [|exact H2]. apply H2. exact H1.
Qed.

(** *** Errors and warnings *)

(** X20: a result of [parse] lists no error at all: nothing that runs after
    the reset records an error unless [parse] throws, so whenever [parse]
    returns, the [errors] of the result and of the parser are empty; the
    warnings of the result are those of the parser. *)
Theorem parse_reports_no_error (data : ArrayBuffer) (p : Parser) (r : ParseResult)
  (q : Parser) :
  parse data p = (Ok r, q) ->
  r.(res_errors) = [] /\ errors q = [] /\ r.(res_warnings) = warnings q.
Proof.
  intros H. destruct (loadAsync data) as [z|message] eqn:Hz.
  - rewrite (parse_loaded data p z Hz) in H. unfold tryCatch in H.
    pose proof (afterLoad_keeps_errors (loaded p z)) as He.
    destruct (afterLoad (loaded p z)) as [[r'|message] q'] eqn:Hrun.
    + injection H as <- <-. destruct (afterLoad_ok _ _ _ Hrun) as [Hw Hf].
      simpl in He. rewrite Hf, He. repeat split. exact Hw.
    + discriminate H.
  - rewrite (parse_not_loaded data p message Hz) in H. discriminate H.
Qed.


(** *** Warnings are only added *)

Lemma appends_keeps {A} (m : M A) : keeps warnings m -> appends m.
Proof. intros H p. exists []. now rewrite app_nil_r. Qed.

Lemma appends_bind {A B} (m : M A) (k : A -> M B) :
  appends m -> (forall a, appends (k a)) -> appends (bind m k).
Proof.
  intros Hm Hk p. unfold bind. destruct (Hm p) as [w Hw].
  destruct (m p) as [[a|message] p']; simpl in *; [|eauto].
  destruct (Hk a p') as [w' Hw']. exists (w ++ w').
  now rewrite Hw', Hw, app_assoc.
Qed.

Lemma appends_forEach {A} (body : A -> M unit) l :
  (forall a, appends (body a)) -> appends (forEach body l).
Proof.
  intros H. induction l as [|x l IH]; simpl.
  - apply appends_keeps, keeps_ret.
  - apply appends_bind; [apply H | intros _; exact IH].
Qed.

Lemma appends_addWarning code message location : appends (addWarning code message location).
Proof. intros p. eexists. reflexivity. Qed.

Ltac appends_step :=
  first
    [ apply appends_addWarning
    | apply appends_bind; [|intros ?]
    | apply appends_forEach; intros ?
    | apply appends_keeps;
      first [ apply keeps_ret | apply keeps_throw | apply keeps_lift | apply keeps_get
            | apply keeps_modify; intros ?; reflexivity ]
    | match goal with
      | |- appends (match ?x with _ => _ end) => destruct x
      end ].

Lemma readXml_appends path : appends (readXml path).
Proof. unfold readXml. repeat appends_step. Qed.

Lemma parseRelationships_appends forPath : appends (parseRelationships forPath).
Proof.
  unfold parseRelationships. repeat first [apply readXml_appends | appends_step].
Qed.

Lemma readNotes_appends slidePath slideRels : appends (readNotes slidePath slideRels).
Proof. unfold readNotes. repeat first [apply readXml_appends | appends_step]. Qed.

Lemma slidesLoop_appends presRels sldIds : forall i acc,
  appends (slidesLoop presRels i sldIds acc).
Proof.
  induction sldIds as [|sldId sldIds IH]; intros i acc; simpl.
  - apply appends_keeps, keeps_ret.
  - apply appends_bind; [|intros ?; apply IH].
    unfold parseSlideAt, buildSlide.
    repeat first [apply readXml_appends | apply parseRelationships_appends
                 | apply readNotes_appends | appends_step].
Qed.

Lemma parseSlides_appends : appends parseSlides.
Proof.
  unfold parseSlides.
  repeat first [apply readXml_appends | apply parseRelationships_appends
               | apply slidesLoop_appends | appends_step].
Qed.

Lemma pushLayout_warnings masterId layout p :
  warnings (pushLayout masterId layout p) = warnings p.
Proof. unfold pushLayout. now destruct (JsMap.get _ _ _). Qed.

(** Every method of the [try] of [parse] only appends to the warnings. *)
Lemma afterLoad_appends : appends afterLoad.
Proof.
  unfold afterLoad, parseContentTypes, parseThemes, parseSlideMasters, parseSlideMaster,
    parseSlideLayouts, parseSlideLayout, parsePresentationProperties, parseMetadata,
    parseResources.
  repeat first [apply readXml_appends | apply parseRelationships_appends
               | apply parseSlides_appends
               | apply appends_keeps, keeps_modify; intros ?;
                 rewrite pushLayout_warnings; reflexivity
               | appends_step].
Qed.

Lemma appends_In {A} (m : M A) p w :
  appends m -> In w (warnings p) -> In w (warnings (snd (m p))).
Proof. intros H Hin. destruct (H p) as [ws ->]. apply in_or_app. now left. Qed.


Lemma parsePresentationProperties_keeps_zip : keeps zip parsePresentationProperties.
Proof.
  unfold parsePresentationProperties. repeat first [apply readXml_keeps_zip | keeps_step].
Qed.

(** A step that returns leaves the archive in place if it keeps it. *)
Lemma keeps_zip_ok {A} (m : M A) p a p' z :
  keeps zip m -> zip p = Some z -> m p = (Ok a, p') -> zip p' = Some z.
Proof. intros Hk Hz H. specialize (Hk p). rewrite H in Hk. simpl in Hk. congruence. Qed.

(** A step that returns keeps the warnings it found. *)
Lemma appends_ok {A} (m : M A) p a p' w :
  appends m -> m p = (Ok a, p') -> In w (warnings p) -> In w (warnings p').
Proof.
  intros Hm H Hin. replace p' with (snd (m p)) by now rewrite H.
  now apply appends_In.
Qed.

Lemma parseMetadata_warns p z path meta q :
  zip p = Some z -> path = "docProps/core.xml" \/ path = "docProps/app.xml" ->
  zipFile z path = None ->
  parseMetadata p = (Ok meta, q) ->
  In (fileNotFound path) (warnings q).
Proof.
  intros Hz Hpath Hf H. unfold parseMetadata in H.
  apply bind_ok_inv in H as (coreXml & p1 & Hcore & H).
  apply bind_ok_inv in H as (extXml & p2 & Hext & H).
  unfold ret in H. injection H as _ <-.
  pose proof (keeps_zip_ok _ _ _ _ _ (readXml_keeps_zip _) Hz Hcore) as Hz1.
  destruct Hpath as [-> | ->].
  - rewrite (readXml_missing _ p z Hz Hf) in Hcore. injection Hcore as _ <-.
    eapply appends_ok; [apply readXml_appends | exact Hext |].
    simpl. apply in_or_app. right. now left.
  - rewrite (readXml_missing _ p1 z Hz1 Hf) in Hext. injection Hext as _ <-.
    simpl. apply in_or_app. right. now left.
Qed.

(** X21: the two metadata parts are optional, and their absence is reported:
    when [parse] returns for an archive that lacks [docProps/core.xml] or
    [docProps/app.xml], the warnings of the result have a [FILE_NOT_FOUND]
    for that path. *)
Theorem parse_warns_of_missing_metadata (data : ArrayBuffer) (p : Parser) (z : Zip)
  (r : ParseResult) (q : Parser) (path : string) :
  loadAsync data = Ok z ->
  parse data p = (Ok r, q) ->
  path = "docProps/core.xml" \/ path = "docProps/app.xml" ->
  zipFile z path = None ->
  In (fileNotFound path) r.(res_warnings).
Proof.
  intros Hz H Hpath Hf. rewrite (parse_loaded data p z Hz) in H.
  unfold tryCatch in H.
  destruct (afterLoad (loaded p z)) as [[r'|message] q'] eqn:Hrun; [|discriminate H].
  injection H as <- <-. destruct (afterLoad_ok _ _ _ Hrun) as [-> _].
  unfold afterLoad in Hrun.
  apply bind_ok_inv in Hrun as (? & p1 & H1 & Hrun).
  apply bind_ok_inv in Hrun as (? & p2 & H2 & Hrun).
  apply bind_ok_inv in Hrun as (? & p3 & H3 & Hrun).
  apply bind_ok_inv in Hrun as (? & p4 & H4 & Hrun).
  apply bind_ok_inv in Hrun as (? & p5 & H5 & Hrun).
  apply bind_ok_inv in Hrun as (props & p6 & H6 & Hrun).
  apply bind_ok_inv in Hrun as (meta & p7 & H7 & Hrun).
  apply bind_ok_inv in Hrun as (slides & p8 & H8 & Hrun).
  apply bind_ok_inv in Hrun as (res & p9 & H9 & Hrun).
  unfold bind, get, ret in Hrun. injection Hrun as _ <-.
  assert (Hz6 : zip p6 = Some z).
  { eapply keeps_zip_ok; [apply parsePresentationProperties_keeps_zip | | exact H6].
    eapply keeps_zip_ok; [apply parseSlideLayouts_keeps_zip | | exact H5].
    eapply keeps_zip_ok; [apply parseSlideMasters_keeps_zip | | exact H4].
    eapply keeps_zip_ok; [apply parseThemes_keeps_zip | | exact H3].
    eapply keeps_zip_ok; [apply parseRelationships_keeps_zip | | exact H2].
    eapply keeps_zip_ok; [apply parseContentTypes_keeps_zip | | exact H1].
    reflexivity. }
  unfold parseResources, bind, get, ret in H9. injection H9 as _ <-.
  eapply appends_ok; [apply parseSlides_appends | exact H8 |].
  eapply parseMetadata_warns; eassumption.
Qed.


(** *** The properties of the presentation *)

Lemma parseIntOr_default v fallback :
  truthy v = false -> parseIntOr v fallback = JS.parseInt10 fallback.
Proof.
  unfold parseIntOr, or_else. destruct v as [x|]; [|reflexivity].
  simpl. now intros ->.
Qed.

Lemma parseIntOr_text s n fallback :
  JS.IntegerText s n -> JS.safeInteger n ->
  parseIntOr (Some (XStr s)) fallback = Some n.
Proof.
  intros H Hsafe. unfold parseIntOr, or_else. cbn [truthy_xml].
  assert (Hne : s <> "").
  { destruct s as [|c r]; [destruct H as [H _]; congruence | discriminate]. }
  apply String.eqb_neq in Hne. rewrite Hne. cbn [negb toString].
  now apply parseInt10_IntegerText.
Qed.

(** X22: [parsePresentationProperties] reads the size of the slides with the
    defaults of a 10 by 7.5 inch slide: when it returns, it has read
    [ppt/presentation.xml] and changed nothing in the parser; a width or a
    height that is absent (or empty) is 9144000 or 6858000, one written as
    a decimal integer that a double holds (at most [2^53] in magnitude) is
    that integer; the number of the first slide is 1 when it is absent. *)
Theorem parsePresentationProperties_defaults (p : Parser)
  (props : PresentationProperties) (q : Parser) :
  parsePresentationProperties p = (Ok props, q) ->
  q = p
  /\ exists x pres,
       readXml "ppt/presentation.xml" p = (Ok (Some x), p)
       /\ orAny (prop x "p:presentation") (prop x "presentation") = Some pres
       /\ let sldSz := orAny (prop pres "p:sldSz") (prop pres "sldSz") in
          let attr k := match sldSz with Some s => prop s k | None => None end in
          (truthy (attr "@_cx") = false -> props.(slideWidth) = Some 9144000)
          /\ (truthy (attr "@_cy") = false -> props.(slideHeight) = Some 6858000)
          /\ (forall s n, attr "@_cx" = Some (XStr s) -> JS.IntegerText s n ->
              JS.safeInteger n -> props.(slideWidth) = Some n)
          /\ (forall s n, attr "@_cy" = Some (XStr s) -> JS.IntegerText s n ->
              JS.safeInteger n -> props.(slideHeight) = Some n)
          /\ (truthy (prop pres "@_firstSlideNum") = false ->
              props.(firstSlideNumber) = Some 1).
Proof.
  intros H. unfold parsePresentationProperties in H.
  apply bind_ok_inv in H as (doc & p1 & Hread & H).
  destruct doc as [x|]; [|discriminate H].
  pose proof (readXml_found _ _ _ _ Hread) as ->.
  destruct (negb (truthy_xml x)); [discriminate H|].
  destruct (orAny (prop x "p:presentation") (prop x "presentation")) as [pres|] eqn:Ep;
    [|discriminate H].
  unfold ret in H. injection H as <- <-.
  split; [reflexivity|]. exists x, pres. split; [exact Hread|]. split; [exact Ep|].
  cbv zeta. cbn [slideWidth slideHeight firstSlideNumber].
  split; [intros Hc; now rewrite (parseIntOr_default _ _ Hc)|].
  split; [intros Hc; now rewrite (parseIntOr_default _ _ Hc)|].
  split; [intros s n -> Hs Hn; now apply parseIntOr_text|].
  split; [intros s n -> Hs Hn; now apply parseIntOr_text|].
  intros Hc. now rewrite (parseIntOr_default _ _ Hc).
Qed.

(** *** The slides *)

Lemma parseSlideAt_index presRels i sldId p slide q :
  parseSlideAt presRels i sldId p = (Ok (Some slide), q) -> slide.(slide_index) = i.
Proof.
  unfold parseSlideAt.
  destruct (match orAny (prop sldId "@_r:id") (prop sldId "@_rid") with
            | Some k => RelationshipParser.get presRels k
            | None => None
            end) as [rel|]; [|discriminate].
  intros H. apply bind_ok_inv in H as (slidePath & p1 & _ & H).
  apply bind_ok_inv in H as (doc & p2 & _ & H).
  destruct doc as [slideXml|]; [|discriminate].
  destruct (negb (truthy_xml slideXml)); [discriminate|].
  apply bind_ok_inv in H as (slideRels & p3 & _ & H).
  apply bind_ok_inv in H as (built & p4 & Hbuild & H).
  unfold ret in H. injection H as <- _.
  unfold buildSlide in Hbuild.
  apply bind_ok_inv in Hbuild as (layout & p5 & _ & Hbuild).
  apply bind_ok_inv in Hbuild as (p6 & p7 & _ & Hbuild).
  apply bind_ok_inv in Hbuild as (notesXml & p8 & _ & Hbuild).
  unfold lift, parseSlide in Hbuild.
  destruct (slideContent _ _ _ _ _); [|discriminate].
  now injection Hbuild as <- _.
Qed.

Lemma slidesLoop_indices presRels sldIds : forall i acc p slides q,
  slidesLoop presRels i sldIds acc p = (Ok slides, q) ->
  exists new,
    slides = acc ++ new
    /\ (List.length new <= List.length sldIds)%nat
    /\ Forall (fun s => (i <= s.(slide_index) < i + List.length sldIds)%nat) new
    /\ StronglySorted indexBefore new.
Proof.
  induction sldIds as [|sldId sldIds IH]; intros i acc p slides q H; simpl in H.
  - unfold ret in H. injection H as <- _. exists [].
    rewrite app_nil_r. repeat split; constructor.
  - apply bind_ok_inv in H as (slide & p1 & Hat & H).
    apply IH in H as (new & -> & Hlen & Hrange & Hsorted).
    assert (Hlater : Forall (fun s => (S i <= s.(slide_index) < i + S (List.length sldIds))%nat) new).
    { eapply Forall_impl; [|exact Hrange]. simpl. intros s Hs. lia. }
    destruct slide as [slide|].
    + apply parseSlideAt_index in Hat.
      exists (slide :: new). rewrite <- app_assoc. simpl. split; [reflexivity|].
      split; [lia|]. split.
      * constructor; [lia|]. eapply Forall_impl; [|exact Hlater]. simpl. intros s Hs. lia.
      * constructor; [exact Hsorted|].
        eapply Forall_impl; [|exact Hlater]. unfold indexBefore. simpl. intros s Hs. lia.
    + exists new. split; [reflexivity|]. split; [simpl; lia|]. split; [|exact Hsorted].
      eapply Forall_impl; [|exact Hlater]. simpl. intros s Hs. lia.
Qed.

(** In a list in the order of [index] whose indices are [lo] or more, the
    slide at place [k] has an index of [lo + k] or more. *)
Lemma indexBefore_place slides : forall lo k s,
  StronglySorted indexBefore slides ->
  Forall (fun x => (lo <= x.(slide_index))%nat) slides ->
  nth_error slides k = Some s -> (lo + k <= s.(slide_index))%nat.
Proof.
  induction slides as [|first slides IH]; intros lo k s Hs Hlo Hk; [now destruct k|].
  apply StronglySorted_inv in Hs as [Hs Hfirst].
  inversion Hlo as [|? ? Hlo1 _]; subst.
  destruct k as [|k]; simpl in Hk.
  - injection Hk as <-. lia.
  - assert (H : (S lo + k <= slide_index s)%nat).
    { apply (IH (S lo) k s Hs); [|exact Hk].
      eapply Forall_impl; [|exact Hfirst]. unfold indexBefore. intros x Hx. lia. }
    lia.
Qed.

(** X23: the slides that [parseSlides] returns are in the order of the slide
    list of the presentation, and the index of a slide is the place of its
    entry in that list: the indices increase strictly along the slides, so no
    two slides have the same index, and the slide at place [k] has an index
    of [k] or more (more when an entry before it gave no slide: the entry is
    skipped and its index is used by no slide). *)
Theorem parseSlides_indices (p : Parser) (slides : list Slide) (q : Parser) :
  parseSlides p = (Ok slides, q) ->
  StronglySorted indexBefore slides
  /\ NoDup (map slide_index slides)
  /\ (forall k s, nth_error slides k = Some s -> (k <= s.(slide_index))%nat).
Proof.
  intros H.
  assert (Hs : StronglySorted indexBefore slides).
  { unfold parseSlides in H.
    apply bind_ok_inv in H as (doc & p1 & _ & H).
    assert (Hnil : forall (s : list Slide) p2,
               ret [] p2 = (Ok s, q) -> StronglySorted indexBefore s).
    { intros s p2 E. unfold ret in E. injection E as <- _. constructor. }
    destruct doc as [x|]; [|eapply Hnil; exact H].
    destruct (negb (truthy_xml x)); [eapply Hnil; exact H|].
    destruct (orAny (prop x "p:presentation") (prop x "presentation")) as [pres|];
      [|discriminate].
    destruct (orAny (prop pres "p:sldIdLst") (prop pres "sldIdLst")) as [lst|];
      [|eapply Hnil; exact H].
    destruct (negb (truthy_xml lst)); [eapply Hnil; exact H|].
    apply bind_ok_inv in H as (presRels & p2 & _ & H).
    apply slidesLoop_indices in H as (new & -> & _ & _ & Hs). exact Hs. }
  split; [exact Hs|]. split.
  - clear H. induction Hs as [|s rest Hrest IH Hfirst]; simpl; constructor; [|exact IH].
    intros Hin. apply in_map_iff in Hin as (x & Hx & Hin).
    rewrite Forall_forall in Hfirst. specialize (Hfirst x Hin).
    unfold indexBefore in Hfirst. lia.
  - intros k s Hk. apply (indexBefore_place slides 0 k s Hs); [|exact Hk].
    apply Forall_forall. intros x _. lia.
Qed.

End PPTXParserFacts.

(** *** A small archive *)

(** The archive is parsed into a presentation of one slide, whose layout
    and master ids are empty; the two optional parts it lacks are warned of. *)
Example parse_exampleArchive :
  let '(outcome, q) := PPTXParser.parse (collaborators := exampleCollaborators)
                         exampleArchive newParser in
  match outcome with
  | PPTXParser.Ok r =>
      r.(PPTXParser.presentation).(PPTXParser.slides)
      = [PPTXParser.mkSlide (collaborators := exampleCollaborators) (Some 256) 0 "" "" tt]
      /\ map PPTXParser.w_location r.(PPTXParser.res_warnings)
         = [Some "docProps/core.xml"; Some "docProps/app.xml"]
      /\ r.(PPTXParser.res_errors) = []
  | PPTXParser.Throw _ => False
  end.
Proof. vm_compute. repeat split. Qed.



(** C8, as the specification states it, fails: the slide of
    [danglingArchive] has a layout relationship that cannot be resolved (the
    archive has no layout part, no layout is parsed); the slide is parsed
    without a fatal error, but its [layoutId] is the path of the missing
    layout, not the empty string. *)
Lemma parse_dangling_layout_counterexample :
  let '(outcome, q) := PPTXParser.parse (collaborators := exampleCollaborators)
                         danglingArchive newParser in
  PPTXParser.layouts q = []
  /\ match outcome with
     | PPTXParser.Ok r =>
         map (fun s => (PPTXParser.layoutId s, PPTXParser.masterId s))
             r.(PPTXParser.presentation).(PPTXParser.slides)
         = [("ppt/slideLayouts/slideLayout1.xml", "")]
     | PPTXParser.Throw _ => False
     end.
Proof. vm_compute. split; reflexivity. Qed.

Lemma buildSlide_layout_linkage_witness :
  PPTXParser.buildSlide (collaborators := exampleCollaborators)
    (XObj [("p:sld", XObj [])]) (Some 256) 0 "ppt/slides/slide1.xml"
    [(XStr "rId1", RelationshipParser.mkRel (XStr "../media/image1.png")
                     (XStr "relationships/image"))]
    (PPTXParser.loaded newParser exampleArchive)
  = (PPTXParser.Ok (PPTXParser.mkSlide (collaborators := exampleCollaborators)
                      (Some 256) 0 "" "" tt),
     PPTXParser.loaded newParser exampleArchive)
  /\ PPTXParser.buildSlide (collaborators := exampleCollaborators)
       (XObj [("p:sld", XObj [])]) (Some 256) 0 "ppt/slides/slide1.xml"
       [(XStr "rId1", RelationshipParser.mkRel (XStr "../slideLayouts/slideLayout1.xml")
                        (XStr "relationships/slideLayout"))]
       (PPTXParser.loaded newParser danglingArchive)
     = (PPTXParser.Ok (PPTXParser.mkSlide (collaborators := exampleCollaborators)
                         (Some 256) 0 "ppt/slideLayouts/slideLayout1.xml" "" tt),
        PPTXParser.loaded newParser danglingArchive).
Proof.
  split.
  - destruct (buildSlide_layout_linkage (collaborators := exampleCollaborators)
                (PPTXParser.loaded newParser exampleArchive)
                (XObj [("p:sld", XObj [])]) (Some 256) 0 "ppt/slides/slide1.xml"
                [(XStr "rId1", RelationshipParser.mkRel (XStr "../media/image1.png")
                                 (XStr "relationships/image"))])
      as (H & _).
    destruct H as (_ & _ & H & _); [repeat constructor | constructor |].
    apply (H None); reflexivity.
  - destruct (buildSlide_layout_linkage (collaborators := exampleCollaborators)
                (PPTXParser.loaded newParser danglingArchive)
                (XObj [("p:sld", XObj [])]) (Some 256) 0 "ppt/slides/slide1.xml"
                [(XStr "rId1",
                  RelationshipParser.mkRel (XStr "../slideLayouts/slideLayout1.xml")
                    (XStr "relationships/slideLayout"))])
      as (_ & H & _).
    apply (H _ "../slideLayouts/slideLayout1.xml" eq_refl eq_refl eq_refl None);
      reflexivity.
Defined.

Lemma parseRelationships_cached_witness :
  exists rels q,
    PPTXParser.parseRelationships (collaborators := exampleCollaborators)
      "ppt/presentation.xml" (PPTXParser.loaded newParser exampleArchive)
    = (PPTXParser.Ok rels, q)
    /\ PPTXParser.parseRelationships (collaborators := exampleCollaborators)
         "ppt/presentation.xml" q
       = (PPTXParser.Ok rels, q).
Proof.
  destruct (PPTXParser.parseRelationships (collaborators := exampleCollaborators)
              "ppt/presentation.xml" (PPTXParser.loaded newParser exampleArchive))
    as [[rels|message] q] eqn:E; [|vm_compute in E; discriminate E].
  exists rels, q. split; [reflexivity|].
  exact (proj1 (proj2 (parseRelationships_cached (collaborators := exampleCollaborators)
                         "ppt/presentation.xml" _ rels q E))).
Defined.

Lemma parse_reports_no_error_witness :
  exists r q,
    PPTXParser.parse (collaborators := exampleCollaborators) exampleArchive newParser
    = (PPTXParser.Ok r, q)
    /\ r.(PPTXParser.res_errors) = [].
Proof.
  destruct (PPTXParser.parse (collaborators := exampleCollaborators)
              exampleArchive newParser)
    as [[r|message] q] eqn:E; [|vm_compute in E; discriminate E].
  exists r, q. split; [reflexivity|].
  exact (proj1 (parse_reports_no_error (collaborators := exampleCollaborators)
                  exampleArchive newParser r q E)).
Defined.

Lemma parse_warns_of_missing_metadata_witness :
  exists r q,
    PPTXParser.parse (collaborators := exampleCollaborators) exampleArchive newParser
    = (PPTXParser.Ok r, q)
    /\ In (PPTXParser.fileNotFound "docProps/app.xml") r.(PPTXParser.res_warnings).
Proof.
  destruct (PPTXParser.parse (collaborators := exampleCollaborators)
              exampleArchive newParser)
    as [[r|message] q] eqn:E; [|vm_compute in E; discriminate E].
  exists r, q. split; [reflexivity|].
  exact (parse_warns_of_missing_metadata (collaborators := exampleCollaborators)
           exampleArchive newParser exampleArchive r q "docProps/app.xml"
           eq_refl E (or_intror eq_refl) eq_refl).
Defined.

Lemma parseSlides_indices_witness :
  exists slides q,
    PPTXParser.parseSlides (collaborators := exampleCollaborators)
      (PPTXParser.loaded newParser exampleArchive)
    = (PPTXParser.Ok slides, q)
    /\ NoDup (map PPTXParser.slide_index slides).
Proof.
  destruct (PPTXParser.parseSlides (collaborators := exampleCollaborators)
              (PPTXParser.loaded newParser exampleArchive))
    as [[slides|message] q] eqn:E; [|vm_compute in E; discriminate E].
  exists slides, q. split; [reflexivity|].
  exact (proj1 (proj2 (parseSlides_indices (collaborators := exampleCollaborators)
                         _ slides q E))).
Defined.

Lemma parsePresentationProperties_defaults_witness :
  exists props q,
    PPTXParser.parsePresentationProperties (collaborators := exampleCollaborators)
      (PPTXParser.loaded newParser exampleArchive)
    = (PPTXParser.Ok props, q)
    /\ q = PPTXParser.loaded newParser exampleArchive
    /\ props.(PPTXParser.slideWidth) = Some 12192000
    /\ props.(PPTXParser.firstSlideNumber) = Some 1.
Proof.
  destruct (PPTXParser.parsePresentationProperties (collaborators := exampleCollaborators)
              (PPTXParser.loaded newParser exampleArchive))
    as [[props|message] q] eqn:E; [|vm_compute in E; discriminate E].
  exists props, q.
  pose proof (proj1 (parsePresentationProperties_defaults
                       (collaborators := exampleCollaborators) _ props q E)) as Hq.
  split; [reflexivity|]. split; [exact Hq|].
  vm_compute in E. injection E as <- _. split; reflexivity.
Defined.
